(** * FileManager-API: path sandbox, progress store, chunked upload, archive engine

    A shallow embedding of the Go sources under [internal/utils],
    [internal/models] and [internal/services], together with the properties
    the specification states about them.

    Go strings are byte sequences: they are modelled as [list ascii].  The
    functions of Go's [strings] and [path/filepath] packages (Unix flavour)
    that the sources call are modelled first, following the Go library's
    documented algorithm; then come the repository's own functions, under
    their own names. *)

From Stdlib Require Import ZArith Ascii String List Lia.
From Stdlib Require Import Strings.Byte.
From Stdlib Require Import DecimalString DecimalNat DecimalZ.
From stdpp Require Import gmap strings list.

Set Default Proof Using "Type".
Local Open Scope Z_scope.

(** ** Go strings *)

Abbreviation gostring := (list ascii).

(** String literals of the sources are written as Rocq string literals and
    read as byte lists. *)
Coercion list_ascii_of_string : string >-> list.

Definition sep : ascii := "/"%char.
Definition dot : ascii := "."%char.

Definition is_sep (c : ascii) : bool := Ascii.eqb c sep.

(** [strings.HasPrefix]. *)
Definition HasPrefix (s pre : gostring) : bool := bool_decide (pre `prefix_of` s).

(** [strings.HasSuffix]. *)
Definition HasSuffix (s suf : gostring) : bool := bool_decide (suf `suffix_of` s).

(** [strings.TrimPrefix]. *)
Definition TrimPrefix (s pre : gostring) : gostring :=
  if HasPrefix s pre then drop (length pre) s else s.

(** [strings.TrimSuffix]. *)
Definition TrimSuffix (s suf : gostring) : gostring :=
  if HasSuffix s suf then take (length s - length suf)%nat s else s.

(** [strings.Split s "/"]: the elements between separators; never empty. *)
Fixpoint split (s : gostring) : list gostring :=
  match s with
  | [] => [[]]
  | c :: r =>
      if is_sep c then [] :: split r
      else match split r with
           | e :: es => (c :: e) :: es
           | [] => [[c]]
           end
  end.

(** [strings.Join elems "/"]. *)
Fixpoint join (elems : list gostring) : gostring :=
  match elems with
  | [] => []
  | [e] => e
  | e :: es => e ++ sep :: join es
  end.

(** ** Errors *)

(** Run-time panics. *)
Inductive panic : Type :=
  | DivideByZero.              (* runtime error: integer divide by zero *)

Global Instance panic_eq_dec : EqDecision panic.
Proof. solve_decision. Defined.

(** The errors the modelled functions return.  A panic unwinds the calls
    that are in progress: where a function returns an error value, the
    outcome [Panic p] stands for a call that panicked instead of
    returning. *)
Inductive error : Type :=
  | Panic (p : panic)
  | ErrPathTraversal            (* utils.ErrPathTraversal *)
  | ErrOutsideBasePath          (* utils.ErrOutsideBasePath *)
  | ErrInvalidPath (cause : error)   (* fmt.Errorf("%w: %v", ErrInvalidPath, err) *)
  | ErrNotFound                 (* services.ErrNotFound *)
  | ErrGetwd                    (* os.Getwd failed *)
  | ErrRel                      (* filepath.Rel: can't make target relative *)
  | ENOENT                      (* no such file or directory *)
  | ENOTDIR                     (* not a directory *)
  | EISDIR                      (* is a directory *)
  | ErrZip                      (* zip: not a valid zip file *)
  | ErrChown                    (* sudo chown failed *)
  | ErrRead                     (* the source stream failed *)
  | NoReturn.                   (* the call does not return *)

Global Instance error_eq_dec : EqDecision error.
Proof. solve_decision. Defined.

Inductive result (A : Type) : Type :=
  | Ok (a : A)
  | Err (e : error).
Arguments Ok {A} a.
Arguments Err {A} e.

Definition is_ok {A} (r : result A) : bool :=
  match r with Ok _ => true | Err _ => false end.

(** ** [path/filepath] on Unix *)

Module filepath.

Definition dotdot : gostring := [dot; dot].

(** [rooted := os.IsPathSeparator(path[0])], also [filepath.IsAbs]. *)
Definition IsAbs (path : gostring) : bool :=
  match path with
  | c :: _ => is_sep c
  | [] => false
  end.

(** The loop of [filepath.Clean], element by element.  [out] is the output
    buffer as a stack of elements, last element first.  Go's index [dotdot]
    marks the part of the buffer that [..] must not remove: the leading
    separator or a leading run of [..] elements; so "out.w > dotdot" holds
    exactly when the stack has a top element other than [..]. *)
Fixpoint clean_loop (rooted : bool) (out : list gostring) (elems : list gostring)
  : list gostring :=
  match elems with
  | [] => out
  | e :: rest =>
      if decide (e = []) then clean_loop rooted out rest          (* empty path element *)
      else if decide (e = [dot]) then clean_loop rooted out rest  (* . element *)
      else if decide (e = dotdot) then                            (* .. element *)
        match out with
        | top :: out' =>
            if decide (top = dotdot)
            then (if rooted then clean_loop rooted out rest
                  else clean_loop rooted (dotdot :: out) rest)
            else clean_loop rooted out' rest                      (* can backtrack *)
        | [] =>
            if rooted then clean_loop rooted out rest             (* .. at the root *)
            else clean_loop rooted (dotdot :: out) rest           (* keep leading .. *)
        end
      else clean_loop rooted (e :: out) rest                      (* real path element *)
  end.

(** The output buffer as a string: the leading separator of a rooted path,
    the elements joined by separators, and "." for an empty buffer. *)
Definition render (rooted : bool) (out : list gostring) : gostring :=
  if rooted then sep :: join out
  else match out with
       | [] => [dot]
       | _ => join out
       end.

(** [filepath.Clean]. *)
Definition Clean (path : gostring) : gostring :=
  match path with
  | [] => [dot]
  | _ =>
      let rooted := IsAbs path in
      render rooted (rev (clean_loop rooted [] (split path)))
  end.

(** [filepath.Join]: the elements from the first non-empty one on are joined
    with separators and cleaned; all empty gives the empty string. *)
Fixpoint Join (elem : list gostring) : gostring :=
  match elem with
  | [] => []
  | e :: rest => if decide (e = []) then Join rest else Clean (join elem)
  end.

(** [filepath.Abs], with the working directory [os.Getwd] would return
    ([None] when it fails). *)
Definition Abs (wd : option gostring) (path : gostring) : result gostring :=
  if IsAbs path then Ok (Clean path)
  else match wd with
       | Some d => Ok (Join [d; path])
       | None => Err ErrGetwd
       end.

(** The scan of [filepath.Rel] that positions both paths at their first
    differing elements.  [b] and [t] are the unread parts [base[b0:]] and
    [targ[t0:]] as element lists; the scan stops when either part is the
    empty string ("bi < bl && ti < tl") or the current elements differ, in
    which case the base element [base[b0:bi]] is returned as well. *)
Fixpoint rel_scan (b t : list gostring) : list gostring * list gostring * gostring :=
  match b, t with
  | eb :: b', et :: t' =>
      if decide (join b = [] \/ join t = []) then (b, t, [])
      else if decide (eb = et) then rel_scan b' t'
      else (b, t, eb)
  | _, _ => (b, t, [])
  end.

(** [".." + "/.." * seps]. *)
Fixpoint dotdots (seps : nat) : gostring :=
  match seps with
  | O => dotdot
  | S n => dotdot ++ sep :: dotdots n
  end.

(** [filepath.Rel]. *)
Definition Rel (basepath targpath : gostring) : result gostring :=
  let base := Clean basepath in
  let targ := Clean targpath in
  if decide (targ = base) then Ok [dot]
  else
    let base := if decide (base = [dot]) then [] else base in
    if negb (Bool.eqb (IsAbs base) (IsAbs targ)) then Err ErrRel
    else
      let '(b, t, cur) := rel_scan (split base) (split targ) in
      if decide (cur = dotdot) then Err ErrRel
      else if decide (join b = []) then Ok (join t)
      else
        let up := dotdots (length b - 1)%nat in
        if decide (join t = []) then Ok up else Ok (up ++ sep :: join t).

(** Scans from the end of a path: [drop_to_sep] drops the bytes before the
    first separator it meets, [take_to_sep] keeps them, [drop_seps] drops
    leading separators.  They are applied to reversed paths. *)
Fixpoint drop_to_sep (r : gostring) : gostring :=
  match r with
  | [] => []
  | c :: r' => if is_sep c then r else drop_to_sep r'
  end.

Fixpoint take_to_sep (r : gostring) : gostring :=
  match r with
  | [] => []
  | c :: r' => if is_sep c then [] else c :: take_to_sep r'
  end.

Fixpoint drop_seps (r : gostring) : gostring :=
  match r with
  | [] => []
  | c :: r' => if is_sep c then drop_seps r' else r
  end.

(** [filepath.Dir]: everything up to and including the last separator,
    cleaned. *)
Definition Dir (path : gostring) : gostring :=
  Clean (rev (drop_to_sep (rev path))).

(** [filepath.Base]. *)
Definition Base (path : gostring) : gostring :=
  match path with
  | [] => [dot]
  | _ =>
      let stripped := drop_seps (rev path) in       (* strip trailing slashes *)
      match rev (take_to_sep stripped) with         (* the last element *)
      | [] => [sep]                                 (* it had only slashes *)
      | last => last
      end
  end.

(** The backwards scan of [filepath.Ext]: [r] is the unread part of the
    path, reversed; [acc] the bytes already passed. *)
Fixpoint ext_scan (r acc : gostring) : gostring :=
  match r with
  | [] => []
  | c :: r' =>
      if is_sep c then []
      else if Ascii.eqb c dot then c :: acc
      else ext_scan r' (c :: acc)
  end.

(** [filepath.Ext]. *)
Definition Ext (path : gostring) : gostring := ext_scan (rev path) [].

End filepath.

(** ** internal/utils/pathutils.go *)

(** [SanitizePath]. *)
Definition SanitizePath (path : gostring) : gostring :=
  let cleaned := filepath.Clean path in
  TrimPrefix cleaned "/".

(** [ValidatePath].  [wd] is the process working directory, which
    [filepath.Abs] consults for relative paths. *)
Definition ValidatePath (wd : option gostring) (basePath requestedPath : gostring)
  : result gostring :=
  let cleanBase := filepath.Clean basePath in
  let cleanReq := SanitizePath requestedPath in
  if decide (cleanReq = [] \/ cleanReq = [dot]) then Ok cleanBase
  else
    let fullPath := filepath.Join [cleanBase; cleanReq] in
    match filepath.Abs wd fullPath with
    | Err e => Err (ErrInvalidPath e)
    | Ok absPath =>
        match filepath.Abs wd cleanBase with
        | Err e => Err (ErrInvalidPath e)
        | Ok absBase =>
            if negb (HasPrefix absPath absBase) then Err ErrPathTraversal
            else Ok absPath
        end
    end.

(** [GetRelativePath]. *)
Definition GetRelativePath (wd : option gostring) (basePath fullPath : gostring)
  : result gostring :=
  match filepath.Abs wd basePath with
  | Err e => Err e
  | Ok absBase =>
      match filepath.Abs wd fullPath with
      | Err e => Err e
      | Ok absPath =>
          match filepath.Rel absBase absPath with
          | Err e => Err e
          | Ok rel =>
              if HasPrefix rel ".." then Err ErrOutsideBasePath
              else Ok rel
          end
      end
  end.

(** Component-wise containment: the path elements of [root] are the leading
    path elements of [p]. *)
Definition elements (p : gostring) : list gostring :=
  filter (fun e => e <> []) (split p).

Definition within (root p : gostring) : Prop :=
  elements root `prefix_of` elements p.

Global Instance within_dec root p : Decision (within root p).
Proof. unfold within. apply _. Defined.

(** A requested path climbs when its sanitised form still begins with a
    [..] element. *)
Definition climbs (requestedPath : gostring) : bool :=
  bool_decide (head (split (SanitizePath requestedPath)) = Some filepath.dotdot).

(** A path element that [Clean] keeps as it is: not empty, not [.], not
    [..], and free of separators. *)
Definition plain (e : gostring) : Prop :=
  e <> [] /\ e <> [dot] /\ e <> filepath.dotdot /\ sep ∉ e.

(** The shape of [Clean]'s element stack: real elements on top of a run of
    [..] elements, which is empty for a rooted path. *)
Inductive stack_ok (rooted : bool) : list gostring -> Prop :=
  | stack_dotdots k :
      (rooted = true -> k = 0%nat) -> stack_ok rooted (replicate k filepath.dotdot)
  | stack_push e out :
      plain e -> stack_ok rooted out -> stack_ok rooted (e :: out).

(** ** Machine integers

    Go's [int64] (and [int], 64 bits wide on the platforms the server runs
    on) as [Z] with two's-complement wrap-around. *)

Definition max_int64 : Z := 2 ^ 63 - 1.
Definition min_int64 : Z := - 2 ^ 63.

Definition wrap64 (z : Z) : Z := (z + 2 ^ 63) mod 2 ^ 64 - 2 ^ 63.

Definition add64 (a b : Z) : Z := wrap64 (a + b).
Definition sub64 (a b : Z) : Z := wrap64 (a - b).
Definition mul64 (a b : Z) : Z := wrap64 (a * b).

(** Integer division truncates toward zero and panics on a zero divisor. *)
Definition quot64 (a b : Z) : panic + Z :=
  if b =? 0 then inl DivideByZero else inr (wrap64 (Z.quot a b)).

(** ** internal/models: progress records *)

Inductive ProgressStatus : Type :=
  | StatusPending
  | StatusUploading
  | StatusProcessing
  | StatusCompleted
  | StatusFailed.

Global Instance ProgressStatus_eq_dec : EqDecision ProgressStatus.
Proof. solve_decision. Defined.

(** [models.Progress]; the field [Progress] of the source is [Percent]
    here, the record itself having taken the name. *)
Record Progress : Type := mkProgress {
  ID : gostring;
  Filename : gostring;
  Percent : Z;              (* Progress int *)
  UploadedBytes : Z;        (* int64 *)
  TotalBytes : Z;           (* int64 *)
  Status : ProgressStatus;
  Error : gostring
}.

Global Instance Progress_eq_dec : EqDecision Progress.
Proof. solve_decision. Defined.

Definition set_UploadedBytes (v : Z) (p : Progress) : Progress :=
  mkProgress (ID p) (Filename p) (Percent p) v (TotalBytes p) (Status p) (Error p).

Definition set_Percent (v : Z) (p : Progress) : Progress :=
  mkProgress (ID p) (Filename p) v (UploadedBytes p) (TotalBytes p) (Status p) (Error p).

Definition set_Status (v : ProgressStatus) (p : Progress) : Progress :=
  mkProgress (ID p) (Filename p) (Percent p) (UploadedBytes p) (TotalBytes p) v (Error p).

Definition set_Error (v : gostring) (p : Progress) : Progress :=
  mkProgress (ID p) (Filename p) (Percent p) (UploadedBytes p) (TotalBytes p) (Status p) v.

(** [models.ProgressStore].  The Go map holds pointers to records; every
    record is stored under one identifier only, so the store is modelled as
    a map from identifiers to record values.  The mutex makes each method
    atomic; the methods are modelled as functions on the store. *)
Module ProgressStore.

Abbreviation t := (gmap gostring Progress).

Definition NewProgressStore : t := ∅.

(** [ps.Set(id, progress)]. *)
Definition Set_ (ps : t) (id : gostring) (progress : Progress) : t :=
  <[id := progress]> ps.

(** [ps.Get(id)]. *)
Definition Get (ps : t) (id : gostring) : option Progress := ps !! id.

(** [ps.Delete(id)]. *)
Definition Delete (ps : t) (id : gostring) : t := delete id ps.

(** [ps.Update(id, uploadedBytes)].  The result is [inl] when the call
    panics. *)
Definition Update (ps : t) (id : gostring) (uploadedBytes : Z) : panic + t :=
  match ps !! id with
  | Some p =>
      let p := set_UploadedBytes uploadedBytes p in
      if 0 <? TotalBytes p then
        match quot64 (mul64 uploadedBytes 100) (TotalBytes p) with
        | inl e => inl e
        | inr q => inr (<[id := set_Percent q p]> ps)
        end
      else inr (<[id := p]> ps)
  | None => inr ps
  end.

(** A sequence of [Update] calls on one identifier. *)
Fixpoint Updates (ps : t) (id : gostring) (values : list Z) : panic + t :=
  match values with
  | [] => inr ps
  | v :: rest =>
      match Update ps id v with
      | inl e => inl e
      | inr ps' => Updates ps' id rest
      end
  end.

End ProgressStore.

(** The record [Update] leaves under a present identifier. *)
Definition updated (p : Progress) (v : Z) : Progress :=
  mkProgress (ID p) (Filename p)
    (if 0 <? TotalBytes p then (v * 100) / TotalBytes p else Percent p)
    v (TotalBytes p) (Status p) (Error p).

(** A store holding one record of total 100, under the identifier [op]. *)
Definition sample_progress : Progress :=
  mkProgress "op" "a.bin" 0 0 100 StatusUploading "".

Definition sample_store : gmap gostring Progress :=
  ProgressStore.Set_ ProgressStore.NewProgressStore "op" sample_progress.

(** ** The file system

    The part of the operating system the services touch: a name space from
    path strings to files and directories.  The root directory always
    exists.  Permissions, symbolic links and device errors are outside the
    model; the errors kept are those the name space itself decides. *)

Global Instance byte_eq_dec : EqDecision byte := Byte.byte_eq_dec.

Inductive node : Type :=
  | NFile (data : list byte)
  | NDir.

Global Instance node_eq_dec : EqDecision node.
Proof. solve_decision. Defined.

Module os.

Abbreviation filesystem := (gmap gostring node).

(** [os.Stat]. *)
Definition Stat (fs : filesystem) (name : gostring) : result node :=
  if decide (name = [sep]) then Ok NDir
  else match fs !! name with
       | Some n => Ok n
       | None => Err ENOENT
       end.

(** Opening [name] with [O_CREATE|O_TRUNC] and writing [data]: the common
    part of [os.Create], [os.OpenFile] and [os.WriteFile]. *)
Definition write_file (fs : filesystem) (name : gostring) (data : list byte)
  : result filesystem :=
  match Stat fs name with
  | Ok NDir => Err EISDIR
  | _ =>
      match Stat fs (filepath.Dir name) with
      | Ok NDir => Ok (<[name := NFile data]> fs)
      | Ok (NFile _) => Err ENOTDIR
      | Err e => Err e
      end
  end.

(** [os.Create]. *)
Definition Create (fs : filesystem) (name : gostring) : result filesystem :=
  write_file fs name [].

(** [os.WriteFile]. *)
Definition WriteFile (fs : filesystem) (name : gostring) (data : list byte)
  : result filesystem :=
  write_file fs name data.

(** [file.Write] on a file opened for writing at [name]: the bytes are
    appended to what has been written so far. *)
Definition Write (fs : filesystem) (name : gostring) (data : list byte)
  : filesystem :=
  match fs !! name with
  | Some (NFile old) => <[name := NFile (old ++ data)]> fs
  | _ => fs
  end.

(** [os.ReadFile]. *)
Definition ReadFile (fs : filesystem) (name : gostring) : result (list byte) :=
  match Stat fs name with
  | Ok (NFile data) => Ok data
  | Ok NDir => Err EISDIR
  | Err e => Err e
  end.

(** The directories [os.MkdirAll] visits in its slow path, outermost
    first: every leading part of [path] that ends at an element boundary. *)
Definition leading_dirs (path : gostring) : list gostring :=
  filter (fun d => d <> [])
    (map (fun i => join (take i (split path))) (seq 1 (length (split path)))).

Fixpoint mkdir_chain (fs : filesystem) (dirs : list gostring) : result filesystem :=
  match dirs with
  | [] => Ok fs
  | d :: rest =>
      match Stat fs d with
      | Ok NDir => mkdir_chain fs rest
      | Ok (NFile _) => Err ENOTDIR
      | Err _ => mkdir_chain (<[d := NDir]> fs) rest
      end
  end.

(** [os.MkdirAll]. *)
Definition MkdirAll (fs : filesystem) (path : gostring) : result filesystem :=
  match Stat fs path with
  | Ok NDir => Ok fs
  | Ok (NFile _) => Err ENOTDIR
  | Err _ => mkdir_chain fs (leading_dirs path)
  end.

(** [os.RemoveAll]: [path] and everything below it disappear. *)
Definition RemoveAll (fs : filesystem) (path : gostring) : filesystem :=
  filter (fun kv => ~ (kv.1 = path \/ HasPrefix kv.1 (path ++ [sep]) = true)) fs.

End os.

(** ** internal/utils: existence tests and unique names *)

(** [PathExists]. *)
Definition PathExists (fs : os.filesystem) (path : gostring) : bool :=
  is_ok (os.Stat fs path).

(** [IsDir]. *)
Definition IsDir (fs : os.filesystem) (path : gostring) : bool :=
  match os.Stat fs path with
  | Ok NDir => true
  | _ => false
  end.

(** [IsFile]. *)
Definition IsFile (fs : os.filesystem) (path : gostring) : bool :=
  match os.Stat fs path with
  | Ok (NFile _) => true
  | _ => false
  end.

(** [fmt.Sprintf("%d", n)]. *)
Definition itoa (n : Z) : gostring :=
  list_ascii_of_string (NilEmpty.string_of_int (Z.to_int n)).

(** The candidate of [GenerateUniqueName] for a counter value:
    [filepath.Join(dir, fmt.Sprintf("%s_%d%s", name, counter, ext))]. *)
Definition candidate (dir name ext : gostring) (counter : Z) : gostring :=
  filepath.Join [dir; name ++ "_" ++ itoa counter ++ ext].

(** The [for] loop of [GenerateUniqueName]; [fuel] bounds the number of
    iterations, [None] means the bound was reached. *)
Fixpoint unique_loop (fs : os.filesystem) (dir name ext : gostring)
    (counter : Z) (fuel : nat) : option gostring :=
  match fuel with
  | O => None
  | S fuel' =>
      let newPath := candidate dir name ext counter in
      if negb (PathExists fs newPath) then Some newPath
      else unique_loop fs dir name ext (add64 counter 1) fuel'
  end.

(** [GenerateUniqueName], with a bound on the iterations of its loop. *)
Definition GenerateUniqueName_fuel (fuel : nat) (fs : os.filesystem)
    (path : gostring) : option gostring :=
  if negb (PathExists fs path) then Some path
  else
    let dir := filepath.Dir path in
    let ext := filepath.Ext path in
    let name := TrimSuffix (filepath.Base path) ext in
    unique_loop fs dir name ext 1 fuel.

(** [GenerateUniqueName].  One iteration more than there are entries in the
    file system always finds a free name (see [GenerateUniqueName_returns]);
    [None] would stand for a call that does not return. *)
Definition GenerateUniqueName (fs : os.filesystem) (path : gostring)
  : option gostring :=
  GenerateUniqueName_fuel (S (size fs)) fs path.

(** ** The environment of the services *)

(** An entry of a zip archive: [zip.File] when read, the header and bytes
    handed to [zip.Writer] when written.  [DirAttr] says that the external
    attributes mark a directory; [Body] is what [f.Open] and reading give. *)
Record ZipFile : Type := mkZipFile {
  Name : gostring;
  DirAttr : bool;
  UncompressedSize64 : Z;
  Body : result (list byte)
}.

(** [f.FileInfo().IsDir()]: the mode has the directory bit when the
    attributes say so or when the name ends with a slash. *)
Definition ZipFile_IsDir (f : ZipFile) : bool :=
  DirAttr f || HasSuffix (Name f) "/".

(** What the services take from outside the repository's sources: the
    working directory, the temporary directory, the order in which
    [filepath.Walk] visits a tree, the zip codec, and [utils.SudoChown]
    (declared in a source file that is not part of this development). *)
Record host : Type := mkHost {
  Getwd : option gostring;
  os_TempDir : gostring;
  Walk : os.filesystem -> gostring -> list (gostring * node);
  zip_OpenReader : list byte -> result (list ZipFile);
  zip_bytes : list ZipFile -> list byte;
  SudoChown : gostring -> gostring -> option error
}.

(** The fields the three services share ([UploadService], [ExtractService],
    [CompressService]); their stores are part of [state]. *)
Record service : Type := mkService {
  basePath : gostring;
  owner : gostring
}.

(** [err.Error()]. *)
Definition error_text (e : error) : gostring :=
  match e with
  | Panic _ => "panic"
  | ErrPathTraversal => "path traversal detected"
  | ErrOutsideBasePath => "path is outside allowed base path"
  | ErrInvalidPath _ => "invalid path"
  | ErrNotFound => "not found"
  | ErrGetwd => "getwd"
  | ErrRel => "Rel: can't make path relative"
  | ENOENT => "no such file or directory"
  | ENOTDIR => "not a directory"
  | EISDIR => "is a directory"
  | ErrZip => "zip: not a valid zip file"
  | ErrChown => "chown failed"
  | ErrRead => "read failed"
  | NoReturn => ""
  end.

(** [utils.DefaultBufferSize]. *)
Definition DefaultBufferSize : nat := 64 * 1024.

(** The successive contents of a buffer of [n] bytes through which [data]
    is copied; [k] is the room left in the current buffer, [cur] its
    content so far, reversed. *)
Fixpoint buffers_aux (n k : nat) (cur data : list byte) : list (list byte) :=
  match data with
  | [] => match cur with
          | [] => []
          | _ => [rev cur]
          end
  | b :: rest =>
      match k with
      | O | S O => rev (b :: cur) :: buffers_aux n n [] rest
      | S k' => buffers_aux n k' (b :: cur) rest
      end
  end.

Definition buffers (n : nat) (data : list byte) : list (list byte) :=
  buffers_aux n n [] data.

(** ** Runes *)

Definition wrap32 (z : Z) : Z := (z + 2 ^ 31) mod 2 ^ 32 - 2 ^ 31.

Definition chr (z : Z) : ascii := ascii_of_N (Z.to_N z).

(** [utf8.RuneError] as a string: the encoding of U+FFFD. *)
Definition RuneError : gostring := [chr 239; chr 191; chr 189].

(** [string(rune(r))]: the UTF-8 encoding of the code point, and the
    encoding of U+FFFD for values that are not valid code points: negative ones,
    those above U+10FFFF, and the surrogate range U+D800..U+DFFF. *)
Definition string_of_rune (r : Z) : gostring :=
  if (r <? 0) || (1114111 <? r) || ((55296 <=? r) && (r <=? 57343)) then RuneError
  else if r <=? 127 then [chr r]
  else if r <=? 2047 then
    [chr (Z.lor 192 (Z.shiftr r 6)); chr (Z.lor 128 (Z.land r 63))]
  else if r <=? 65535 then
    [chr (Z.lor 224 (Z.shiftr r 12));
     chr (Z.lor 128 (Z.land (Z.shiftr r 6) 63));
     chr (Z.lor 128 (Z.land r 63))]
  else
    [chr (Z.lor 240 (Z.shiftr r 18));
     chr (Z.lor 128 (Z.land (Z.shiftr r 12) 63));
     chr (Z.lor 128 (Z.land (Z.shiftr r 6) 63));
     chr (Z.lor 128 (Z.land r 63))].

(** ** internal/services: the upload service *)

Module ChunkUpload.

(** [ChunkUpload]: a pending chunked upload. *)
Record t : Type := mk {
  ID : gostring;
  Filename : gostring;
  Destination : gostring;
  TotalSize : Z;            (* int64 *)
  ChunkSize : Z;            (* int *)
  TotalChunks : Z;          (* int *)
  Chunks : gmap Z bool;     (* map[int]bool *)
  TempDir : gostring
}.

Definition set_Chunks (c : gmap Z bool) (u : t) : t :=
  mk (ID u) (Filename u) (Destination u) (TotalSize u) (ChunkSize u)
     (TotalChunks u) c (TempDir u).

End ChunkUpload.

(** The state the services work on: the file system, the shared progress
    store, and the chunk store of the upload service.  The chunk store maps
    identifiers to pointers in the source; a session is reachable through
    its identifier only, so the store holds the sessions themselves. *)
Record state : Type := mkState {
  fs : os.filesystem;
  progressStore : gmap gostring Progress;
  chunkStore : gmap gostring ChunkUpload.t
}.

Definition set_fs (f : os.filesystem) (st : state) : state :=
  mkState f (progressStore st) (chunkStore st).

Definition set_progressStore (ps : gmap gostring Progress) (st : state) : state :=
  mkState (fs st) ps (chunkStore st).

Definition set_chunkStore (cs : gmap gostring ChunkUpload.t) (st : state) : state :=
  mkState (fs st) (progressStore st) cs.

(** [setOwner]. *)
Definition setOwner (h : host) (s : service) (path : gostring) : option error :=
  if decide (owner s = []) then None else SudoChown h path (owner s).

(** [updateProgressError]. *)
Definition updateProgressError (ps : gmap gostring Progress) (id errorMsg : gostring)
  : gmap gostring Progress :=
  match ProgressStore.Get ps id with
  | Some p => ProgressStore.Set_ ps id (set_Error errorMsg (set_Status StatusFailed p))
  | None => ps
  end.

(** [updateProgressCompleted]. *)
Definition updateProgressCompleted (ps : gmap gostring Progress) (id : gostring)
  : gmap gostring Progress :=
  match ProgressStore.Get ps id with
  | Some p =>
      ProgressStore.Set_ ps id
        (set_UploadedBytes (TotalBytes p) (set_Percent 100 (set_Status StatusCompleted p)))
  | None => ps
  end.

(** [s.updateProgressError(id, err.Error()); return err]. *)
Definition fail (st : state) (id : gostring) (e : error) : state * option error :=
  (set_progressStore (updateProgressError (progressStore st) id (error_text e)) st,
   Some e).

(** The name of the scratch file of a chunk: [string(rune('0'+chunkIndex))],
    the sum being an [int] and the conversion to [rune] keeping its low 32
    bits. *)
Definition chunkName (chunkIndex : Z) : gostring :=
  string_of_rune (wrap32 (add64 48 chunkIndex)).

(** The scratch file of a chunk:
    [filepath.Join(chunk.TempDir, string(rune('0'+chunkIndex)))]. *)
Definition chunkPath (tempDir : gostring) (chunkIndex : Z) : gostring :=
  filepath.Join [tempDir; chunkName chunkIndex].

(** [InitChunkedUpload]; [uploadID] is the identifier [uuid.New] draws. *)
Definition InitChunkedUpload (h : host) (s : service) (st : state)
    (uploadID filename destination : gostring) (totalSize chunkSize : Z)
  : state * result ChunkUpload.t :=
  match ValidatePath (Getwd h) (basePath s) destination with
  | Err e => (st, Err e)
  | Ok destPath =>
      match quot64 (sub64 (add64 totalSize chunkSize) 1) chunkSize with
      | inl p => (st, Err (Panic p))
      | inr totalChunks =>
          let tempDir := filepath.Join [os_TempDir h; "filemanager-chunks" : gostring; uploadID] in
          match os.MkdirAll (fs st) tempDir with
          | Err e => (st, Err e)
          | Ok fs1 =>
              let chunk :=
                ChunkUpload.mk uploadID filename destPath totalSize chunkSize
                  totalChunks ∅ tempDir in
              (mkState fs1
                 (ProgressStore.Set_ (progressStore st) uploadID
                    (mkProgress uploadID filename 0 0 totalSize StatusPending []))
                 (<[uploadID := chunk]> (chunkStore st)),
               Ok chunk)
          end
      end
  end.

(** The loop of [finalizeChunkedUpload] that appends the scratch files to
    the final file. *)
Fixpoint assemble (f : os.filesystem) (tempDir finalPath : gostring)
    (indices : list Z) : os.filesystem * option error :=
  match indices with
  | [] => (f, None)
  | i :: rest =>
      match os.ReadFile f (chunkPath tempDir i) with
      | Err e => (f, Some e)
      | Ok chunkData => assemble (os.Write f finalPath chunkData) tempDir finalPath rest
      end
  end.

(** The values [i] takes in [for i := 0; i < n; i++]. *)
Definition upto (n : Z) : list Z := map Z.of_nat (seq 0 (Z.to_nat n)).

(** [finalizeChunkedUpload]. *)
Definition finalizeChunkedUpload (h : host) (s : service) (st : state)
    (uploadID : gostring) : state * option error :=
  match chunkStore st !! uploadID with
  | None => (st, Some ErrNotFound)
  | Some chunk =>
      let st := set_chunkStore (delete uploadID (chunkStore st)) st in
      let finalPath := filepath.Join [ChunkUpload.Destination chunk; ChunkUpload.Filename chunk] in
      match (if PathExists (fs st) finalPath
             then GenerateUniqueName (fs st) finalPath else Some finalPath) with
      | None => (st, Some NoReturn)
      | Some finalPath =>
          match os.MkdirAll (fs st) (filepath.Dir finalPath) with
          | Err e => fail st uploadID e
          | Ok fs1 =>
              match os.Create fs1 finalPath with
              | Err e => fail (set_fs fs1 st) uploadID e
              | Ok fs2 =>
                  match assemble fs2 (ChunkUpload.TempDir chunk) finalPath
                          (upto (ChunkUpload.TotalChunks chunk)) with
                  | (fs3, Some e) => fail (set_fs fs3 st) uploadID e
                  | (fs3, None) =>
                      let fs4 := os.RemoveAll fs3 (ChunkUpload.TempDir chunk) in
                      let _ := setOwner h s finalPath in
                      (mkState fs4
                         (updateProgressCompleted (progressStore st) uploadID)
                         (chunkStore st),
                       None)
                  end
              end
          end
      end
  end.

(** [UploadChunk]. *)
Definition UploadChunk (h : host) (s : service) (st : state)
    (uploadID : gostring) (chunkIndex : Z) (data : list byte)
  : state * option error :=
  match chunkStore st !! uploadID with
  | None => (st, Some ErrNotFound)
  | Some chunk =>
      match os.WriteFile (fs st) (chunkPath (ChunkUpload.TempDir chunk) chunkIndex) data with
      | Err e => (st, Some e)
      | Ok fs1 =>
          let chunk := ChunkUpload.set_Chunks (<[chunkIndex := true]> (ChunkUpload.Chunks chunk)) chunk in
          let uploadedChunks := Z.of_nat (size (ChunkUpload.Chunks chunk)) in
          let st1 := mkState fs1 (progressStore st) (<[uploadID := chunk]> (chunkStore st)) in
          let uploadedBytes := mul64 uploadedChunks (ChunkUpload.ChunkSize chunk) in
          let uploadedBytes :=
            if ChunkUpload.TotalSize chunk <? uploadedBytes
            then ChunkUpload.TotalSize chunk else uploadedBytes in
          match ProgressStore.Update (progressStore st1) uploadID uploadedBytes with
          | inl p => (st1, Some (Panic p))
          | inr ps =>
              let st2 := set_progressStore ps st1 in
              if uploadedChunks =? ChunkUpload.TotalChunks chunk
              then finalizeChunkedUpload h s st2 uploadID
              else (st2, None)
          end
      end
  end.

(** The progress update of the copy loops of [extractFile] and
    [addFileToZip], done through the pointer [Get] returns:
    [if totalSize > 0 { progress := int((newVal * 100) / totalSize); ... }]. *)
Definition bump_progress (ps : gmap gostring Progress) (id : gostring)
    (newVal totalSize : Z) : panic + gmap gostring Progress :=
  if 0 <? totalSize then
    match quot64 (mul64 newVal 100) totalSize with
    | inl p => inl p
    | inr progress =>
        match ProgressStore.Get ps id with
        | Some p => inr (<[id := set_UploadedBytes newVal (set_Percent progress p)]> ps)
        | None => inr ps
        end
    end
  else inr ps.

(** ** pkg/progresswriter *)

Module ProgressWriter.

(** [ProgressWriter]: the two counters; the writer it wraps and the
    function it reports to are arguments of [Write]. *)
Record t : Type := mk {
  total : Z;
  written : Z
}.

(** [NewProgressWriter]. *)
Definition NewProgressWriter (total : Z) : t := mk total 0.

(** [Write], once the wrapped writer has taken [n] bytes: the counter
    advances and [onProgress], when there is one, is called with it; [S] is
    what [onProgress] acts on. *)
Definition Write {S : Type} (onProgress : option (Z -> Z -> S -> S)) (pw : t)
    (n : Z) (st : S) : t * S :=
  if 0 <? n then
    let written := add64 (written pw) n in
    (mk (total pw) written,
     match onProgress with
     | Some report => report written (total pw) st
     | None => st
     end)
  else (pw, st).

(** [Progress]. *)
Definition Progress (pw : t) : Z :=
  if total pw =? 0 then 0
  else wrap64 (Z.quot (mul64 (written pw) 100) (total pw)).

(** A sequence of [Write] calls. *)
Fixpoint Writes {S : Type} (onProgress : option (Z -> Z -> S -> S)) (pw : t)
    (ns : list Z) (st : S) : t * S :=
  match ns with
  | [] => (pw, st)
  | n :: rest =>
      let '(pw, st) := Write onProgress pw n st in
      Writes onProgress pw rest st
  end.

End ProgressWriter.

(** ** internal/services: the single-file upload *)

(** The function [Upload] hands to its progress writer:
    [func(written, total int64) { s.progressStore.Update(uploadID, written) }].
    [Update] divides by a total it has found positive and so returns
    normally for every store (lemma [Update_never_panics]); a panic would
    have ended the call. *)
Definition report_upload (uploadID : gostring) (written total : Z)
    (ps : gmap gostring Progress) : gmap gostring Progress :=
  match ProgressStore.Update ps uploadID written with
  | inr ps' => ps'
  | inl _ => ps
  end.

(** The copy of [Upload], [io.CopyBuffer(pw, reader, buf)]: every buffer
    read from the source is handed to [pw.Write]; the writer [pw] wraps is
    the file at [path], which takes the whole buffer, and [onProgress] is
    [report_upload]. *)
Fixpoint upload_copy (f : os.filesystem) (pw : ProgressWriter.t)
    (ps : gmap gostring Progress) (uploadID path : gostring)
    (bufs : list (list byte))
  : os.filesystem * ProgressWriter.t * gmap gostring Progress :=
  match bufs with
  | [] => (f, pw, ps)
  | buf :: rest =>
      let f := os.Write f path buf in
      let '(pw, ps) :=
        ProgressWriter.Write (Some (report_upload uploadID)) pw
          (Z.of_nat (length buf)) ps in
      upload_copy f pw ps uploadID path rest
  end.

(** [Upload]: a single file; [reader] is the content the source stream
    delivers and the error, if any, with which it ends. *)
Definition Upload (h : host) (s : service) (st : state)
    (uploadID filename destination : gostring)
    (reader : list byte * option error) (size : Z)
  : state * gostring * option error :=
  match ValidatePath (Getwd h) (basePath s) destination with
  | Err e => (st, [], Some e)
  | Ok destPath =>
      match os.MkdirAll (fs st) destPath with
      | Err e => (st, [], Some e)
      | Ok fs1 =>
          let st := set_fs fs1 st in
          let fullPath := filepath.Join [destPath; filename] in
          match (if PathExists fs1 fullPath
                 then GenerateUniqueName fs1 fullPath else Some fullPath) with
          | None => (st, [], Some NoReturn)
          | Some fullPath =>
              let st :=
                set_progressStore
                  (ProgressStore.Set_ (progressStore st) uploadID
                     (mkProgress uploadID (filepath.Base fullPath) 0 0 size
                        StatusUploading []))
                  st in
              match os.Create fs1 fullPath with
              | Err e => let '(st, e) := fail st uploadID e in (st, uploadID, e)
              | Ok fs2 =>
                  let pw := ProgressWriter.NewProgressWriter size in
                  let '(fs3, _, ps) :=
                    upload_copy fs2 pw (progressStore st) uploadID fullPath
                      (buffers DefaultBufferSize reader.1) in
                  let st := mkState fs3 ps (chunkStore st) in
                  match reader.2 with
                  | Some e => let '(st, e) := fail st uploadID e in (st, uploadID, e)
                  | None =>
                      let _ := setOwner h s fullPath in
                      (set_progressStore
                         (updateProgressCompleted (progressStore st) uploadID) st,
                       uploadID, None)
                  end
              end
          end
      end
  end.

(** ** internal/services: the extract service *)

(** The copy loop of [extractFile]. *)
Fixpoint extract_copy (f : os.filesystem) (ps : gmap gostring Progress)
    (progressID filePath : gostring) (extractedBytes totalSize : Z)
    (bufs : list (list byte))
  : os.filesystem * gmap gostring Progress * Z * option error :=
  match bufs with
  | [] => (f, ps, extractedBytes, None)
  | buf :: rest =>
      let f := os.Write f filePath buf in
      let newVal := add64 extractedBytes (Z.of_nat (length buf)) in
      match bump_progress ps progressID newVal totalSize with
      | inl p => (f, ps, newVal, Some (Panic p))
      | inr ps => extract_copy f ps progressID filePath newVal totalSize rest
      end
  end.

(** [extractFile]; the counter behind the pointer [extractedBytes] is passed
    in and returned. *)
Definition extractFile (h : host) (s : service) (st : state) (f : ZipFile)
    (destPath : gostring) (extractedBytes totalSize : Z) (progressID : gostring)
  : state * Z * option error :=
  let filePath := filepath.Join [destPath; Name f] in
  if negb (HasPrefix filePath (filepath.Clean destPath ++ [sep])) then
    (st, extractedBytes, Some ErrPathTraversal)
  else if ZipFile_IsDir f then
    match os.MkdirAll (fs st) filePath with
    | Err e => (st, extractedBytes, Some e)
    | Ok fs1 => (set_fs fs1 st, extractedBytes, setOwner h s filePath)
    end
  else
    match os.MkdirAll (fs st) (filepath.Dir filePath) with
    | Err e => (st, extractedBytes, Some e)
    | Ok fs1 =>
        match Body f with
        | Err e => (set_fs fs1 st, extractedBytes, Some e)
        | Ok data =>
            match os.write_file fs1 filePath [] with
            | Err e => (set_fs fs1 st, extractedBytes, Some e)
            | Ok fs2 =>
                let '(fs3, ps, extractedBytes, err) :=
                  extract_copy fs2 (progressStore st) progressID filePath
                    extractedBytes totalSize (buffers DefaultBufferSize data) in
                let st := mkState fs3 ps (chunkStore st) in
                match err with
                | Some e => (st, extractedBytes, Some e)
                | None =>
                    let _ := setOwner h s filePath in
                    (st, extractedBytes, None)
                end
            end
        end
    end.

(** The loop of [Extract] over the entries of the archive: it stops at the
    first entry that fails. *)
Fixpoint extract_entries (h : host) (s : service) (st : state)
    (files : list ZipFile) (destPath : gostring) (extractedBytes totalSize : Z)
    (extractID : gostring) : state * Z * option error :=
  match files with
  | [] => (st, extractedBytes, None)
  | f :: rest =>
      match extractFile h s st f destPath extractedBytes totalSize extractID with
      | (st, extractedBytes, Some e) => (st, extractedBytes, Some e)
      | (st, extractedBytes, None) =>
          extract_entries h s st rest destPath extractedBytes totalSize extractID
      end
  end.

(** [totalSize += int64(f.UncompressedSize64)] over the entries. *)
Definition declared_size (files : list ZipFile) : Z :=
  fold_left (fun acc f => add64 acc (wrap64 (UncompressedSize64 f))) files 0.

(** [Extract]; [extractID] is the identifier [uuid.New] draws.  The result
    is the returned string and error. *)
Definition Extract (h : host) (s : service) (st : state)
    (extractID source destination : gostring)
  : state * gostring * option error :=
  match ValidatePath (Getwd h) (basePath s) source with
  | Err e => (st, [], Some e)
  | Ok sourcePath =>
      if negb (PathExists (fs st) sourcePath) then (st, [], Some ErrNotFound)
      else
        match ValidatePath (Getwd h) (basePath s) destination with
        | Err e => (st, [], Some e)
        | Ok destPath =>
            match (match os.ReadFile (fs st) sourcePath with
                   | Err e => Err e
                   | Ok bytes => zip_OpenReader h bytes
                   end) with
            | Err e => (st, [], Some e)
            | Ok files =>
                let totalSize := declared_size files in
                let st :=
                  set_progressStore
                    (ProgressStore.Set_ (progressStore st) extractID
                       (mkProgress extractID (filepath.Base sourcePath) 0 0
                          totalSize StatusProcessing []))
                    st in
                match os.MkdirAll (fs st) destPath with
                | Err e => let '(st, e) := fail st extractID e in (st, extractID, e)
                | Ok fs1 =>
                    match extract_entries h s (set_fs fs1 st) files destPath 0
                            totalSize extractID with
                    | (st, _, Some e) =>
                        let '(st, e) := fail st extractID e in (st, extractID, e)
                    | (st, _, None) =>
                        let st :=
                          set_progressStore
                            (updateProgressCompleted (progressStore st) extractID) st in
                        let relPath :=
                          match GetRelativePath (Getwd h) (basePath s) destPath with
                          | Ok rel => rel
                          | Err _ => []
                          end in
                        (st, extractID ++ ":" ++ relPath, None)
                    end
                end
            end
        end
  end.

(** ** internal/utils/fileutils.go and the compress service *)

(** [info.Size()] of a file; directories count for nothing where the
    sources use it. *)
Definition node_size (n : node) : Z :=
  match n with
  | NFile data => Z.of_nat (length data)
  | NDir => 0
  end.

(** [GetDirectorySize]: the sizes of the files [filepath.Walk] visits. *)
Definition GetDirectorySize (h : host) (f : os.filesystem) (path : gostring) : Z :=
  fold_left
    (fun size visit =>
       match visit.2 with
       | NDir => size
       | NFile _ => add64 size (node_size visit.2)
       end)
    (Walk h f path) 0.

(** The copy loop of [addFileToZip]: the entry's bytes go to the archive
    writer, the shared counter and the progress record advance. *)
Fixpoint compress_copy (ps : gmap gostring Progress) (progressID : gostring)
    (compressedBytes totalSize : Z) (bufs : list (list byte))
  : gmap gostring Progress * Z * option error :=
  match bufs with
  | [] => (ps, compressedBytes, None)
  | buf :: rest =>
      let newVal := add64 compressedBytes (Z.of_nat (length buf)) in
      match bump_progress ps progressID newVal totalSize with
      | inl p => (ps, newVal, Some (Panic p))
      | inr ps => compress_copy ps progressID newVal totalSize rest
      end
  end.

(** The archive under construction, with the shared byte counter and the
    progress store: what [addFileToZip] and [addDirectoryToZip] change. *)
Record archive : Type := mkArchive {
  entries : list ZipFile;
  compressedBytes : Z;
  store : gmap gostring Progress
}.

(** [addFileToZip]. *)
Definition addFileToZip (f : os.filesystem) (a : archive)
    (filePath zipPath : gostring) (totalSize : Z) (progressID : gostring)
  : archive * option error :=
  match os.ReadFile f filePath with
  | Err e => (a, Some e)
  | Ok data =>
      let entry := mkZipFile zipPath false (Z.of_nat (length data)) (Ok data) in
      let '(ps, n, err) :=
        compress_copy (store a) progressID (compressedBytes a) totalSize
          (buffers DefaultBufferSize data) in
      (mkArchive (entries a ++ [entry]) n ps, err)
  end.

(** The callback [addDirectoryToZip] gives to [filepath.Walk], run over the
    visits in order until one returns an error. *)
Fixpoint walk_entries (f : os.filesystem) (a : archive)
    (dirPath zipPath : gostring) (totalSize : Z) (progressID : gostring)
    (visits : list (gostring * node)) : archive * option error :=
  match visits with
  | [] => (a, None)
  | (path, info) :: rest =>
      match filepath.Rel dirPath path with
      | Err e => (a, Some e)
      | Ok relPath =>
          let entryPath := filepath.Join [zipPath; relPath] in
          match info with
          | NDir =>
              let entry := mkZipFile (entryPath ++ "/") false 0 (Ok []) in
              walk_entries f (mkArchive (entries a ++ [entry]) (compressedBytes a) (store a))
                dirPath zipPath totalSize progressID rest
          | NFile _ =>
              match addFileToZip f a path entryPath totalSize progressID with
              | (a, Some e) => (a, Some e)
              | (a, None) => walk_entries f a dirPath zipPath totalSize progressID rest
              end
          end
      end
  end.

(** [addDirectoryToZip]. *)
Definition addDirectoryToZip (h : host) (f : os.filesystem) (a : archive)
    (dirPath zipPath : gostring) (totalSize : Z) (progressID : gostring)
  : archive * option error :=
  walk_entries f a dirPath zipPath totalSize progressID (Walk h f dirPath).

(** The first loop of [Compress]: the inputs that resolve and exist, and
    the sum of their sizes.  An input that does not resolve or does not
    exist is passed over ([continue]). *)
Fixpoint valid_inputs (h : host) (s : service) (f : os.filesystem)
    (paths : list gostring) (validPaths : list gostring) (totalSize : Z)
  : list gostring * Z :=
  match paths with
  | [] => (validPaths, totalSize)
  | p :: rest =>
      match ValidatePath (Getwd h) (basePath s) p with
      | Err _ => valid_inputs h s f rest validPaths totalSize
      | Ok fullPath =>
          if negb (PathExists f fullPath)
          then valid_inputs h s f rest validPaths totalSize
          else
            let size :=
              if IsDir f fullPath then GetDirectorySize h f fullPath
              else match os.Stat f fullPath with
                   | Ok n => node_size n
                   | Err _ => 0
                   end in
            valid_inputs h s f rest (validPaths ++ [fullPath]) (add64 totalSize size)
      end
  end.

(** The second loop of [Compress]: every valid input is added to the
    archive; the first failure ends the loop. *)
Fixpoint add_inputs (h : host) (f : os.filesystem) (a : archive)
    (validPaths : list gostring) (totalSize : Z) (compressID : gostring)
  : archive * option error :=
  match validPaths with
  | [] => (a, None)
  | fullPath :: rest =>
      match (if IsDir f fullPath
             then addDirectoryToZip h f a fullPath (filepath.Base fullPath)
                    totalSize compressID
             else addFileToZip f a fullPath (filepath.Base fullPath)
                    totalSize compressID) with
      | (a, Some e) => (a, Some e)
      | (a, None) => add_inputs h f a rest totalSize compressID
      end
  end.

(** [Compress]; [compressID] is the identifier [uuid.New] draws.  The
    archive file is created empty before the inputs are read and holds the
    bytes of the written entries once the deferred [Close] calls have run;
    the compression level is not used by the source. *)
Definition Compress (h : host) (s : service) (st : state)
    (compressID : gostring) (paths : list gostring) (output : gostring)
    (compressionLevel : Z) : state * gostring * option error :=
  match ValidatePath (Getwd h) (basePath s) output with
  | Err e => (st, [], Some e)
  | Ok outputPath =>
      match os.MkdirAll (fs st) (filepath.Dir outputPath) with
      | Err e => (st, [], Some e)
      | Ok fs1 =>
          let st := set_fs fs1 st in
          match (if PathExists fs1 outputPath
                 then GenerateUniqueName fs1 outputPath else Some outputPath) with
          | None => (st, [], Some NoReturn)
          | Some outputPath =>
              let '(validPaths, totalSize) := valid_inputs h s fs1 paths [] 0 in
              if decide (length validPaths = 0%nat) then (st, [], Some ErrNotFound)
              else
                let st :=
                  set_progressStore
                    (ProgressStore.Set_ (progressStore st) compressID
                       (mkProgress compressID (filepath.Base outputPath) 0 0
                          totalSize StatusProcessing []))
                    st in
                match os.Create fs1 outputPath with
                | Err e => let '(st, e) := fail st compressID e in (st, compressID, e)
                | Ok fs2 =>
                    let '(a, err) :=
                      add_inputs h fs2 (mkArchive [] 0 (progressStore st))
                        validPaths totalSize compressID in
                    let fs3 := os.Write fs2 outputPath (zip_bytes h (entries a)) in
                    let st := mkState fs3 (store a) (chunkStore st) in
                    match err with
                    | Some e => let '(st, e) := fail st compressID e in (st, compressID, e)
                    | None =>
                        let _ := setOwner h s outputPath in
                        let st :=
                          set_progressStore
                            (updateProgressCompleted (progressStore st) compressID) st in
                        let relPath :=
                          match GetRelativePath (Getwd h) (basePath s) outputPath with
                          | Ok rel => rel
                          | Err _ => []
                          end in
                        (st, compressID ++ ":" ++ relPath, None)
                    end
                end
          end
      end
  end.

(** The number of received chunks of a session, and the transferred-byte
    count [UploadChunk] reports for it:
    [min(receivedCount * chunkSize, totalSize)]. *)
Definition received (c : ChunkUpload.t) : Z :=
  Z.of_nat (size (ChunkUpload.Chunks c)).

Definition reported (c : ChunkUpload.t) : Z :=
  let uploadedBytes := mul64 (received c) (ChunkUpload.ChunkSize c) in
  if ChunkUpload.TotalSize c <? uploadedBytes then ChunkUpload.TotalSize c
  else uploadedBytes.

(** A host for examples: no working directory is needed, scratch files go
    under [/tmp], archives are not decoded, and [chown] succeeds. *)
Definition sample_host : host :=
  mkHost None "/tmp" (fun _ _ => []) (fun _ => Err ErrZip) (fun _ => []) (fun _ _ => None).

Definition sample_service : service := mkService "/home/alice" "".

(** A state with one pending session [s1] of three chunks, of which chunk 0
    has arrived. *)
Definition sample_session : ChunkUpload.t :=
  ChunkUpload.mk "s1" "a.bin" "/home/alice" 3 1 3 {[ 0 := true ]}
    "/tmp/filemanager-chunks/s1".

Definition sample_state : state :=
  mkState
    (list_to_map
       [("/tmp" : gostring, NDir);
        ("/tmp/filemanager-chunks" : gostring, NDir);
        ("/tmp/filemanager-chunks/s1" : gostring, NDir);
        ("/tmp/filemanager-chunks/s1/0" : gostring, NFile [x61]);
        ("/home" : gostring, NDir);
        ("/home/alice" : gostring, NDir)])
    (<[("s1" : gostring) := mkProgress "s1" "a.bin" 33 1 3 StatusPending ""]> ∅)
    (<[("s1" : gostring) := sample_session]> ∅).

(** The bytes of a path after its last separator. *)
Definition last_elem (s : gostring) : gostring :=
  rev (filepath.take_to_sep (rev s)).

(** A home directory that already holds [report.txt] and [report_1.txt]. *)
Definition sample_home : gmap gostring node :=
  list_to_map
    [("/home" : gostring, NDir);
     ("/home/alice" : gostring, NDir);
     ("/home/alice/report.txt" : gostring, NFile [x6f; x6c; x64]);
     ("/home/alice/report_1.txt" : gostring, NFile [x6f; x6c; x64])].

(** An archive entry escapes the destination when its joined path does not
    pass the test of [extractFile]. *)
Definition escapes_destination (destPath : gostring) (f : ZipFile) : bool :=
  negb (HasPrefix (filepath.Join [destPath; Name f])
          (filepath.Clean destPath ++ [sep])).

(** A file system with an archive [in.zip] and a destination [out] that
    already holds [report.txt]; hosts that decode the archive to one entry
    [report.txt], and to a harmless entry followed by a traversal entry. *)
Definition sample_tree : gmap gostring node :=
  list_to_map
    [("/home" : gostring, NDir);
     ("/home/alice" : gostring, NDir);
     ("/home/alice/in.zip" : gostring, NFile []);
     ("/home/alice/out" : gostring, NDir);
     ("/home/alice/out/report.txt" : gostring, NFile [x6f; x6c; x64])].

Definition sample_archive_state : state := mkState sample_tree ∅ ∅.

Definition host_with_archive (files : list ZipFile) : host :=
  mkHost None "/tmp" (fun _ _ => []) (fun _ => Ok files) (fun _ => [])
    (fun _ _ => None).

Definition report_entry : ZipFile :=
  mkZipFile "report.txt" false 3 (Ok [x6e; x65; x77]).

Definition good_entry : ZipFile :=
  mkZipFile "good.txt" false 2 (Ok [x6f; x6b]).

Definition evil_entry : ZipFile :=
  mkZipFile "../../evil" false 1 (Ok [x78]).

(** At the path [q] nothing changed between [f] and [f'], except that a
    directory may have been created where there was nothing. *)
Definition files_kept (f f' : gmap gostring node) (q : gostring) : Prop :=
  f' !! q = f !! q \/ (f !! q = None /\ f' !! q = Some NDir).

(** What the first loop of [Compress] makes of one input: its resolved
    path when it resolves and exists, nothing otherwise. *)
Definition resolve_input (h : host) (s : service) (f : os.filesystem)
    (p : gostring) : option gostring :=
  match ValidatePath (Getwd h) (basePath s) p with
  | Ok fullPath => if PathExists f fullPath then Some fullPath else None
  | Err _ => None
  end.

(** A file system with two files to compress, and a host whose zip writer
    records how many entries it was given. *)
Definition sample_docs : gmap gostring node :=
  list_to_map
    [("/home" : gostring, NDir);
     ("/home/alice" : gostring, NDir);
     ("/home/alice/a.txt" : gostring, NFile [x61]);
     ("/home/alice/b.txt" : gostring, NFile [x62; x62])].

Definition sample_docs_state : state := mkState sample_docs ∅ ∅.

Definition counting_host : host :=
  mkHost None "/tmp" (fun _ _ => []) (fun _ => Err ErrZip)
    (fun entries => replicate (length entries) x2a) (fun _ _ => None).

(** A sequence of [UploadChunk] calls on one session, stopping at the first
    call that returns an error. *)
Fixpoint UploadChunks (h : host) (s : service) (st : state) (uploadID : gostring)
    (chunks : list (Z * list byte)) : state * option error :=
  match chunks with
  | [] => (st, None)
  | (chunkIndex, data) :: rest =>
      match UploadChunk h s st uploadID chunkIndex data with
      | (st, None) => UploadChunks h s st uploadID rest
      | (st, Some e) => (st, Some e)
      end
  end.

(** The file [a.bin] of [n] bytes, byte [i] being [i mod 256], cut into
    chunks of one byte. *)
Definition byte_of_Z (z : Z) : byte :=
  match Byte.of_N (Z.to_N (z mod 256)) with
  | Some b => b
  | None => x00
  end.

Definition one_byte_chunks (n : Z) : list (Z * list byte) :=
  map (fun i => (i, [byte_of_Z i])) (upto n).

(** The home directory before an upload. *)
Definition empty_home : state :=
  mkState
    (list_to_map
       [("/tmp" : gostring, NDir); ("/home" : gostring, NDir);
        ("/home/alice" : gostring, NDir)])
    ∅ ∅.

(** Initialising a session for [a.bin] and submitting all its one-byte
    chunks in ascending order. *)
Definition upload_in_chunks (n : Z) : state * option error :=
  match InitChunkedUpload sample_host sample_service empty_home "u1" "a.bin" "" n 1 with
  | (st, Ok _) => UploadChunks sample_host sample_service st "u1" (one_byte_chunks n)
  | (st, Err e) => (st, Some e)
  end.

(** The first chunk index whose rune is a surrogate code point, and the
    first one after the surrogates. *)
Definition first_surrogate_index : Z := 55296 - 48.
Definition after_surrogates_index : Z := 57344 - 48.

(** The bytes of the file at a path; nothing when there is no file. *)
Definition content (f : os.filesystem) (path : gostring) : list byte :=
  match f !! path with
  | Some (NFile data) => data
  | _ => []
  end.

(** Reads a chunk index back from a scratch-file name of one, two or three
    bytes. *)
Definition index_of_name (name : gostring) : Z :=
  match map (fun c => Z.of_N (N_of_ascii c)) name with
  | [b0] => b0 - 48
  | [b0; b1] => (b0 - 192) * 64 + (b1 - 128) - 48
  | [b0; b1; b2] => (b0 - 224) * 4096 + (b1 - 128) * 64 + (b2 - 128) - 48
  | _ => -1
  end.

(** The boolean form of [plain]. *)
Definition plainb (e : gostring) : bool :=
  bool_decide (e <> []) && bool_decide (e <> [dot])
  && bool_decide (e <> filepath.dotdot) && forallb (fun c => negb (is_sep c)) e.

(** The file system after the chunks [d i], for [i] in [order], have been
    written to their scratch files under [tempDir]. *)
Definition scratch (tempDir : gostring) (d : Z -> list byte) (order : list Z)
    (f : os.filesystem) : os.filesystem :=
  fold_left (fun f i => <[chunkPath tempDir i := NFile (d i)]> f) order f.

(** A session of 55250 one-byte chunks in which the chunks 55248 and 55249
    have been submitted, in this order. *)
Definition large_session : state * result ChunkUpload.t :=
  InitChunkedUpload sample_host sample_service empty_home "u1" "a.bin" "" 55250 1.

Definition colliding_uploads : state * option error :=
  UploadChunks sample_host sample_service large_session.1 "u1"
    [(55248, [byte_of_Z 55248]); (55249, [byte_of_Z 55249])].

(** A scratch directory is a cleaned absolute path other than the root. *)
Definition scratch_dir (t : gostring) : Prop :=
  exists bs, t = sep :: join bs /\ Forall plain bs /\ bs <> [].

(** The indices [start], [start + 1], ... ([len] of them), counted up
    without converting each one from a unary number. *)
Fixpoint indices_from (start : Z) (len : nat) : list Z :=
  match len with
  | O => []
  | S k => start :: indices_from (start + 1) k
  end.

(** Nothing exists below the directory [t]. *)
Definition nothing_below (f : os.filesystem) (t : gostring) : Prop :=
  map_Forall (fun p _ => HasPrefix p (t ++ [sep]) = false) f.

(** A session of three chunks for [a.bin] that has just been initialised
    in the empty home directory. *)
Definition fresh_session : state * result ChunkUpload.t :=
  InitChunkedUpload sample_host sample_service empty_home "u1" "a.bin" "" 3 1.

Definition fresh_chunk : ChunkUpload.t :=
  ChunkUpload.mk "u1" "a.bin" "/home/alice" 3 1 3 ∅ "/tmp/filemanager-chunks/u1".

(** The session [s1] of [sample_state] after a chunk with the index 7 has
    been submitted: two of its three chunks are counted. *)
Definition out_of_range_state : state :=
  (UploadChunk sample_host sample_service sample_state "s1" 7 [x62]).1.

Definition out_of_range_session : ChunkUpload.t :=
  ChunkUpload.set_Chunks {[ 0 := true; 7 := true ]} sample_session.

(** A session for an empty file: its number of chunks is zero. *)
Definition empty_file_session : state * result ChunkUpload.t :=
  InitChunkedUpload sample_host sample_service empty_home "u1" "a.bin" "" 0 1.

Definition empty_file_chunk : ChunkUpload.t :=
  ChunkUpload.mk "u1" "a.bin" "/home/alice" 0 1 0 ∅ "/tmp/filemanager-chunks/u1".

(** ** internal/utils: file utilities *)

(** The panics of the code below. *)
Inductive fault : Type :=
  | IndexOutOfRange             (* runtime error: index out of range *)
  | SliceBoundsOutOfRange.      (* runtime error: slice bounds out of range *)

(** [mode&(1<<bit) != 0] for an [os.FileMode]. *)
Definition mode_bit (mode bit : Z) : bool :=
  negb (Z.land mode (Z.shiftl 1 bit) =? 0).

(** [FormatPermissions]: the loop runs over [i = 0, 1, 2] with
    [shift := uint(6 - i*3)]. *)
Definition FormatPermissions (mode : Z) : gostring :=
  concat
    (map (fun i =>
            let shift := 6 - i * 3 in
            [ if mode_bit mode (shift + 2) then "r"%char else "-"%char;
              if mode_bit mode (shift + 1) then "w"%char else "-"%char;
              if mode_bit mode shift then "x"%char else "-"%char ])
         (upto 3)).

Section FormatFileSize.

(** [fmt.Sprintf("%.1f", float64(a)/float64(b))]: the decimal text of a
    floating-point quotient is left to the host. *)
Variable Sprintf_1f : Z -> Z -> gostring.

(** The loop [for n := bytes / unit; n >= unit; n /= unit { div *= unit; exp++ }]
    started with [n], [div] and [exp]; [fuel] bounds the number of rounds. *)
Fixpoint unit_loop (fuel : nat) (n div exp : Z) : option (Z * Z) :=
  if 1024 <=? n then
    match fuel with
    | O => None
    | S k => unit_loop k (Z.quot n 1024) (mul64 div 1024) (exp + 1)
    end
  else Some (div, exp).

(** [FormatFileSize]; [None] stands for a loop that has not ended after 64
    rounds. *)
Definition FormatFileSize (bytes : Z) : option (fault + gostring) :=
  if bytes <? 1024 then Some (inr (itoa bytes ++ " B"))
  else
    match unit_loop 64 (Z.quot bytes 1024) 1024 0 with
    | None => None
    | Some (div, exp) =>
        match (if exp <? 0 then None
               else nth_error ("KMGTPE" : gostring) (Z.to_nat exp)) with
        | None => Some (inl IndexOutOfRange)
        | Some u => Some (inr (Sprintf_1f bytes div ++ " " ++ [u] ++ "B"))
        end
    end.

End FormatFileSize.

(** A stand-in for the host's [%.1f]: the quotient cut after one decimal. *)
Definition truncated_1f (a b : Z) : gostring :=
  itoa (a * 10 / b / 10) ++ "." ++ itoa (a * 10 / b mod 10).

(** ** [strings]: splitting and trimming *)

(** [strings.Split s sep] for a separator of one byte. *)
Fixpoint Split (s : gostring) (c : ascii) : list gostring :=
  match s with
  | [] => [[]]
  | b :: r =>
      if Ascii.eqb b c then [] :: Split r c
      else match Split r c with
           | e :: es => (b :: e) :: es
           | [] => [[b]]
           end
  end.

(** The UTF-8 encodings of the code points with [unicode.IsSpace]: the
    ASCII ones, U+0085, U+00A0, U+1680, U+2000 to U+200A, U+2028, U+2029,
    U+202F, U+205F and U+3000. *)
Definition space_encodings : list gostring :=
  [ ["009"]; ["010"]; ["011"]; ["012"]; ["013"]; ["032"];
    ["194"; "133"]; ["194"; "160"];
    ["225"; "154"; "128"];
    ["226"; "128"; "128"]; ["226"; "128"; "129"]; ["226"; "128"; "130"];
    ["226"; "128"; "131"]; ["226"; "128"; "132"]; ["226"; "128"; "133"];
    ["226"; "128"; "134"]; ["226"; "128"; "135"]; ["226"; "128"; "136"];
    ["226"; "128"; "137"]; ["226"; "128"; "138"];
    ["226"; "128"; "168"]; ["226"; "128"; "169"]; ["226"; "128"; "175"];
    ["226"; "129"; "159"];
    ["227"; "128"; "128"] ]%char.

(** The rest of [s] after a leading white-space code point, if it has one. *)
Definition strip_space_left (s : gostring) : option gostring :=
  match filter (fun sp => HasPrefix s sp = true) space_encodings with
  | sp :: _ => Some (drop (length sp) s)
  | [] => None
  end.

(** [s] without a trailing white-space code point, if it has one. *)
Definition strip_space_right (s : gostring) : option gostring :=
  match filter (fun sp => HasSuffix s sp = true) space_encodings with
  | sp :: _ => Some (take (length s - length sp)%nat s)
  | [] => None
  end.

Fixpoint trim_left (fuel : nat) (s : gostring) : gostring :=
  match fuel with
  | O => s
  | S k => match strip_space_left s with
           | Some r => trim_left k r
           | None => s
           end
  end.

Fixpoint trim_right (fuel : nat) (s : gostring) : gostring :=
  match fuel with
  | O => s
  | S k => match strip_space_right s with
           | Some r => trim_right k r
           | None => s
           end
  end.

(** [strings.TrimSpace]: the leading white space goes first, then the
    trailing one; a byte that is not part of a valid encoding of a
    white-space code point stops either. *)
Definition TrimSpace (s : gostring) : gostring :=
  let l := trim_left (length s) s in trim_right (length l) l.

(** ** internal/handlers: the upload handler *)

(** The double quote. *)
Definition quote : ascii := "034"%char.

(** The loop of [parseBoundary] over the parts of the header. *)
Fixpoint parseBoundary_parts (parts : list gostring) : fault + option gostring :=
  match parts with
  | [] => inr None
  | part :: rest =>
      let part := TrimSpace part in
      if HasPrefix part "boundary=" then
        let boundary := TrimPrefix part "boundary=" in
        match boundary, last boundary with
        | first :: _, Some final =>
            if Ascii.eqb first quote && Ascii.eqb final quote then
              if (1 <=? length boundary - 1)%nat
              then inr (Some (take (length boundary - 1 - 1) (drop 1 boundary)))
              else inl SliceBoundsOutOfRange
            else inr (Some boundary)
        | _, _ => inl IndexOutOfRange
        end
      else parseBoundary_parts rest
  end.

(** [parseBoundary]: the boundary, [None] for the error "boundary not found
    in Content-Type", or a panic. *)
Definition parseBoundary (contentType : gostring) : fault + option gostring :=
  parseBoundary_parts (Split contentType ";").

(** A byte that is printable ASCII and not a blank. *)
Definition graphic (c : ascii) : bool :=
  (33 <=? nat_of_ascii c)%nat && (nat_of_ascii c <=? 126)%nat.

(** ** [strings]: searching, lower case and fields *)

(** [strings.Contains]. *)
Fixpoint Contains (s substr : gostring) : bool :=
  HasPrefix s substr ||
  match s with
  | [] => false
  | _ :: r => Contains r substr
  end.

Definition isASCII (s : gostring) : bool :=
  forallb (fun c => (nat_of_ascii c <? 128)%nat) s.

(** The lower-case form of a byte between ['A'] and ['Z']. *)
Definition lower_byte (c : ascii) : ascii :=
  if (65 <=? nat_of_ascii c)%nat && (nat_of_ascii c <=? 90)%nat
  then ascii_of_nat (nat_of_ascii c + 32) else c.

(** The loop of [strings.Fields]: a white-space code point ends the field
    that is being read ([cur], backwards); empty fields are dropped.  A
    white-space encoding always begins where a code point begins, so the
    text is read byte by byte. *)
Fixpoint fields_loop (fuel : nat) (cur : gostring) (s : gostring) : list gostring :=
  let flush := if decide (cur = []) then [] else [rev cur] in
  match fuel, s with
  | _, [] => flush
  | O, _ => flush
  | S k, c :: r =>
      match strip_space_left s with
      | Some rest => flush ++ fields_loop k [] rest
      | None => fields_loop k (c :: cur) r
      end
  end.

(** [strings.Fields]. *)
Definition Fields (s : gostring) : list gostring := fields_loop (length s) [] s.

(** ** internal/services: raw shell commands *)

Section RawCommand.

(** [strings.Map(unicode.ToLower, s)], which [strings.ToLower] calls for a
    text with a byte outside ASCII, is left to the host. *)
Variable unicode_ToLower : gostring -> gostring.

(** [strings.ToLower]. *)
Definition ToLower (s : gostring) : gostring :=
  if isASCII s then map lower_byte s else unicode_ToLower s.

(** The state of the machine the commands run on, and [bash -c]: the new
    state, the two output streams, and how [cmd.Run] ended. *)
Variable world : Type.

Inductive run_end : Type :=
  | RunOk                         (* err == nil *)
  | ExitError (code : Z)          (* *exec.ExitError *)
  | RunFailed.                    (* any other error *)

Variable bash : world -> gostring -> world * (gostring * gostring * run_end).

(** [CommandResult]. *)
Record CommandResult : Type := mkCommandResult {
  Command : gostring;
  Output : gostring;
  Error_ : gostring;            (* Error *)
  ExitCode : Z
}.

(** The errors of [validateCommand]. *)
Inductive command_error : Type :=
  | DangerousPattern (pattern : gostring)
      (* "command contains dangerous pattern: %s" *)
  | TraversalNotAllowed
      (* "path traversal not allowed" *)
  | OutsideAllowed (part : gostring).
      (* "absolute path outside allowed directory: %s" *)

Definition dangerousPatterns : list gostring :=
  [ "rm -rf /" : gostring; "rm -rf /*" : gostring; "mkfs" : gostring;
    "dd if=" : gostring; "> /dev/" : gostring; "chmod 777 /" : gostring;
    "chown root" : gostring ].

Definition fileOps : list gostring :=
  [ "cp " : gostring; "mv " : gostring; "rm " : gostring; "cat " : gostring;
    "touch " : gostring; "mkdir " : gostring; "rmdir " : gostring ].

(** The loop over [dangerousPatterns]. *)
Fixpoint check_patterns (lowerCmd : gostring) (patterns : list gostring)
  : option command_error :=
  match patterns with
  | [] => None
  | pattern :: rest =>
      if Contains lowerCmd (ToLower pattern) then Some (DangerousPattern pattern)
      else check_patterns lowerCmd rest
  end.

(** The loop over the fields of the command. *)
Fixpoint check_parts (base : gostring) (parts : list gostring)
  : option command_error :=
  match parts with
  | [] => None
  | part :: rest =>
      if HasPrefix part "/" && negb (HasPrefix part base)
      then Some (OutsideAllowed part)
      else check_parts base rest
  end.

(** The loop over [fileOps]. *)
Fixpoint check_ops (base command : gostring) (ops : list gostring)
  : option command_error :=
  match ops with
  | [] => None
  | op :: rest =>
      if Contains command op then
        match check_parts base (Fields command) with
        | Some e => Some e
        | None => check_ops base command rest
        end
      else check_ops base command rest
  end.

(** [validateCommand]; [None] is the [nil] error. *)
Definition validateCommand (s : service) (command : gostring)
  : option command_error :=
  match check_patterns (ToLower command) dangerousPatterns with
  | Some e => Some e
  | None =>
      if decide (basePath s <> [])
      then if Contains command "../" then Some TraversalNotAllowed
           else check_ops (basePath s) command fileOps
      else None
  end.

(** [err.Error()] for the errors of [validateCommand]. *)
Definition command_error_text (e : command_error) : gostring :=
  match e with
  | DangerousPattern pattern => "command contains dangerous pattern: " ++ pattern
  | TraversalNotAllowed => "path traversal not allowed"
  | OutsideAllowed part => "absolute path outside allowed directory: " ++ part
  end.

(** The text [executeCommand] hands to [bash -c]. *)
Definition shellCmd (s : service) (command : gostring) : gostring :=
  if decide (owner s <> [])
  then "cd " ++ basePath s ++ " && " ++ command
  else command.

(** [executeCommand]. *)
Definition executeCommand (s : service) (w : world) (command : gostring)
  : world * CommandResult :=
  match validateCommand s command with
  | Some e => (w, mkCommandResult command [] (command_error_text e) 1)
  | None =>
      let '(w', (stdout, stderr, e)) := bash w (shellCmd s command) in
      (w',
       match e with
       | RunOk => mkCommandResult command (TrimSpace stdout) [] 0
       | ExitError code => mkCommandResult command (TrimSpace stdout) (TrimSpace stderr) code
       | RunFailed => mkCommandResult command (TrimSpace stdout) (TrimSpace stderr) 1
       end)
  end.

(** [ExecuteCommands]; its error is always [nil]. *)
Fixpoint ExecuteCommands (s : service) (w : world) (commands : list gostring)
  : world * list CommandResult :=
  match commands with
  | [] => (w, [])
  | cmd :: rest =>
      let '(w1, result) := executeCommand s w cmd in
      let '(w2, results) := ExecuteCommands s w1 rest in
      (w2, result :: results)
  end.

End RawCommand.

(** ** internal/utils: copying a file *)

(** [CopyFile]; the wrapped error stands for the error of the function.
    The source is read after the destination has been created and cut to
    length zero.  Modes and times are not part of the file system here, so
    [preserveMetadata] changes nothing. *)
Definition CopyFile (f : os.filesystem) (src dst : gostring)
    (preserveMetadata : bool) : os.filesystem * option error :=
  match os.Stat f src with
  | Err e => (f, Some e)
  | Ok _ =>
      match os.MkdirAll f (filepath.Dir dst) with
      | Err e => (f, Some e)
      | Ok f1 =>
          match os.Create f1 dst with
          | Err e => (f1, Some e)
          | Ok f2 =>
              match os.ReadFile f2 src with
              | Err e => (f2, Some e)
              | Ok data => (os.Write f2 dst data, None)
              end
          end
      end
  end.

(** A directory with two files. *)
Definition sample_docs_fs : os.filesystem :=
  list_to_map
    [("/home" : gostring, NDir);
     ("/home/alice" : gostring, NDir);
     ("/home/alice/a.txt" : gostring, NFile [x68; x69]);
     ("/home/alice/b.txt" : gostring, NFile [x79; x6f])].

(** ** internal/services: the file manager, for a local service *)

(** The errors of the file manager: the ones of the path utilities and of
    the operating system so far, the ones the service declares, and three
    more of the operating system. *)
Inductive fm_error : Type :=
  | Sys (e : error)
  | ErrAlreadyExists            (* services.ErrAlreadyExists *)
  | ErrNotAFile                 (* services.ErrNotAFile *)
  | ErrNotAFolder               (* services.ErrNotAFolder *)
  | ErrFolderNotEmpty           (* services.ErrFolderNotEmpty *)
  | ENOTEMPTY                   (* directory not empty *)
  | EINVAL                      (* invalid argument *)
  | EBUSY.                      (* device or resource busy *)

Inductive fm_result (A : Type) : Type :=
  | FmOk (a : A)
  | FmErr (e : fm_error).
Arguments FmOk {A} a.
Arguments FmErr {A} e.

(** The entries of a directory, in no particular order: the paths whose
    parent it is. *)
Definition dir_entries (f : os.filesystem) (name : gostring)
  : list (gostring * node) :=
  map_to_list (filter (fun kv => filepath.Dir kv.1 = name /\ kv.1 <> name) f).

(** [strings.Compare a b <= 0]: the order of the bytes. *)
Fixpoint name_le (a b : gostring) : bool :=
  match a, b with
  | [], _ => true
  | _ :: _, [] => false
  | x :: a', y :: b' =>
      if (nat_of_ascii x <? nat_of_ascii y)%nat then true
      else if (nat_of_ascii y <? nat_of_ascii x)%nat then false
      else name_le a' b'
  end.

(** Sorting the entries of a directory by their names. *)
Fixpoint insert_entry (e : gostring * node) (l : list (gostring * node))
  : list (gostring * node) :=
  match l with
  | [] => [e]
  | e' :: rest =>
      if name_le (filepath.Base e.1) (filepath.Base e'.1) then e :: l
      else e' :: insert_entry e rest
  end.

Definition sort_entries (l : list (gostring * node)) : list (gostring * node) :=
  foldr insert_entry [] l.

(** [os.ReadDir]: the entries, each with its path, sorted by name. *)
Definition os_ReadDir (f : os.filesystem) (name : gostring)
  : result (list (gostring * node)) :=
  match os.Stat f name with
  | Ok NDir => Ok (sort_entries (dir_entries f name))
  | Ok (NFile _) => Err ENOTDIR
  | Err e => Err e
  end.

(** [os.Remove]: a file or an empty directory. *)
Definition os_Remove (f : os.filesystem) (name : gostring)
  : fm_result os.filesystem :=
  if decide (name = [sep]) then FmErr EBUSY
  else
    match f !! name with
    | None => FmErr (Sys ENOENT)
    | Some (NFile _) => FmOk (delete name f)
    | Some NDir =>
        if decide (dir_entries f name = []) then FmOk (delete name f)
        else FmErr ENOTEMPTY
    end.

(** What is at [oldpath] or below it goes to [newpath]. *)
Definition move_tree (f : os.filesystem) (oldpath newpath : gostring)
  : os.filesystem :=
  let moved kv := kv.1 = oldpath \/ HasPrefix kv.1 (oldpath ++ [sep]) = true in
  list_to_map
    (map (fun kv => (newpath ++ drop (length oldpath) kv.1, kv.2))
       (map_to_list (filter moved f)))
  ∪ filter (fun kv => ~ moved kv) f.

(** [os.Rename]. *)
Definition os_Rename (f : os.filesystem) (oldpath newpath : gostring)
  : fm_result os.filesystem :=
  if decide (oldpath = [sep] \/ newpath = [sep]) then FmErr EBUSY
  else
    match f !! oldpath with
    | None => FmErr (Sys ENOENT)
    | Some n =>
        if decide (oldpath = newpath) then FmOk f
        else
          match os.Stat f (filepath.Dir newpath) with
          | Err e => FmErr (Sys e)
          | Ok (NFile _) => FmErr (Sys ENOTDIR)
          | Ok NDir =>
              match n, f !! newpath with
              | NFile _, Some NDir => FmErr (Sys EISDIR)
              | NDir, Some (NFile _) => FmErr (Sys ENOTDIR)
              | NDir, Some NDir =>
                  if decide (dir_entries f newpath = [])
                  then FmOk (move_tree (delete newpath f) oldpath newpath)
                  else FmErr ENOTEMPTY
              | NDir, None =>
                  if HasPrefix newpath (oldpath ++ [sep]) then FmErr EINVAL
                  else FmOk (move_tree f oldpath newpath)
              | NFile _, _ => FmOk (move_tree f oldpath newpath)
              end
          end
    end.

Module FileInfo.

(** [models.FileInfo], without the fields that come from the mode, the
    time and the MIME table of the host. *)
Record t : Type := mk {
  Name : gostring;
  Path : gostring;
  Size : Z;
  IsDir : bool;
  Extension : gostring
}.

End FileInfo.

(** [getInfoLocal]. *)
Definition getInfoLocal (h : host) (s : service) (f : os.filesystem)
    (fullPath : gostring) : fm_result FileInfo.t :=
  match os.Stat f fullPath with
  | Err ENOENT => FmErr (Sys ErrNotFound)
  | Err e => FmErr (Sys e)
  | Ok n =>
      let relPath :=
        match GetRelativePath (Getwd h) (basePath s) fullPath with
        | Ok rel => rel
        | Err _ => []
        end in
      let name := filepath.Base fullPath in
      match n with
      | NFile data =>
          FmOk (FileInfo.mk name relPath (Z.of_nat (length data)) false
                  (TrimPrefix (filepath.Ext name) "."))
      | NDir =>
          FmOk (FileInfo.mk name relPath (GetDirectorySize h f fullPath) true [])
      end
  end.

(** [GetInfo]. *)
Definition GetInfo (h : host) (s : service) (f : os.filesystem)
    (relativePath : gostring) : fm_result FileInfo.t :=
  match ValidatePath (Getwd h) (basePath s) relativePath with
  | Err e => FmErr (Sys e)
  | Ok fullPath => getInfoLocal h s f fullPath
  end.

(** [GetContent]: the bytes the returned reader yields. *)
Definition GetContent (h : host) (s : service) (f : os.filesystem)
    (relativePath : gostring) : fm_result (list byte * FileInfo.t) :=
  match ValidatePath (Getwd h) (basePath s) relativePath with
  | Err e => FmErr (Sys e)
  | Ok fullPath =>
      match GetInfo h s f relativePath with
      | FmErr e => FmErr e
      | FmOk info =>
          if FileInfo.IsDir info then FmErr ErrNotAFile
          else match os.ReadFile f fullPath with
               | Err e => FmErr (Sys e)
               | Ok data => FmOk (data, info)
               end
      end
  end.

(** [createFileLocal]. *)
Definition createFileLocal (h : host) (s : service) (f : os.filesystem)
    (fullPath relativePath : gostring) (content : list byte)
  : os.filesystem * fm_result FileInfo.t :=
  if PathExists f fullPath then (f, FmErr ErrAlreadyExists)
  else
    match os.MkdirAll f (filepath.Dir fullPath) with
    | Err e => (f, FmErr (Sys e))
    | Ok f1 =>
        match os.WriteFile f1 fullPath content with
        | Err e => (f1, FmErr (Sys e))
        | Ok f2 =>
            let _ := setOwner h s fullPath in
            (f2, GetInfo h s f2 relativePath)
        end
    end.

(** [CreateFile]. *)
Definition CreateFile (h : host) (s : service) (f : os.filesystem)
    (relativePath : gostring) (content : list byte)
  : os.filesystem * fm_result FileInfo.t :=
  match ValidatePath (Getwd h) (basePath s) relativePath with
  | Err e => (f, FmErr (Sys e))
  | Ok fullPath => createFileLocal h s f fullPath relativePath content
  end.

(** [updateFileLocal]. *)
Definition updateFileLocal (h : host) (s : service) (f : os.filesystem)
    (fullPath relativePath : gostring) (content : list byte)
  : os.filesystem * fm_result FileInfo.t :=
  if negb (PathExists f fullPath) then (f, FmErr (Sys ErrNotFound))
  else if IsDir f fullPath then (f, FmErr ErrNotAFile)
  else
    match os.WriteFile f fullPath content with
    | Err e => (f, FmErr (Sys e))
    | Ok f1 =>
        let _ := setOwner h s fullPath in
        (f1, GetInfo h s f1 relativePath)
    end.

(** [UpdateFile]. *)
Definition UpdateFile (h : host) (s : service) (f : os.filesystem)
    (relativePath : gostring) (content : list byte)
  : os.filesystem * fm_result FileInfo.t :=
  match ValidatePath (Getwd h) (basePath s) relativePath with
  | Err e => (f, FmErr (Sys e))
  | Ok fullPath => updateFileLocal h s f fullPath relativePath content
  end.

(** [CreateFolder]. *)
Definition CreateFolder (h : host) (s : service) (f : os.filesystem)
    (relativePath : gostring) : os.filesystem * fm_result FileInfo.t :=
  match ValidatePath (Getwd h) (basePath s) relativePath with
  | Err e => (f, FmErr (Sys e))
  | Ok fullPath =>
      if PathExists f fullPath then (f, FmErr ErrAlreadyExists)
      else
        match os.MkdirAll f fullPath with
        | Err e => (f, FmErr (Sys e))
        | Ok f1 =>
            let _ := setOwner h s fullPath in
            (f1, GetInfo h s f1 relativePath)
        end
  end.

(** [Rename]. *)
Definition Rename (h : host) (s : service) (f : os.filesystem)
    (relativePath newName : gostring) : os.filesystem * fm_result FileInfo.t :=
  match ValidatePath (Getwd h) (basePath s) relativePath with
  | Err e => (f, FmErr (Sys e))
  | Ok fullPath =>
      let dir := filepath.Dir fullPath in
      let newPath := filepath.Join [dir; newName] in
      if negb (PathExists f fullPath) then (f, FmErr (Sys ErrNotFound))
      else if PathExists f newPath then (f, FmErr ErrAlreadyExists)
      else
        match os_Rename f fullPath newPath with
        | FmErr e => (f, FmErr e)
        | FmOk f1 =>
            let newRelPath :=
              match GetRelativePath (Getwd h) (basePath s) newPath with
              | Ok rel => rel
              | Err _ => []
              end in
            (f1, GetInfo h s f1 newRelPath)
        end
  end.

(** [deleteLocal]. *)
Definition deleteLocal (f : os.filesystem) (fullPath : gostring)
    (recursive : bool) : os.filesystem * option fm_error :=
  if negb (PathExists f fullPath) then (f, Some (Sys ErrNotFound))
  else if IsDir f fullPath then
    if negb recursive then
      match os_ReadDir f fullPath with
      | Err e => (f, Some (Sys e))
      | Ok entries =>
          if (0 <? length entries)%nat then (f, Some ErrFolderNotEmpty)
          else match os_Remove f fullPath with
               | FmOk f1 => (f1, None)
               | FmErr e => (f, Some e)
               end
      end
    else (os.RemoveAll f fullPath, None)
  else
    match os_Remove f fullPath with
    | FmOk f1 => (f1, None)
    | FmErr e => (f, Some e)
    end.

(** [Delete]. *)
Definition Delete (h : host) (s : service) (f : os.filesystem)
    (relativePath : gostring) (recursive : bool)
  : os.filesystem * option fm_error :=
  match ValidatePath (Getwd h) (basePath s) relativePath with
  | Err e => (f, Some (Sys e))
  | Ok fullPath => deleteLocal f fullPath recursive
  end.

(** The two files again, beside a scratch directory. *)
Definition sample_docs_tmp_fs : os.filesystem :=
  <[("/tmp" : gostring) := NDir]> sample_docs_fs.

(** ** Copying and moving *)

(** [CopyDir].  [fuel] bounds the depth of the recursion; [NoReturn] stands
    for a copy that has not ended when it is used up. *)
Fixpoint CopyDir (fuel : nat) (f : os.filesystem) (src dst : gostring)
    (preserveMetadata : bool) : os.filesystem * option error :=
  match fuel with
  | O => (f, Some NoReturn)
  | S k =>
      match os.Stat f src with
      | Err e => (f, Some e)
      | Ok _ =>
          match os.MkdirAll f dst with
          | Err e => (f, Some e)
          | Ok f1 =>
              match os_ReadDir f1 src with
              | Err e => (f1, Some e)
              | Ok entries =>
                  (fix loop (f : os.filesystem) (entries : list (gostring * node))
                     : os.filesystem * option error :=
                     match entries with
                     | [] => (f, None)
                     | entry :: rest =>
                         let srcPath := filepath.Join [src; filepath.Base entry.1] in
                         let dstPath := filepath.Join [dst; filepath.Base entry.1] in
                         let '(f', err) :=
                           match entry.2 with
                           | NDir => CopyDir k f srcPath dstPath preserveMetadata
                           | NFile _ => CopyFile f srcPath dstPath preserveMetadata
                           end in
                         match err with
                         | Some e => (f', Some e)
                         | None => loop f' rest
                         end
                     end) f1 entries
              end
          end
      end
  end.

(** [info, _ := s.GetInfo(relPath); if info != nil { copied = append(copied, *info) }]
    after [relPath, _ := utils.GetRelativePath(s.basePath, dstItem)]. *)
Definition append_info (h : host) (s : service) (f : os.filesystem)
    (dstItem : gostring) (items : list FileInfo.t) : list FileInfo.t :=
  let relPath :=
    match GetRelativePath (Getwd h) (basePath s) dstItem with
    | Ok rel => rel
    | Err _ => []
    end in
  match GetInfo h s f relPath with
  | FmOk info => items ++ [info]
  | FmErr _ => items
  end.

(** The destination of one source of [Copy] and [Move]:
    [filepath.Join(destPath, srcInfo.Name())], made unique when it exists
    and [overwrite] is off. *)
Definition destination_item (f : os.filesystem) (destPath srcPath : gostring)
    (overwrite : bool) : option gostring :=
  let dstItem := filepath.Join [destPath; filepath.Base srcPath] in
  if PathExists f dstItem && negb overwrite
  then GenerateUniqueName f dstItem else Some dstItem.

(** The loop of [Copy] over the sources.  A directory is copied with as
    much fuel as the file system has entries, and one more.  The owner of
    a path is not part of the file system here, so the calls that set it,
    whose errors are only logged, leave no trace. *)
Fixpoint copy_sources (h : host) (s : service) (f : os.filesystem)
    (destPath : gostring) (overwrite : bool) (sources : list gostring)
    (copied : list FileInfo.t) : os.filesystem * fm_result (list FileInfo.t) :=
  match sources with
  | [] => (f, FmOk copied)
  | src :: rest =>
      match ValidatePath (Getwd h) (basePath s) src with
      | Err e => (f, FmErr (Sys e))
      | Ok srcPath =>
          match os.Stat f srcPath with
          | Err _ => copy_sources h s f destPath overwrite rest copied
          | Ok srcInfo =>
              match destination_item f destPath srcPath overwrite with
              | None => (f, FmErr (Sys NoReturn))
              | Some dstItem =>
                  let '(f1, err) :=
                    match srcInfo with
                    | NDir => CopyDir (S (size f)) f srcPath dstItem true
                    | NFile _ => CopyFile f srcPath dstItem true
                    end in
                  match err with
                  | Some e => (f1, FmErr (Sys e))
                  | None =>
                      copy_sources h s f1 destPath overwrite rest
                        (append_info h s f1 dstItem copied)
                  end
              end
          end
      end
  end.

(** [Copy]. *)
Definition Copy (h : host) (s : service) (f : os.filesystem)
    (sources : list gostring) (destination : gostring) (overwrite : bool)
  : os.filesystem * fm_result (list FileInfo.t) :=
  match ValidatePath (Getwd h) (basePath s) destination with
  | Err e => (f, FmErr (Sys e))
  | Ok destPath =>
      match os.MkdirAll f destPath with
      | Err e => (f, FmErr (Sys e))
      | Ok f1 => copy_sources h s f1 destPath overwrite sources []
      end
  end.

(** The loop of [Move] over the sources: [os.Rename], and copying and
    removing where that fails. *)
Fixpoint move_sources (h : host) (s : service) (f : os.filesystem)
    (destPath : gostring) (overwrite : bool) (sources : list gostring)
    (moved : list FileInfo.t) : os.filesystem * fm_result (list FileInfo.t) :=
  match sources with
  | [] => (f, FmOk moved)
  | src :: rest =>
      match ValidatePath (Getwd h) (basePath s) src with
      | Err e => (f, FmErr (Sys e))
      | Ok srcPath =>
          match os.Stat f srcPath with
          | Err _ => move_sources h s f destPath overwrite rest moved
          | Ok srcInfo =>
              match destination_item f destPath srcPath overwrite with
              | None => (f, FmErr (Sys NoReturn))
              | Some dstItem =>
                  match os_Rename f srcPath dstItem with
                  | FmOk f1 =>
                      move_sources h s f1 destPath overwrite rest
                        (append_info h s f1 dstItem moved)
                  | FmErr _ =>
                      match srcInfo with
                      | NDir =>
                          match CopyDir (S (size f)) f srcPath dstItem true with
                          | (f1, Some e) => (f1, FmErr (Sys e))
                          | (f1, None) =>
                              let f2 := os.RemoveAll f1 srcPath in
                              move_sources h s f2 destPath overwrite rest
                                (append_info h s f2 dstItem moved)
                          end
                      | NFile _ =>
                          match CopyFile f srcPath dstItem true with
                          | (f1, Some e) => (f1, FmErr (Sys e))
                          | (f1, None) =>
                              let f2 :=
                                match os_Remove f1 srcPath with
                                | FmOk f2 => f2
                                | FmErr _ => f1
                                end in
                              move_sources h s f2 destPath overwrite rest
                                (append_info h s f2 dstItem moved)
                          end
                      end
                  end
              end
          end
      end
  end.

(** [Move]. *)
Definition Move (h : host) (s : service) (f : os.filesystem)
    (sources : list gostring) (destination : gostring) (overwrite : bool)
  : os.filesystem * fm_result (list FileInfo.t) :=
  match ValidatePath (Getwd h) (basePath s) destination with
  | Err e => (f, FmErr (Sys e))
  | Ok destPath =>
      match os.MkdirAll f destPath with
      | Err e => (f, FmErr (Sys e))
      | Ok f1 => move_sources h s f1 destPath overwrite sources []
      end
  end.

(** ** internal/middleware: authentication *)

(** [strings.ReplaceAll s old new] for a non-empty [old]: the matches are
    taken from left to right and do not overlap; [skip] counts the bytes
    of a match that are still to be passed over. *)
Fixpoint replace_loop (old new : gostring) (skip : nat) (s : gostring)
  : gostring :=
  match s with
  | [] => []
  | c :: r =>
      match skip with
      | S k => replace_loop old new k r
      | O =>
          if HasPrefix s old then new ++ replace_loop old new (length old - 1) r
          else c :: replace_loop old new 0 r
      end
  end.

Definition ReplaceAll (s old new : gostring) : gostring :=
  replace_loop old new 0 s.

Module Config.

(** The fields of [config.Config] the middleware reads. *)
Record t : Type := mk {
  BasePath : gostring;
  APIKey : gostring
}.

End Config.

Module SSHConfig.

Record t : Type := mk {
  Host : gostring;
  Port : gostring;
  Username : gostring;
  PrivateKey : gostring
}.

End SSHConfig.

Module UserContext.

Record t : Type := mk {
  UserSite : gostring;
  BasePath : gostring;
  SSHConfig : option SSHConfig.t;
  IsRemote : bool
}.

End UserContext.

(** How the middleware ends: with an answer of its own, of which the
    status and the error code are kept, or with the user context it stores
    before it calls the next handler. *)
Inductive auth_outcome : Type :=
  | Reject (status : Z) (code : gostring)
  | Next (user : UserContext.t).

(** [Auth]; [get] is [c.Get], which gives the empty string for a header
    that is not there. *)
Definition Auth (cfg : Config.t) (get : gostring -> gostring) : auth_outcome :=
  let apiKey := get "X-API-Key" in
  if decide (apiKey = []) then Reject 401 "AUTH_REQUIRED"
  else if decide (apiKey <> Config.APIKey cfg) then Reject 401 "INVALID_API_KEY"
  else
    let userSite := get "X-User-Site" in
    if decide (userSite = []) then Reject 400 "USERSITE_REQUIRED"
    else
      let sshHost := get "X-Ssh-Host" in
      let sshUsername := get "X-Ssh-Username" in
      let sshPort := get "X-Ssh-Port" in
      let sshKey := get "X-Ssh-Key" in
      let basePath := Config.BasePath cfg ++ "/" ++ userSite in
      if decide (sshHost <> [] /\ sshKey <> []) then
        let sshPort := if decide (sshPort = []) then "22" : gostring else sshPort in
        let sshUsername :=
          if decide (sshUsername = []) then "root" : gostring else sshUsername in
        let normalizedKey := ReplaceAll sshKey ["092"; "n"]%char ["010"]%char in
        let normalizedKey := ReplaceAll normalizedKey "%0A" ["010"]%char in
        let normalizedKey := ReplaceAll normalizedKey "%0a" ["010"]%char in
        let normalizedKey := TrimSpace normalizedKey in
        Next (UserContext.mk userSite basePath
                (Some (SSHConfig.mk sshHost sshPort sshUsername normalizedKey))
                true)
      else Next (UserContext.mk userSite basePath None false).

(** The service the handlers build from the user context:
    [NewUploadService(userCtx.BasePath, userCtx.UserSite, ...)] and the
    like. *)
Definition service_of (user : UserContext.t) : service :=
  mkService (UserContext.BasePath user) (UserContext.UserSite user).

(** A request with the configured key for the user site [../../etc], and
    the configuration of the defaults. *)
Definition default_config : Config.t := Config.mk "/home" "filemanager-secret-key".

Definition sample_request (name : gostring) : gostring :=
  if decide (name = "X-API-Key") then "filemanager-secret-key"
  else if decide (name = "X-User-Site") then "../etc"
  else [].

(** The sum of the numbers of a list. *)
Definition sum_list (ns : list Z) : Z := fold_right Z.add 0 ns.

(* ================================================================== *)
(** * Properties *)
(* ================================================================== *)

(** ** Splitting and joining *)

Lemma is_sep_true c : is_sep c = true <-> c = sep.
Proof. unfold is_sep. apply Ascii.eqb_eq. Qed.

Lemma is_sep_false c : is_sep c = false <-> c <> sep.
Proof. unfold is_sep. apply Ascii.eqb_neq. Qed.

Lemma split_nonempty s : split s <> [].
Proof.
  destruct s as [|c r]; simpl; [done|].
  destruct (is_sep c); [done|]. by destruct (split r).
Qed.

Lemma split_nosep e : sep ∉ e -> split e = [e].
Proof.
  induction e as [|c e IH]; intros Hn; simpl; [done|].
  apply not_elem_of_cons in Hn as [Hc He].
  assert (is_sep c = false) as -> by (apply is_sep_false; congruence).
  by rewrite (IH He).
Qed.

Lemma split_app_sep a b : split (a ++ sep :: b) = split a ++ split b.
Proof.
  induction a as [|c a IH]; [reflexivity|]. simpl.
  destruct (is_sep c); [by rewrite IH|].
  rewrite IH. pose proof (split_nonempty a). by destruct (split a).
Qed.

Lemma split_elems_nosep s : Forall (fun e => sep ∉ e) (split s).
Proof.
  induction s as [|c r IH]; simpl.
  - repeat constructor. by apply not_elem_of_nil.
  - destruct (is_sep c) eqn:Hc.
    + constructor; [apply not_elem_of_nil | done].
    + pose proof (split_nonempty r) as Hne.
      destruct (split r) as [|e es]; [done|].
      inversion IH; subst.
      constructor; [|done].
      apply not_elem_of_cons. split; [|done].
      apply is_sep_false in Hc. congruence.
Qed.

Lemma join_cons e l : l <> [] -> join (e :: l) = e ++ sep :: join l.
Proof. by destruct l. Qed.

Lemma join_app l1 l2 :
  l1 <> [] -> l2 <> [] -> join (l1 ++ l2) = join l1 ++ sep :: join l2.
Proof.
  induction l1 as [|e l1 IH]; intros H1 H2; [done|].
  destruct l1 as [|e' l1].
  - simpl app. by rewrite join_cons.
  - rewrite <- app_comm_cons, !join_cons by done.
    rewrite IH by done. by rewrite <- app_assoc.
Qed.

Lemma split_join l :
  l <> [] -> Forall (fun e => sep ∉ e) l -> split (join l) = l.
Proof.
  induction l as [|e l IH]; intros Hne Hl; [done|].
  inversion Hl as [|? ? He Hl']; subst.
  destruct l as [|e' l]; [by apply split_nosep|].
  rewrite join_cons by done. rewrite split_app_sep, split_nosep by done.
  by rewrite IH.
Qed.

Lemma join_split s : join (split s) = s.
Proof.
  induction s as [|c r IH]; simpl; [done|].
  destruct (is_sep c) eqn:Hc.
  - apply is_sep_true in Hc as ->.
    pose proof (split_nonempty r).
    rewrite join_cons by done. simpl. by rewrite IH.
  - pose proof (split_nonempty r) as Hne.
    destruct (split r) as [|e es]; [done|].
    destruct es as [|e' es]; simpl in *; by rewrite <- IH.
Qed.

(** ** [filepath.Clean] *)

Import filepath.

Lemma dotdot_nosep : sep ∉ dotdot.
Proof.
  unfold dotdot, dot, sep. rewrite !not_elem_of_cons.
  repeat split; try done. apply not_elem_of_nil.
Qed.

Lemma clean_loop_app r out l1 l2 :
  clean_loop r out (l1 ++ l2) = clean_loop r (clean_loop r out l1) l2.
Proof.
  revert out. induction l1 as [|e l1 IH]; intros out; simpl; [done|].
  repeat case_decide; try done.
  destruct out as [|top out']; [by destruct r|].
  case_decide; [by destruct r|done].
Qed.

Lemma clean_loop_plain_cons r out e rest :
  plain e -> clean_loop r out (e :: rest) = clean_loop r (e :: out) rest.
Proof.
  intros (H1 & H2 & H3 & _). simpl. by repeat case_decide.
Qed.

Lemma clean_loop_plain r out l :
  Forall plain l -> clean_loop r out l = rev l ++ out.
Proof.
  intros Hl. revert out. induction Hl as [|e l He Hl IH]; intros out; [done|].
  rewrite clean_loop_plain_cons by done. rewrite IH. simpl.
  by rewrite <- app_assoc.
Qed.

Lemma clean_loop_dotdots j k :
  clean_loop false (replicate j dotdot) (replicate k dotdot)
  = replicate (k + j) dotdot.
Proof.
  revert j. induction k as [|k IH]; intros j; [done|].
  cbn [replicate clean_loop].
  destruct (decide (dotdot = [])) as [?|_]; [done|].
  destruct (decide (dotdot = [dot])) as [?|_]; [done|].
  destruct (decide (dotdot = dotdot)) as [_|?]; [|done].
  destruct j as [|j]; cbn [replicate].
  - pose proof (IH 1%nat) as H1. cbn [replicate] in H1. rewrite H1.
    by replace (k + 1)%nat with (S k + 0)%nat by lia.
  - destruct (decide (dotdot = dotdot)) as [_|?]; [|done].
    pose proof (IH (S (S j))) as H1. cbn [replicate] in H1. rewrite H1.
    by replace (k + S (S j))%nat with (S k + S j)%nat by lia.
Qed.

Lemma stack_ok_top_dotdot r out :
  stack_ok r (dotdot :: out) -> r = false /\ exists k, out = replicate k dotdot.
Proof.
  inversion 1 as [k Hk Heq|e out' He Hout]; subst.
  - destruct k as [|k]; [done|]. simpl in Heq. injection Heq as <-.
    split; [|by eexists]. destruct r; [|done]. by specialize (Hk eq_refl).
  - by destruct He as (_ & _ & ? & _).
Qed.

Lemma stack_ok_pop r top out :
  top <> dotdot -> stack_ok r (top :: out) -> stack_ok r out.
Proof.
  intros Hne. inversion 1 as [k Hk Heq|e out' He Hout]; subst; [|done].
  destruct k as [|k]; [done|]. simpl in Heq. by injection Heq as <- _.
Qed.

Lemma clean_loop_stack_ok r out elems :
  Forall (fun e => sep ∉ e) elems ->
  stack_ok r out -> stack_ok r (clean_loop r out elems).
Proof.
  intros Hel. revert out.
  induction Hel as [|e rest He Hrest IH]; intros out Hout; simpl; [done|].
  repeat case_decide; subst; try by apply IH.
  - destruct out as [|top out'].
    + destruct r; apply IH; [done|].
      by apply (stack_dotdots false 1).
    + case_decide; subst.
      * destruct r; apply IH; [done|].
        apply stack_ok_top_dotdot in Hout as [_ [k ->]].
        by apply (stack_dotdots false (S (S k))).
      * apply IH. by eapply stack_ok_pop.
  - apply IH. by apply stack_push.
Qed.

Lemma rev_replicate {A} (x : A) k : rev (replicate k x) = replicate k x.
Proof.
  induction k as [|k IH]; [done|]. simpl. rewrite IH.
  clear. induction k as [|k IH]; simpl; [done|]. by rewrite IH.
Qed.

Lemma stack_ok_rev r out :
  stack_ok r out ->
  exists k ps, rev out = replicate k dotdot ++ ps /\ Forall plain ps
               /\ (r = true -> k = 0%nat).
Proof.
  induction 1 as [k Hk|e out He Hout (k & ps & Heq & Hps & Hk)].
  - exists k, []. by rewrite app_nil_r, rev_replicate.
  - exists k, (ps ++ [e]). simpl. rewrite Heq, <- app_assoc.
    split; [done|]. split; [|done]. apply Forall_app. by split; [|constructor].
Qed.

Lemma plain_dotdot_solid e : plain e \/ e = dotdot -> e <> [] /\ sep ∉ e.
Proof.
  intros [(H1 & _ & _ & H4)| ->]; [done|]. split; [done|apply dotdot_nosep].
Qed.

Lemma IsAbs_join_false e l :
  e <> [] -> sep ∉ e -> IsAbs (join (e :: l)) = false.
Proof.
  intros Hne Hsep. destruct e as [|c e]; [done|].
  apply not_elem_of_cons in Hsep as [Hc _].
  assert (is_sep c = false) by (apply is_sep_false; congruence).
  by destruct l.
Qed.

Lemma join_cons_nonempty e l : e <> [] -> join (e :: l) <> [].
Proof. destruct e, l; simpl; done. Qed.

Lemma split_sep_cons s : split (sep :: s) = [] :: split s.
Proof. reflexivity. Qed.

(** The elements of a cleaned rooted path, as [Clean] reads them back. *)
Lemma clean_loop_split_abs ps out :
  Forall plain ps ->
  clean_loop true out (split (sep :: join ps)) = rev ps ++ out.
Proof.
  intros Hps. rewrite split_sep_cons. destruct ps as [|p ps].
  - reflexivity.
  - rewrite split_join; [|done|].
    + change (clean_loop true out ([] :: p :: ps))
        with (clean_loop true out (p :: ps)).
      by apply clean_loop_plain.
    + eapply Forall_impl; [done|]. by intros e (_ & _ & _ & ?).
Qed.

Lemma Clean_abs_fix ps :
  Forall plain ps -> Clean (sep :: join ps) = sep :: join ps.
Proof.
  intros Hps. unfold Clean.
  change (IsAbs (sep :: join ps)) with true.
  rewrite clean_loop_split_abs by done.
  by rewrite app_nil_r, rev_involutive.
Qed.

Lemma normal_solid k ps :
  Forall plain ps ->
  Forall (fun e => e <> [] /\ sep ∉ e) (replicate k dotdot ++ ps).
Proof.
  intros Hps. apply Forall_app. split.
  - apply Forall_replicate. by apply plain_dotdot_solid; right.
  - eapply Forall_impl; [done|]. intros e He. by apply plain_dotdot_solid; left.
Qed.

Lemma clean_loop_normal k ps :
  Forall plain ps ->
  clean_loop false [] (replicate k dotdot ++ ps) = rev ps ++ replicate k dotdot.
Proof.
  intros Hps. rewrite clean_loop_app.
  pose proof (clean_loop_dotdots 0 k) as H. cbn [replicate] in H. rewrite H.
  rewrite clean_loop_plain by done. by rewrite Nat.add_0_r.
Qed.

Lemma Clean_rel_fix k ps :
  Forall plain ps -> replicate k dotdot ++ ps <> [] ->
  Clean (join (replicate k dotdot ++ ps)) = join (replicate k dotdot ++ ps).
Proof.
  intros Hps Hne. pose proof (normal_solid k ps Hps) as Hsolid.
  set (l := replicate k dotdot ++ ps) in *.
  assert (split (join l) = l) as Hsplit.
  { apply split_join; [done|]. eapply Forall_impl; [done|]. by intros e [_ ?]. }
  destruct l as [|e l'] eqn:Hl; [done|].
  inversion Hsolid as [|? ? [He1 He2] _]; subst.
  pose proof (IsAbs_join_false e l' He1 He2) as Habs.
  pose proof (join_cons_nonempty e l' He1) as Hj.
  unfold Clean. destruct (join (e :: l')) as [|c j] eqn:Hjoin; [done|].
  rewrite Habs, Hsplit, <- Hl. unfold l. rewrite clean_loop_normal by done.
  rewrite rev_app_distr, rev_involutive, rev_replicate.
  fold l. rewrite Hl. unfold render. by rewrite Hjoin.
Qed.

(** The shape of what [Clean] returns. *)
Lemma Clean_shape s :
  s <> [] ->
  exists k ps,
    Clean s = render (IsAbs s) (replicate k dotdot ++ ps)
    /\ Forall plain ps /\ (IsAbs s = true -> k = 0%nat).
Proof.
  intros Hne. destruct s as [|c s]; [done|]. unfold Clean.
  set (p := c :: s).
  assert (stack_ok (IsAbs p) (clean_loop (IsAbs p) [] (split p))) as Hok.
  { apply clean_loop_stack_ok; [apply split_elems_nosep|].
    by apply (stack_dotdots _ 0). }
  apply stack_ok_rev in Hok as (k & ps & -> & Hps & Hk).
  by exists k, ps.
Qed.

Lemma Clean_abs_shape s :
  IsAbs s = true -> exists ps, Clean s = sep :: join ps /\ Forall plain ps.
Proof.
  intros Habs. destruct (Clean_shape s) as (k & ps & Heq & Hps & Hk).
  { by destruct s. }
  rewrite Habs in Heq. rewrite (Hk Habs) in Heq. by exists ps.
Qed.

Lemma Clean_idempotent s : Clean (Clean s) = Clean s.
Proof.
  destruct (decide (s = [])) as [->|Hne]; [reflexivity|].
  destruct (Clean_shape s Hne) as (k & ps & -> & Hps & Hk).
  destruct (IsAbs s) eqn:Habs; unfold render.
  - rewrite (Hk eq_refl). by apply Clean_abs_fix.
  - destruct (replicate k dotdot ++ ps) as [|e l] eqn:Hl; [reflexivity|].
    rewrite <- Hl. apply Clean_rel_fix; [done|]. by rewrite Hl.
Qed.

(** ** [SanitizePath] and [ValidatePath] *)

Lemma HasPrefix_sep s : HasPrefix s "/" = IsAbs s.
Proof.
  unfold HasPrefix. change (list_ascii_of_string "/") with [sep].
  destruct s as [|c s]; [reflexivity|]. cbn [IsAbs].
  destruct (is_sep c) eqn:Hc.
  - apply is_sep_true in Hc as ->. apply bool_decide_eq_true_2. by exists s.
  - apply is_sep_false in Hc. apply bool_decide_eq_false_2.
    intros [k Hk]. simpl in Hk. congruence.
Qed.

Lemma TrimPrefix_sep_abs s : TrimPrefix (sep :: s) "/" = s.
Proof. unfold TrimPrefix. rewrite HasPrefix_sep. reflexivity. Qed.

Lemma TrimPrefix_sep_rel s : IsAbs s = false -> TrimPrefix s "/" = s.
Proof. intros H. unfold TrimPrefix. by rewrite HasPrefix_sep, H. Qed.

(** What [SanitizePath] returns: nothing or [.] for a path without real
    elements, otherwise a run of [..] elements (none for a rooted path)
    followed by real elements, joined by separators. *)
Lemma SanitizePath_shape req :
  exists k ps,
    Forall plain ps /\ (IsAbs req = true -> k = 0%nat) /\
    ((replicate k dotdot ++ ps = []
      /\ (SanitizePath req = [] \/ SanitizePath req = [dot]))
     \/ (replicate k dotdot ++ ps <> []
         /\ SanitizePath req = join (replicate k dotdot ++ ps))).
Proof.
  unfold SanitizePath.
  destruct (decide (req = [])) as [->|Hne].
  { exists 0%nat, []. split; [done|]. split; [done|]. left. split; [done|]. by right. }
  destruct (Clean_shape req Hne) as (k & ps & -> & Hps & Hk).
  exists k, ps. split; [done|]. split; [done|].
  destruct (IsAbs req) eqn:Habs; unfold render.
  - rewrite TrimPrefix_sep_abs.
    destruct (decide (replicate k dotdot ++ ps = [])) as [->|Hl]; [by left; auto|].
    by right.
  - destruct (replicate k dotdot ++ ps) as [|e l] eqn:Hl.
    + left. split; [done|]. by right.
    + right. split; [done|]. apply TrimPrefix_sep_rel.
      pose proof (normal_solid k ps Hps) as Hs. rewrite Hl in Hs.
      inversion Hs as [|? ? [? ?] _]; subst. by apply IsAbs_join_false.
Qed.

Lemma stack_ok_plain r l : Forall plain l -> stack_ok r l.
Proof.
  induction 1 as [|e l He Hl IH]; [by apply (stack_dotdots r 0)|].
  by apply stack_push.
Qed.

(** Joining a cleaned rooted path with anything: the elements of the second
    path are replayed on the element stack of the first. *)
Lemma Join_base bs x :
  Forall plain bs ->
  Join [sep :: join bs; x]
  = sep :: join (rev (clean_loop true (rev bs) (split x))).
Proof.
  intros Hbs. unfold Join.
  destruct (decide (sep :: join bs = [])) as [?|_]; [done|].
  change (join [sep :: join bs; x]) with ((sep :: join bs) ++ sep :: x).
  unfold Clean. change (IsAbs ((sep :: join bs) ++ sep :: x)) with true.
  cbn [app]. change (sep :: join bs ++ sep :: x) with ((sep :: join bs) ++ sep :: x).
  rewrite split_app_sep, clean_loop_app, clean_loop_split_abs by done.
  by rewrite app_nil_r.
Qed.

Lemma Join_base_shape bs x :
  Forall plain bs ->
  exists js, Join [sep :: join bs; x] = sep :: join js /\ Forall plain js
             /\ js = rev (clean_loop true (rev bs) (split x)).
Proof.
  intros Hbs. rewrite Join_base by done.
  assert (stack_ok true (clean_loop true (rev bs) (split x))) as Hok.
  { apply clean_loop_stack_ok; [apply split_elems_nosep|].
    apply stack_ok_plain. by apply Forall_rev. }
  apply stack_ok_rev in Hok as (k & ps & Heq & Hps & Hk).
  rewrite (Hk eq_refl) in Heq. simpl in Heq.
  exists ps. by rewrite Heq.
Qed.

Lemma filter_nonempty_id (l : list gostring) :
  Forall (fun e => e <> []) l -> filter (fun e => e <> []) l = l.
Proof.
  induction 1 as [|e l He Hl IH]; [done|].
  rewrite filter_cons_True by done. by rewrite IH.
Qed.

Lemma elements_abs ps : Forall plain ps -> elements (sep :: join ps) = ps.
Proof.
  intros Hps. unfold elements. rewrite split_sep_cons.
  rewrite filter_cons_False by (intros H; by apply H).
  destruct ps as [|p ps]; [reflexivity|].
  rewrite split_join; [|done|].
  - apply filter_nonempty_id. eapply Forall_impl; [done|]. by intros e (? & _).
  - eapply Forall_impl; [done|]. by intros e (_ & _ & _ & ?).
Qed.

Lemma join_prefix (bs js : list gostring) :
  bs `prefix_of` js -> (sep :: join bs) `prefix_of` (sep :: join js).
Proof.
  intros [rest ->]. apply prefix_cons.
  destruct (decide (bs = [])) as [->|Hb]; [apply prefix_nil|].
  destruct (decide (rest = [])) as [->|Hr]; [by rewrite app_nil_r|].
  rewrite join_app by done. by apply prefix_app_r.
Qed.

Lemma within_HasPrefix bs js :
  Forall plain bs -> Forall plain js ->
  within (sep :: join bs) (sep :: join js) ->
  HasPrefix (sep :: join js) (sep :: join bs) = true.
Proof.
  intros Hbs Hjs. unfold within. rewrite !elements_abs by done.
  intros Hpre. apply bool_decide_eq_true. by apply join_prefix.
Qed.

(** For an absolute base, [ValidatePath] is the string-prefix test on the
    cleaned join. *)
Lemma ValidatePath_abs wd base req :
  IsAbs base = true ->
  ValidatePath wd base req
  = if HasPrefix (Join [Clean base; SanitizePath req]) (Clean base)
    then Ok (Join [Clean base; SanitizePath req])
    else Err ErrPathTraversal.
Proof.
  intros Habs. destruct (Clean_abs_shape base Habs) as (bs & HB & Hbs).
  unfold ValidatePath. rewrite HB.
  destruct (Join_base_shape bs (SanitizePath req) Hbs) as (js & HJ & Hjs & Hjs').
  case_decide as Hreq.
  - assert (js = bs) as ->.
    { rewrite Hjs'. destruct Hreq as [-> | ->]; simpl; by rewrite rev_involutive. }
    rewrite HJ. unfold HasPrefix. by rewrite bool_decide_eq_true_2.
  - rewrite HJ. unfold Abs. change (IsAbs (sep :: join js)) with true.
    change (IsAbs (sep :: join bs)) with true.
    rewrite !Clean_abs_fix by done.
    by destruct (HasPrefix (sep :: join js) (sep :: join bs)).
Qed.

Lemma clean_loop_pop k st :
  Forall plain st -> clean_loop true st (replicate k dotdot) = drop k st.
Proof.
  revert st. induction k as [|k IH]; intros st Hst; [done|].
  cbn [replicate clean_loop].
  destruct (decide (dotdot = [])) as [?|_]; [done|].
  destruct (decide (dotdot = [dot])) as [?|_]; [done|].
  destruct (decide (dotdot = dotdot)) as [_|?]; [|done].
  destruct st as [|top st'].
  - rewrite IH by done. by rewrite drop_nil.
  - inversion Hst as [|? ? (_ & _ & Htop & _) Hst']; subst.
    destruct (decide (top = dotdot)) as [?|_]; [done|].
    by rewrite IH.
Qed.

Lemma join_length_lt (js tl : list gostring) :
  tl <> [] -> Forall (fun e => e <> []) (js ++ tl) ->
  (length (join js) < length (join (js ++ tl)))%nat.
Proof.
  intros Htl Hall. destruct (decide (js = [])) as [->|Hjs].
  - simpl. destruct tl as [|e tl]; [done|].
    inversion Hall; subst.
    assert (join (e :: tl) <> []) by by apply join_cons_nonempty.
    destruct (join (e :: tl)); [done|]. simpl. lia.
  - rewrite join_app by done. rewrite length_app. simpl. lia.
Qed.

Lemma plain_nonempty l : Forall plain l -> Forall (fun e : gostring => e <> []) l.
Proof. intros H. eapply Forall_impl; [done|]. by intros e (? & _). Qed.

Lemma plain_nosep l : Forall plain l -> Forall (fun e : gostring => sep ∉ e) l.
Proof. intros H. eapply Forall_impl; [done|]. by intros e (_ & _ & _ & ?). Qed.

Lemma climbs_false_shape req :
  climbs req = false ->
  exists ps, Forall plain ps /\
    ((ps = [] /\ (SanitizePath req = [] \/ SanitizePath req = [dot]))
     \/ (ps <> [] /\ SanitizePath req = join ps)).
Proof.
  intros Hcl. destruct (SanitizePath_shape req) as (k & ps & Hps & Hk & Hcases).
  exists ps. split; [done|].
  destruct Hcases as [[Hnil Hs]|[Hne Hs]].
  - left. split; [|done]. by apply app_eq_nil in Hnil as [_ ->].
  - right. destruct k as [|k]; [done|]. exfalso.
    unfold climbs in Hcl. apply bool_decide_eq_false in Hcl. apply Hcl.
    rewrite Hs, split_join; [done|done|].
    eapply Forall_impl; [by apply normal_solid|]. by intros e [_ ?].
Qed.

Lemma abs_not_climbs req : IsAbs req = true -> climbs req = false.
Proof.
  intros Habs. destruct (SanitizePath_shape req) as (k & ps & Hps & Hk & Hcases).
  rewrite (Hk Habs) in Hcases. simpl in Hcases.
  unfold climbs. apply bool_decide_eq_false.
  destruct Hcases as [[-> [-> | ->]]|[Hne ->]]; [done|done|].
  rewrite split_join by (done || by apply plain_nosep).
  destruct ps as [|p ps]; [done|]. inversion Hps as [|? ? (_ & _ & Hp & _) _]; subst.
  simpl. congruence.
Qed.

Lemma not_climbs_joined bs req :
  Forall plain bs -> climbs req = false ->
  exists ps, Forall plain ps
    /\ Join [sep :: join bs; SanitizePath req] = sep :: join (bs ++ ps)
    /\ (ps = [] -> SanitizePath req = [] \/ SanitizePath req = [dot])
    /\ (ps <> [] -> SanitizePath req = join ps).
Proof.
  intros Hbs Hcl. destruct (climbs_false_shape req Hcl) as (ps & Hps & Hcases).
  exists ps. split; [done|]. rewrite Join_base by done.
  destruct Hcases as [[-> Hs]|[Hne Hs]].
  - split; [|by split]. rewrite app_nil_r.
    destruct Hs as [-> | ->]; simpl; by rewrite rev_involutive.
  - split; [|by split]. rewrite Hs, split_join by (done || by apply plain_nosep).
    rewrite clean_loop_plain by done.
    by rewrite rev_app_distr, !rev_involutive.
Qed.

(** A request that does not climb is accepted and resolved to its join
    with the root. *)
Lemma ValidatePath_not_climbing wd base req :
  IsAbs base = true -> climbs req = false ->
  ValidatePath wd base req = Ok (Join [Clean base; SanitizePath req]).
Proof.
  intros Habs Hcl. rewrite (ValidatePath_abs wd base req Habs).
  destruct (Clean_abs_shape base Habs) as (bs & -> & Hbs).
  destruct (not_climbs_joined bs req Hbs Hcl) as (ps & Hps & -> & _).
  assert (HasPrefix (sep :: join (bs ++ ps)) (sep :: join bs) = true) as ->; [|done].
  apply bool_decide_eq_true_2, join_prefix. by apply prefix_app_r.
Qed.

(** C1 (amended).  For an absolute sandbox root, [ValidatePath] accepts every
    requested path whose cleaned join with the root is the root or a
    component-wise descendant of it, and returns that join.  This covers
    every path given in absolute form (its leading separator is stripped and
    the rest is resolved under the root) and every path whose [..] segments
    are cancelled inside the path; such paths are resolved, not rejected.
    [ValidatePath] rejects only paths whose join leaves the root, always with
    the traversal error, and it does reject every path that cleans to [..]
    segments alone when the root is not "/". *)
Theorem ValidatePath_sandbox wd base req :
  IsAbs base = true ->
  let root := Clean base in
  let joined := Join [root; SanitizePath req] in
  (within root joined -> ValidatePath wd base req = Ok joined)
  /\ (climbs req = false -> within root joined)
  /\ (IsAbs req = true -> climbs req = false)
  /\ (forall e, ValidatePath wd base req = Err e ->
        e = ErrPathTraversal /\ ~ within root joined)
  /\ (forall k, (0 < k)%nat -> SanitizePath req = join (replicate k dotdot) ->
        root <> [sep] -> ValidatePath wd base req = Err ErrPathTraversal).
Proof.
  intros Habs root joined. subst root joined.
  rewrite (ValidatePath_abs wd base req Habs).
  destruct (Clean_abs_shape base Habs) as (bs & -> & Hbs).
  destruct (Join_base_shape bs (SanitizePath req) Hbs) as (js & HJ & Hjs & Hjs').
  assert (within (sep :: join bs) (sep :: join js)
          -> HasPrefix (sep :: join js) (sep :: join bs) = true) as Hw
    by by apply within_HasPrefix.
  rewrite HJ. split; [|split; [|split; [|split]]].
  - intros Hin. by rewrite (Hw Hin).
  - intros Hcl. destruct (not_climbs_joined bs req Hbs Hcl) as (ps & Hps & HJ' & _).
    assert (sep :: join js = sep :: join (bs ++ ps)) as -> by congruence.
    unfold within. rewrite (elements_abs bs) by done.
    rewrite (elements_abs (bs ++ ps)) by (apply Forall_app; by split).
    by apply prefix_app_r.
  - apply abs_not_climbs.
  - intros e He.
    destruct (HasPrefix (sep :: join js) (sep :: join bs)) eqn:Hp; [done|].
    split; [congruence|]. intros Hin. by specialize (Hw Hin).
  - intros k Hk Hreq Hroot.
    assert (bs <> []) as Hbne by (by intros ->).
    rewrite Hreq in Hjs'. rewrite split_join in Hjs'.
    2: { destruct k; [lia|done]. }
    2: { apply Forall_replicate, dotdot_nosep. }
    rewrite clean_loop_pop in Hjs' by by apply Forall_rev.
    assert (bs = js ++ rev (take k (rev bs))) as Hsplit.
    { rewrite Hjs', <- rev_app_distr, take_drop. by rewrite rev_involutive. }
    assert (rev (take k (rev bs)) <> []) as Htl.
    { intros Hnil. apply (f_equal (@length _)) in Hnil.
      rewrite length_rev, length_take, length_rev in Hnil. simpl in Hnil.
      destruct bs; [done|]. simpl in Hnil. lia. }
    assert (length (join js) < length (join bs))%nat as Hlt.
    { rewrite Hsplit at 1. apply join_length_lt; [done|].
      rewrite <- Hsplit. by apply plain_nonempty. }
    clear Hw.
    destruct (HasPrefix (sep :: join js) (sep :: join bs)) eqn:Hp; [|done].
    apply bool_decide_eq_true in Hp. apply prefix_length in Hp.
    simpl in Hp. lia.
Qed.

(** The amended C1 applied to the root [/home/alice] and the absolute-form
    request [/etc/passwd]. *)
Lemma ValidatePath_sandbox_witness :
  IsAbs "/home/alice" = true
  /\ ValidatePath None "/home/alice" "/etc/passwd" = Ok ("/home/alice/etc/passwd" : gostring).
Proof.
  split; [reflexivity|].
  destruct (ValidatePath_sandbox None "/home/alice" "/etc/passwd" eq_refl)
    as (Haccept & Hinside & Habsolute & _).
  exact (Haccept (Hinside (Habsolute eq_refl))).
Defined.

(** C1 as stated fails: a request in absolute form and a request containing
    a [..] segment are both resolved under the root instead of being
    rejected with the traversal error. *)
Lemma ValidatePath_accepts_absolute_and_dotdot :
  IsAbs "/etc/passwd" = true
  /\ ValidatePath None "/home/alice" "/etc/passwd" = Ok ("/home/alice/etc/passwd" : gostring)
  /\ dotdot ∈ split "docs/../notes.txt"
  /\ ValidatePath None "/home/alice" "docs/../notes.txt"
     = Ok ("/home/alice/notes.txt" : gostring).
Proof.
  split; [reflexivity|]. split; [reflexivity|]. split; [|reflexivity].
  apply (bool_decide_unpack _). vm_compute. exact I.
Qed.

(** The prefix test of [ValidatePath] compares bytes, not path elements: a
    request that climbs into a sibling whose name extends the root's name
    passes it, although the result is not within the root. *)
Lemma ValidatePath_sibling_prefix :
  ValidatePath None "/home/alice" "../alice-2/secret" = Ok ("/home/alice-2/secret" : gostring)
  /\ ~ within "/home/alice" "/home/alice-2/secret"
  /\ ValidatePath None "/home/alice" "../bob/secret" = Err ErrPathTraversal.
Proof.
  split; [reflexivity|]. split; [|reflexivity].
  apply (bool_decide_unpack _). vm_compute. exact I.
Qed.

(** ** [filepath.Rel] and [GetRelativePath] *)

Lemma rel_scan_cons e b t :
  join (e :: b) <> [] -> join (e :: t) <> [] ->
  rel_scan (e :: b) (e :: t) = rel_scan b t.
Proof.
  intros Hb Ht. cbn [rel_scan].
  destruct (decide (join (e :: b) = [] \/ join (e :: t) = []))
    as [[?|?]|_]; [done|done|].
  by destruct (decide (e = e)).
Qed.

Lemma rel_scan_prefix bs ps :
  Forall (fun e : gostring => e <> []) bs ->
  rel_scan bs (bs ++ ps) = ([], ps, []).
Proof.
  induction 1 as [|e bs He Hbs IH]; [by destruct ps|].
  rewrite <- app_comm_cons, rel_scan_cons; [done| |];
    by apply join_cons_nonempty.
Qed.

Lemma Rel_descendant bs ps :
  Forall plain bs -> Forall plain ps -> ps <> [] ->
  Rel (sep :: join bs) (sep :: join (bs ++ ps)) = Ok (join ps).
Proof.
  intros Hbs Hps Hne.
  assert (Forall plain (bs ++ ps)) as Hall by (apply Forall_app; by split).
  unfold Rel. rewrite !Clean_abs_fix by done.
  assert (length (join bs) < length (join (bs ++ ps)))%nat as Hlt.
  { apply join_length_lt; [done|]. by apply plain_nonempty. }
  destruct (decide (sep :: join (bs ++ ps) = sep :: join bs)) as [Heq|_].
  { injection Heq as Heq. rewrite Heq in Hlt. lia. }
  destruct (decide (sep :: join bs = [dot])) as [?|_]; [done|].
  change (IsAbs (sep :: join bs)) with true.
  change (IsAbs (sep :: join (bs ++ ps))) with true.
  cbn [Bool.eqb negb]. rewrite !split_sep_cons.
  rewrite (split_join (bs ++ ps)); [|by intros [-> ->]%app_eq_nil|by apply plain_nosep].
  destruct bs as [|b bs].
  - simpl app. destruct ps as [|p ps]; [done|]. reflexivity.
  - rewrite (split_join (b :: bs)) by (done || by apply plain_nosep).
    rewrite rel_scan_cons by done.
    rewrite rel_scan_prefix by by apply plain_nonempty.
    by destruct (decide ([] = dotdot)).
Qed.

Lemma Rel_same bs : Forall plain bs -> Rel (sep :: join bs) (sep :: join bs) = Ok [dot].
Proof.
  intros Hbs. unfold Rel. rewrite Clean_abs_fix by done.
  by destruct (decide (sep :: join bs = sep :: join bs)).
Qed.

Lemma dotdot_prefix_join k l :
  HasPrefix (join (replicate (S k) dotdot ++ l)) ".." = true.
Proof.
  apply bool_decide_eq_true_2. change (list_ascii_of_string "..") with dotdot.
  cbn [replicate app]. destruct (replicate k dotdot ++ l) as [|e l'].
  - by exists [].
  - rewrite join_cons by done. by apply prefix_app_r.
Qed.

(** C6 (amended).  For an absolute root and a requested path whose sanitised
    form does not begin with the bytes [..], [ValidatePath] accepts the path
    and [GetRelativePath] of the result is the sanitised form of the request
    ([.] when that is empty); hence the composition is the identity exactly
    on requests that [SanitizePath] leaves unchanged. *)
Theorem resolve_relativeOf_roundtrip wd base req :
  IsAbs base = true ->
  HasPrefix (SanitizePath req) ".." = false ->
  exists p,
    ValidatePath wd base req = Ok p
    /\ GetRelativePath wd base p
       = Ok (if decide (SanitizePath req = []) then [dot] else SanitizePath req)
    /\ (SanitizePath req = req -> GetRelativePath wd base p = Ok req).
Proof.
  intros Habs Hpre.
  assert (climbs req = false) as Hcl.
  { destruct (SanitizePath_shape req) as (k & ps & Hps & Hk & Hcases).
    unfold climbs. apply bool_decide_eq_false.
    destruct Hcases as [[Hnil [Hs|Hs]]|[Hne Hs]]; rewrite Hs; [done|done|].
    destruct k as [|k]; [|by rewrite Hs, dotdot_prefix_join in Hpre].
    simpl. rewrite split_join by (done || by apply plain_nosep).
    destruct ps as [|p ps]; [done|].
    inversion Hps as [|? ? (_ & _ & Hp & _) _]; subst. simpl. congruence. }
  rewrite (ValidatePath_not_climbing wd base req Habs Hcl).
  eexists. split; [done|].
  destruct (Clean_abs_shape base Habs) as (bs & HB & Hbs).
  assert (GetRelativePath wd base (Join [Clean base; SanitizePath req])
          = Ok (if decide (SanitizePath req = []) then [dot] else SanitizePath req))
    as Hrt.
  { destruct (not_climbs_joined bs req Hbs Hcl) as (ps & Hps & HJ & Hnil & Hne).
    unfold GetRelativePath, Abs. rewrite Habs, HB, HJ.
    change (IsAbs (sep :: join (bs ++ ps))) with true.
    rewrite Clean_abs_fix by (apply Forall_app; by split).
    destruct (decide (ps = [])) as [->|Hps'].
    - rewrite app_nil_r, Rel_same by done.
      destruct (Hnil eq_refl) as [-> | ->]; reflexivity.
    - rewrite Rel_descendant by done. rewrite <- (Hne Hps'), Hpre.
      case_decide as Hs; [|done].
      rewrite Hs in Hne. specialize (Hne Hps').
      destruct ps as [|p ps]; [done|].
      inversion Hps as [|? ? (Hp & _) _]; subst.
      symmetry in Hne. by apply join_cons_nonempty in Hne. }
  split; [done|]. intros Hfix. rewrite Hrt, Hfix.
  destruct (decide (req = [])) as [->|_]; [discriminate Hfix|done].
Qed.

(** The amended C6 applied to the root [/home/alice] and a request that is
    already in sanitised form. *)
Lemma resolve_relativeOf_roundtrip_witness :
  IsAbs "/home/alice" = true
  /\ HasPrefix (SanitizePath "docs/report.txt") ".." = false
  /\ exists p,
      ValidatePath None "/home/alice" "docs/report.txt" = Ok p
      /\ GetRelativePath None "/home/alice" p = Ok ("docs/report.txt" : gostring).
Proof.
  split; [reflexivity|]. split; [reflexivity|].
  destruct (resolve_relativeOf_roundtrip None "/home/alice" "docs/report.txt"
              eq_refl eq_refl) as (p & Hv & _ & Hid).
  exists p. split; [exact Hv|]. exact (Hid eq_refl).
Defined.

(** C6 as stated fails: a request that [ValidatePath] accepts comes back
    from [GetRelativePath] in sanitised form, which differs from the
    request when the request was not sanitised already. *)
Lemma roundtrip_not_identity :
  ValidatePath None "/home/alice" "docs/../notes.txt"
  = Ok ("/home/alice/notes.txt" : gostring)
  /\ GetRelativePath None "/home/alice" "/home/alice/notes.txt"
     = Ok ("notes.txt" : gostring)
  /\ ("notes.txt" : gostring) <> "docs/../notes.txt".
Proof. split; [reflexivity|]. split; [reflexivity|]. discriminate. Qed.

(** A file name that begins with two dots is accepted by [ValidatePath] but
    refused by the byte-prefix test of [GetRelativePath]. *)
Lemma GetRelativePath_dotdot_name :
  ValidatePath None "/home/alice" "..cache" = Ok ("/home/alice/..cache" : gostring)
  /\ GetRelativePath None "/home/alice" "/home/alice/..cache" = Err ErrOutsideBasePath.
Proof. split; reflexivity. Qed.

(** ** The progress store *)

Lemma wrap64_small z : min_int64 <= z <= max_int64 -> wrap64 z = z.
Proof.
  unfold min_int64, max_int64, wrap64. intros Hz.
  rewrite Z.mod_small by lia. lia.
Qed.

Lemma Update_present (ps : gmap gostring Progress) id p v :
  ps !! id = Some p -> 0 <= v -> v * 100 <= max_int64 ->
  ProgressStore.Update ps id v = inr (<[id := updated p v]> ps).
Proof.
  intros Hp Hv Hmax. unfold ProgressStore.Update, updated. rewrite Hp.
  cbn [TotalBytes set_UploadedBytes].
  destruct (0 <? TotalBytes p) eqn:HT; [|done].
  apply Z.ltb_lt in HT. unfold quot64, mul64.
  destruct (TotalBytes p =? 0) eqn:H0; [apply Z.eqb_eq in H0; lia|].
  rewrite (wrap64_small (v * 100)) by (unfold min_int64; lia).
  rewrite Z.quot_div_nonneg by lia.
  assert (0 <= v * 100 / TotalBytes p <= v * 100).
  { split; [apply Z.div_pos; lia|].
    apply Z.div_le_upper_bound; [lia|]. nia. }
  rewrite wrap64_small by (unfold min_int64; lia).
  done.
Qed.

Lemma Update_never_panics (ps : gmap gostring Progress) id v :
  exists ps', ProgressStore.Update ps id v = inr ps'.
Proof.
  unfold ProgressStore.Update. destruct (ps !! id) as [p|]; [|by eexists].
  cbn [TotalBytes set_UploadedBytes].
  destruct (0 <? TotalBytes p) eqn:HT; [|by eexists].
  apply Z.ltb_lt in HT. unfold quot64.
  destruct (TotalBytes p =? 0) eqn:H0; [apply Z.eqb_eq in H0; lia|].
  by eexists.
Qed.

Lemma updated_updated p v w : updated (updated p v) w = updated p w.
Proof. unfold updated. cbn. by destruct (0 <? TotalBytes p). Qed.

(** C4 (amended).  [Update] takes the cumulative byte count, not a delta:
    after any sequence of calls with non-negative values whose hundredfold
    fits an int64, the record's transferred-byte count is the value of the
    last call, its percentage is [floor(last*100/total)] when the total is
    positive and is left as it was when the total is not positive, every
    other record is untouched, and no call divides by zero, whatever its
    arguments. *)
Theorem Update_sets_last_value (ps : gmap gostring Progress) id p vs v :
  ps !! id = Some p ->
  Forall (fun x => 0 <= x /\ x * 100 <= max_int64) (vs ++ [v]) ->
  (exists ps',
      ProgressStore.Updates ps id (vs ++ [v]) = inr ps'
      /\ ps' !! id
         = Some (mkProgress (ID p) (Filename p)
                   (if 0 <? TotalBytes p then (v * 100) / TotalBytes p
                    else Percent p)
                   v (TotalBytes p) (Status p) (Error p))
      /\ forall j, j <> id -> ps' !! j = ps !! j)
  /\ (forall (ps0 : gmap gostring Progress) id0 v0,
        exists ps1, ProgressStore.Update ps0 id0 v0 = inr ps1).
Proof.
  intros Hp Hall. split; [|apply Update_never_panics].
  revert ps p Hp Hall. induction vs as [|w vs IH]; intros ps p Hp Hall.
  - inversion Hall as [|? ? [Hv Hmax] _]; subst. cbn [app ProgressStore.Updates].
    rewrite (Update_present ps id p v) by done.
    eexists. split; [done|]. split.
    + by rewrite lookup_insert_eq.
    + intros j Hj. by rewrite lookup_insert_ne.
  - inversion Hall as [|? ? [Hw Hmax] Hrest]; subst.
    cbn [app ProgressStore.Updates].
    rewrite (Update_present ps id p w) by done.
    destruct (IH (<[id := updated p w]> ps) (updated p w))
      as (ps' & Hrun & Hrec & Hother); [by rewrite lookup_insert_eq|done|].
    exists ps'. split; [done|]. split.
    + rewrite Hrec. cbn. by destruct (0 <? TotalBytes p).
    + intros j Hj. rewrite (Hother j Hj). by rewrite lookup_insert_ne.
Qed.

(** The amended C4 applied to a record of total 100 and the calls
    [Update 10], [Update 20]. *)
Lemma Update_sets_last_value_witness :
  sample_store !! ("op" : gostring) = Some sample_progress
  /\ Forall (fun x => 0 <= x /\ x * 100 <= max_int64) ([10] ++ [20])
  /\ exists ps',
      ProgressStore.Updates sample_store "op" ([10] ++ [20]) = inr ps'
      /\ ps' !! ("op" : gostring)
         = Some (mkProgress "op" "a.bin" 20 20 100 StatusUploading "").
Proof.
  assert (sample_store !! ("op" : gostring) = Some sample_progress) as Hp
    by reflexivity.
  assert (Forall (fun x => 0 <= x /\ x * 100 <= max_int64) ([10] ++ [20])) as Hall
    by (repeat constructor; unfold max_int64; lia).
  split; [exact Hp|]. split; [exact Hall|].
  destruct (Update_sets_last_value sample_store "op" sample_progress [10] 20 Hp Hall)
    as [(ps' & Hrun & Hrec & _) _].
  exists ps'. split; [exact Hrun|exact Hrec].
Defined.

(** C4 as stated fails: after [Update 10] and [Update 20] the transferred
    count is 20, the last value, not the sum 30; likewise the percentage. *)
Lemma Update_is_not_additive :
  exists ps',
    ProgressStore.Updates sample_store "op" [10; 20] = inr ps'
    /\ UploadedBytes <$> ps' !! ("op" : gostring) = Some 20
    /\ Percent <$> ps' !! ("op" : gostring) = Some 20
    /\ 20 <> 10 + 20.
Proof.
  eexists. split; [reflexivity|]. split; [reflexivity|]. split; [reflexivity|lia].
Qed.

(** C10.  [Update] on an identifier without a record returns normally and
    leaves the store exactly as it was: no record is created and none is
    modified. *)
Theorem Update_absent_noop (ps : gmap gostring Progress) id v :
  ps !! id = None -> ProgressStore.Update ps id v = inr ps.
Proof. intros Hid. unfold ProgressStore.Update. by rewrite Hid. Qed.

Lemma Update_absent_noop_witness :
  sample_store !! ("other" : gostring) = None
  /\ ProgressStore.Update sample_store "other" 512 = inr sample_store.
Proof.
  assert (sample_store !! ("other" : gostring) = None) as Hid by reflexivity.
  split; [exact Hid|]. exact (Update_absent_noop sample_store "other" 512 Hid).
Defined.

(** ** Chunk sessions *)

(** C8.  For a session identifier that is not in the chunk store, both
    [UploadChunk] and [finalizeChunkedUpload] return [ErrNotFound] and
    leave the whole state -- chunk store, progress store and file system --
    as it was. *)
Theorem missing_session_not_found h s st uploadID chunkIndex data :
  chunkStore st !! uploadID = None ->
  UploadChunk h s st uploadID chunkIndex data = (st, Some ErrNotFound)
  /\ finalizeChunkedUpload h s st uploadID = (st, Some ErrNotFound).
Proof.
  intros Hid. unfold UploadChunk, finalizeChunkedUpload. by rewrite Hid.
Qed.

Lemma missing_session_not_found_witness :
  chunkStore sample_state !! ("s2" : gostring) = None
  /\ UploadChunk sample_host sample_service sample_state "s2" 0 [x61]
     = (sample_state, Some ErrNotFound)
  /\ finalizeChunkedUpload sample_host sample_service sample_state "s2"
     = (sample_state, Some ErrNotFound).
Proof.
  assert (chunkStore sample_state !! ("s2" : gostring) = None) as Hid by reflexivity.
  split; [exact Hid|].
  exact (missing_session_not_found sample_host sample_service sample_state
           "s2" 0 [x61] Hid).
Defined.

(** C9.  Submitting a chunk whose index the session has already received
    leaves the session as it was: the set of received indices and hence the
    received count are unchanged, the byte count handed to the progress
    store is [reported] of the unchanged session, and finalization runs
    exactly when the unchanged count equals [TotalChunks]; otherwise the
    call returns without error, with the chunk store as before. *)
Theorem UploadChunk_duplicate_index h s st uploadID c chunkIndex data fs1 :
  chunkStore st !! uploadID = Some c ->
  ChunkUpload.Chunks c !! chunkIndex = Some true ->
  os.WriteFile (fs st) (chunkPath (ChunkUpload.TempDir c) chunkIndex) data = Ok fs1 ->
  exists ps,
    ProgressStore.Update (progressStore st) uploadID (reported c) = inr ps
    /\ UploadChunk h s st uploadID chunkIndex data
       = (if received c =? ChunkUpload.TotalChunks c
          then finalizeChunkedUpload h s (mkState fs1 ps (chunkStore st)) uploadID
          else (mkState fs1 ps (chunkStore st), None)).
Proof.
  intros Hc Hidx Hw.
  destruct (Update_never_panics (progressStore st) uploadID (reported c)) as [ps Hps].
  exists ps. split; [done|].
  unfold UploadChunk. rewrite Hc, Hw.
  rewrite (insert_id (ChunkUpload.Chunks c) chunkIndex true Hidx).
  assert (ChunkUpload.set_Chunks (ChunkUpload.Chunks c) c = c) as -> by by destruct c.
  rewrite (insert_id (chunkStore st) uploadID c Hc).
  cbn [progressStore]. fold (received c). fold (reported c). rewrite Hps.
  reflexivity.
Qed.

Lemma UploadChunk_duplicate_index_witness :
  chunkStore sample_state !! ("s1" : gostring) = Some sample_session
  /\ ChunkUpload.Chunks sample_session !! 0 = Some true
  /\ exists ps,
      ProgressStore.Update (progressStore sample_state) "s1" (reported sample_session)
      = inr ps
      /\ UploadChunk sample_host sample_service sample_state "s1" 0 [x62]
         = (mkState (<[("/tmp/filemanager-chunks/s1/0" : gostring) := NFile [x62]]>
                       (fs sample_state))
              ps (chunkStore sample_state), None).
Proof.
  split; [reflexivity|]. split; [reflexivity|].
  exact (UploadChunk_duplicate_index sample_host sample_service sample_state
           "s1" sample_session 0 [x62] _ eq_refl eq_refl eq_refl).
Defined.

(** ** Unique names *)

Lemma take_to_sep_app t r :
  sep ∉ t -> take_to_sep (t ++ r) = t ++ take_to_sep r.
Proof.
  induction t as [|c t IH]; intros Ht; [done|].
  apply not_elem_of_cons in Ht as [Hc Ht]. simpl.
  assert (is_sep c = false) as -> by (apply is_sep_false; congruence).
  by rewrite IH.
Qed.

Lemma not_elem_of_rev (c : ascii) l : c ∉ l -> c ∉ rev l.
Proof. intros H Hin. apply H. by apply list_elem_of_In, in_rev, list_elem_of_In. Qed.

Lemma last_elem_app a t : sep ∉ t -> last_elem (a ++ t) = last_elem a ++ t.
Proof.
  intros Ht. unfold last_elem.
  rewrite rev_app_distr, take_to_sep_app by by apply not_elem_of_rev.
  by rewrite rev_app_distr, rev_involutive.
Qed.

Lemma last_elem_sep a e : sep ∉ e -> last_elem (a ++ sep :: e) = e.
Proof.
  intros He. change (a ++ sep :: e) with (a ++ [sep] ++ e).
  rewrite app_assoc, last_elem_app by done.
  unfold last_elem. rewrite rev_app_distr. by cbn.
Qed.

Lemma last_elem_nosep e : sep ∉ e -> last_elem e = e.
Proof. intros He. by rewrite <- (app_nil_l e), last_elem_app. Qed.

Lemma last_elem_join l e : sep ∉ e -> last_elem (join (l ++ [e])) = e.
Proof.
  intros He. destruct (decide (l = [])) as [->|Hl].
  - by apply last_elem_nosep.
  - rewrite join_app by done. by apply last_elem_sep.
Qed.

Lemma split_last s : exists init, split s = init ++ [last_elem s].
Proof.
  pose proof (split_nonempty s) as Hne. pose proof (split_elems_nosep s) as Hall.
  pose proof (join_split s) as Hj.
  assert (exists init e, split s = init ++ [e]) as (init & e & Heq).
  { destruct (split s) as [|e l] using rev_ind; [done|]. by exists l, e. }
  rewrite Heq in Hall, Hj |- *.
  apply Forall_app in Hall as [_ He]. inversion He; subst.
  exists init. by rewrite last_elem_join.
Qed.

(** [Clean] keeps a last element that is a real path element. *)
Lemma last_elem_Clean s :
  last_elem s <> [] -> last_elem s <> [dot] -> last_elem s <> dotdot ->
  last_elem (Clean s) = last_elem s.
Proof.
  intros H1 H2 H3. destruct (split_last s) as [init Hsplit].
  assert (sep ∉ last_elem s) as Hsep.
  { pose proof (split_elems_nosep s) as Hall. rewrite Hsplit in Hall.
    apply Forall_app in Hall as [_ He]. by inversion He. }
  assert (plain (last_elem s)) as Hplain by done.
  destruct s as [|c s]; [done|]. unfold Clean.
  rewrite Hsplit, clean_loop_app, clean_loop_plain_cons by done. cbn [clean_loop rev].
  set (l := rev (clean_loop (IsAbs (c :: s)) [] init)).
  unfold render. destruct (IsAbs (c :: s)).
  - destruct (decide (l = [])) as [->|Hl].
    + cbn [app join]. by apply (last_elem_sep []).
    + rewrite join_app by done. rewrite app_comm_cons. by apply last_elem_sep.
  - destruct (l ++ [last_elem (c :: s)]) eqn:Heq; [by destruct l|].
    rewrite <- Heq. by apply last_elem_join.
Qed.

Lemma string_of_uint_nosep d :
  sep ∉ list_ascii_of_string (NilEmpty.string_of_uint d).
Proof.
  induction d; simpl; rewrite ?not_elem_of_cons;
    try (split; [discriminate|done]). apply not_elem_of_nil.
Qed.

Lemma itoa_nosep k : sep ∉ itoa k.
Proof.
  unfold itoa. destruct (Z.to_int k); simpl.
  - apply string_of_uint_nosep.
  - rewrite not_elem_of_cons. split; [discriminate|apply string_of_uint_nosep].
Qed.

Lemma itoa_inj a b : itoa a = itoa b -> a = b.
Proof.
  unfold itoa. intros H.
  apply (f_equal string_of_list_ascii) in H.
  rewrite !string_of_list_ascii_of_string in H.
  apply (f_equal NilEmpty.int_of_string) in H. rewrite !NilEmpty.isi in H.
  injection H as H. by apply DecimalZ.to_int_inj.
Qed.

Lemma ext_scan_nosep r acc : sep ∉ acc -> sep ∉ ext_scan r acc.
Proof.
  revert acc. induction r as [|c r IH]; intros acc Hacc; simpl.
  - apply not_elem_of_nil.
  - destruct (is_sep c) eqn:Hc; [apply not_elem_of_nil|].
    apply is_sep_false in Hc.
    assert (sep ∉ c :: acc) by (apply not_elem_of_cons; split; [congruence|done]).
    destruct (Ascii.eqb c dot); [done|by apply IH].
Qed.

Lemma Ext_nosep path : sep ∉ Ext path.
Proof. apply ext_scan_nosep, not_elem_of_nil. Qed.

Lemma Clean_nonempty s : Clean s <> [].
Proof.
  destruct (decide (s = [])) as [->|Hne]; [done|].
  destruct (Clean_shape s Hne) as (k & ps & -> & Hps & _).
  unfold render. destruct (IsAbs s); [done|].
  pose proof (normal_solid k ps Hps) as Hs.
  destruct (replicate k dotdot ++ ps) as [|e l]; [done|].
  inversion Hs as [|? ? [? _] _]; subst. by apply join_cons_nonempty.
Qed.

Lemma Dir_nonempty path : Dir path <> [].
Proof. apply Clean_nonempty. Qed.

Lemma underscore_real (a b : gostring) :
  let e := a ++ "_" ++ b in e <> [] /\ e <> [dot] /\ e <> dotdot.
Proof.
  assert ("_"%char ∈ a ++ "_" ++ b) as Hin.
  { apply elem_of_app. right. apply elem_of_cons. by left. }
  cbn zeta. repeat split; intros Heq; rewrite Heq in Hin;
    repeat (apply elem_of_cons in Hin as [Hin|Hin]; [discriminate|]);
    by apply elem_of_nil in Hin.
Qed.

(** The last element of a candidate: the original last element with the
    counter inserted before the extension. *)
Lemma candidate_last dir name ext k :
  dir <> [] -> sep ∉ ext ->
  last_elem (candidate dir name ext k)
  = last_elem (dir ++ sep :: name) ++ "_" ++ itoa k ++ ext.
Proof.
  intros Hdir Hext. unfold candidate, Join.
  destruct (decide (dir = [])) as [?|_]; [done|].
  change (join [dir; name ++ "_" ++ itoa k ++ ext])
    with (dir ++ sep :: name ++ "_" ++ itoa k ++ ext).
  assert (sep ∉ ("_" : gostring) ++ itoa k ++ ext) as Ht.
  { rewrite !not_elem_of_app. split; [|split; [apply itoa_nosep|done]].
    change (sep ∉ ["_"%char]).
    rewrite not_elem_of_cons. split; [discriminate|apply not_elem_of_nil]. }
  assert (last_elem (dir ++ sep :: name ++ "_" ++ itoa k ++ ext)
          = last_elem (dir ++ sep :: name) ++ "_" ++ itoa k ++ ext) as Hlast.
  { rewrite <- (last_elem_app _ _ Ht). f_equal.
    by rewrite <- app_assoc, <- app_comm_cons. }
  destruct (underscore_real (last_elem (dir ++ sep :: name)) (itoa k ++ ext))
    as (H1 & H2 & H3).
  rewrite last_elem_Clean; rewrite Hlast; done.
Qed.

Lemma candidate_inj dir name ext j1 j2 :
  dir <> [] -> sep ∉ ext ->
  candidate dir name ext j1 = candidate dir name ext j2 -> j1 = j2.
Proof.
  intros Hdir Hext Heq. apply (f_equal last_elem) in Heq.
  rewrite !candidate_last in Heq by done.
  apply app_inv_head in Heq. apply app_inv_head in Heq.
  apply app_inv_tail in Heq. by apply itoa_inj.
Qed.

Lemma candidate_not_root dir name ext k :
  dir <> [] -> sep ∉ ext -> candidate dir name ext k <> [sep].
Proof.
  intros Hdir Hext Heq. apply (f_equal last_elem) in Heq.
  rewrite candidate_last in Heq by done.
  destruct (underscore_real (last_elem (dir ++ sep :: name)) (itoa k ++ ext))
    as (H1 & _). by apply H1.
Qed.

(** As many candidates as exist, as many entries the file system has. *)
Lemma candidates_exist_bound (f : gmap gostring node) dir name ext (n : nat) :
  dir <> [] -> sep ∉ ext ->
  (forall j, 1 <= j <= Z.of_nat n -> PathExists f (candidate dir name ext j) = true) ->
  (n <= size f)%nat.
Proof.
  intros Hdir Hext Hall.
  set (g := fun i : nat => candidate dir name ext (Z.of_nat (S i))).
  assert (Inj (=) (=) g) as Hinj.
  { intros i1 i2 Hg. apply candidate_inj in Hg; [lia|done|done]. }
  assert (NoDup (g <$> seq 0 n)) as Hnd by (apply NoDup_fmap_2; [done|apply NoDup_seq]).
  assert (list_to_set (g <$> seq 0 n) ⊆ dom f) as Hsub.
  { intros p Hp. apply elem_of_list_to_set, list_elem_of_fmap in Hp as (i & -> & Hi).
    apply elem_of_seq in Hi. apply elem_of_dom.
    specialize (Hall (Z.of_nat (S i)) ltac:(lia)).
    unfold PathExists, os.Stat in Hall. fold (g i) in Hall.
    destruct (decide (g i = [sep])) as [Heq|_];
      [by apply candidate_not_root in Heq|].
    by destruct (f !! g i). }
  apply subseteq_size in Hsub.
  rewrite size_list_to_set, length_fmap, length_seq, size_dom in Hsub; done.
Qed.

Lemma add64_succ c : 0 <= c < max_int64 -> add64 c 1 = c + 1.
Proof.
  intros Hc. unfold add64. apply wrap64_small. unfold min_int64, max_int64 in *. lia.
Qed.

(** The loop returns the first candidate that does not exist, or runs out
    of fuel when all candidates within reach exist. *)
Lemma unique_loop_cases f dir name ext fuel c :
  0 <= c -> c + Z.of_nat fuel <= max_int64 ->
  (exists k, c <= k < c + Z.of_nat fuel
     /\ unique_loop f dir name ext c fuel = Some (candidate dir name ext k)
     /\ PathExists f (candidate dir name ext k) = false
     /\ forall j, c <= j < k -> PathExists f (candidate dir name ext j) = true)
  \/ (unique_loop f dir name ext c fuel = None
      /\ forall j, c <= j < c + Z.of_nat fuel ->
           PathExists f (candidate dir name ext j) = true).
Proof.
  revert c. induction fuel as [|fuel IH]; intros c Hc Hmax.
  - right. split; [done|]. intros j Hj. lia.
  - cbn [unique_loop].
    destruct (PathExists f (candidate dir name ext c)) eqn:Hex; cbn [negb].
    + rewrite add64_succ by lia.
      destruct (IH (c + 1)) as [(k & Hk & Hrun & Hfree & Hbelow)|[Hrun Hall]]; [lia|lia| |].
      * left. exists k. split; [lia|]. split; [done|]. split; [done|].
        intros j Hj. destruct (decide (j = c)) as [->|Hne]; [done|].
        apply Hbelow. lia.
      * right. split; [done|]. intros j Hj.
        destruct (decide (j = c)) as [->|Hne]; [done|]. apply Hall. lia.
    + left. exists c. split; [lia|]. split; [done|]. split; [done|].
      intros j Hj. lia.
Qed.

(** [GenerateUniqueName] on an existing path returns the candidate with the
    least counter, from 1 on, whose path does not exist. *)
Lemma GenerateUniqueName_first_unused (f : gmap gostring node) path :
  Z.of_nat (size f) + 2 <= max_int64 ->
  PathExists f path = true ->
  let dir := Dir path in
  let ext := Ext path in
  let name := TrimSuffix (Base path) ext in
  exists k,
    1 <= k
    /\ GenerateUniqueName f path = Some (candidate dir name ext k)
    /\ PathExists f (candidate dir name ext k) = false
    /\ forall j, 1 <= j < k -> PathExists f (candidate dir name ext j) = true.
Proof.
  intros Hsize Hex dir ext name.
  unfold GenerateUniqueName, GenerateUniqueName_fuel. rewrite Hex. cbn [negb].
  fold dir ext name.
  destruct (unique_loop_cases f dir name ext (S (size f)) 1)
    as [(k & Hk & Hrun & Hfree & Hbelow)|[_ Hall]]; [lia|lia| |].
  - exists k. split; [lia|]. by split.
  - exfalso.
    assert (S (size f) <= size f)%nat; [|lia].
    apply (candidates_exist_bound f dir name ext);
      [apply Dir_nonempty|apply Ext_nosep|].
    intros j Hj. apply Hall. lia.
Qed.

Lemma GenerateUniqueName_free (f : gmap gostring node) path :
  PathExists f path = false -> GenerateUniqueName f path = Some path.
Proof.
  intros Hex. unfold GenerateUniqueName, GenerateUniqueName_fuel. by rewrite Hex.
Qed.

(** ** The file system *)

Lemma Stat_insert_ne (f : gmap gostring node) p q n :
  p <> q -> os.Stat (<[p := n]> f) q = os.Stat f q.
Proof. intros Hne. unfold os.Stat. by rewrite lookup_insert_ne. Qed.

(** [mkdir_chain] only adds directories where there was nothing. *)
Lemma mkdir_chain_frame dirs : forall (f f' : gmap gostring node),
  os.mkdir_chain f dirs = Ok f' ->
  forall q, f' !! q = f !! q \/ (f !! q = None /\ f' !! q = Some NDir).
Proof.
  induction dirs as [|d dirs IH]; intros f f' Hrun q; cbn [os.mkdir_chain] in Hrun.
  - injection Hrun as <-. by left.
  - destruct (os.Stat f d) as [[data|]|e] eqn:Hst; [done| |].
    + by apply IH.
    + destruct (IH _ _ Hrun q) as [Heq|[Hnone Hdir]].
      * destruct (decide (d = q)) as [->|Hne].
        -- right. rewrite lookup_insert_eq in Heq. split; [|done].
           unfold os.Stat in Hst. destruct (decide (q = [sep])); [done|].
           by destruct (f !! q).
        -- left. by rewrite lookup_insert_ne in Heq.
      * right. split; [|done].
        destruct (decide (d = q)) as [->|Hne];
          [by rewrite lookup_insert_eq in Hnone|by rewrite lookup_insert_ne in Hnone].
Qed.

Lemma MkdirAll_frame (f f' : gmap gostring node) p :
  os.MkdirAll f p = Ok f' ->
  forall q, f' !! q = f !! q \/ (f !! q = None /\ f' !! q = Some NDir).
Proof.
  unfold os.MkdirAll. intros Hrun q.
  destruct (os.Stat f p) as [[data|]|e]; [done| |].
  - injection Hrun as <-. by left.
  - by eapply mkdir_chain_frame.
Qed.

Lemma frame_Stat_dir (f f' : gmap gostring node) d :
  (forall q, f' !! q = f !! q \/ (f !! q = None /\ f' !! q = Some NDir)) ->
  os.Stat f d = Ok NDir -> os.Stat f' d = Ok NDir.
Proof.
  intros Hframe. unfold os.Stat. destruct (decide (d = [sep])); [done|].
  destruct (Hframe d) as [->|[-> ->]]; done.
Qed.

Lemma mkdir_chain_post dirs : forall (f f' : gmap gostring node),
  os.mkdir_chain f dirs = Ok f' ->
  forall d, d ∈ dirs -> os.Stat f' d = Ok NDir.
Proof.
  induction dirs as [|d0 dirs IH]; intros f f' Hrun d Hd.
  - by apply elem_of_nil in Hd.
  - cbn [os.mkdir_chain] in Hrun.
    apply elem_of_cons in Hd as [->|Hd].
    + destruct (os.Stat f d0) as [[data|]|e] eqn:Hst; [done| |].
      * eapply frame_Stat_dir; [by eapply mkdir_chain_frame|done].
      * eapply frame_Stat_dir; [by eapply mkdir_chain_frame|].
        unfold os.Stat. rewrite lookup_insert_eq. by destruct (decide (d0 = [sep])).
    + destruct (os.Stat f d0) as [[data|]|e]; [done| |]; by eapply IH.
Qed.

Lemma leading_dirs_self p : p <> [] -> p ∈ os.leading_dirs p.
Proof.
  intros Hne. unfold os.leading_dirs. apply list_elem_of_filter. split; [done|].
  apply list_elem_of_fmap. exists (length (split p)). split.
  - by rewrite firstn_all, join_split.
  - apply elem_of_seq. pose proof (split_nonempty p).
    destruct (split p); [done|]. simpl. lia.
Qed.

(** After [MkdirAll] the path is a directory. *)
Lemma MkdirAll_post (f f' : gmap gostring node) p :
  p <> [] -> os.MkdirAll f p = Ok f' -> os.Stat f' p = Ok NDir.
Proof.
  intros Hne. unfold os.MkdirAll.
  destruct (os.Stat f p) as [[data|]|e] eqn:Hst; [done| |].
  - by intros [= <-].
  - intros Hrun. eapply mkdir_chain_post; [done|]. by apply leading_dirs_self.
Qed.

(** ** Copying through a buffer *)

Lemma concat_buffers_aux n data : forall k cur,
  concat (buffers_aux n k cur data) = rev cur ++ data.
Proof.
  induction data as [|b rest IH]; intros k cur; cbn [buffers_aux].
  - destruct cur; [done|]. cbn [concat]. by rewrite !app_nil_r.
  - destruct k as [|[|k]]; cbn [concat]; rewrite IH; cbn [rev];
      by rewrite <- ?app_assoc.
Qed.

Lemma concat_buffers n data : concat (buffers n data) = data.
Proof. unfold buffers. by rewrite concat_buffers_aux. Qed.

Lemma Write_file (f : gmap gostring node) p old buf :
  f !! p = Some (NFile old) -> os.Write f p buf = <[p := NFile (old ++ buf)]> f.
Proof. intros Hp. unfold os.Write. by rewrite Hp. Qed.

Lemma bump_progress_never_panics (ps : gmap gostring Progress) id newVal totalSize :
  exists ps', bump_progress ps id newVal totalSize = inr ps'.
Proof.
  unfold bump_progress. destruct (0 <? totalSize) eqn:HT; [|by eexists].
  apply Z.ltb_lt in HT. unfold quot64.
  destruct (totalSize =? 0) eqn:H0; [apply Z.eqb_eq in H0; lia|].
  destruct (ProgressStore.Get ps id); by eexists.
Qed.

(** The copy loop of [extractFile] appends all the bytes to the file and
    returns without error. *)
Lemma extract_copy_writes bufs : forall (f : gmap gostring node) ps id p eb total old,
  f !! p = Some (NFile old) ->
  exists ps' eb',
    extract_copy f ps id p eb total bufs
    = (<[p := NFile (old ++ concat bufs)]> f, ps', eb', None).
Proof.
  induction bufs as [|buf bufs IH]; intros f ps id p eb total old Hp;
    cbn [extract_copy concat].
  - exists ps, eb. rewrite app_nil_r. by rewrite insert_id.
  - destruct (bump_progress_never_panics ps id (add64 eb (Z.of_nat (length buf))) total)
      as [ps1 ->].
    rewrite (Write_file f p old buf Hp).
    destruct (IH (<[p := NFile (old ++ buf)]> f) ps1 id p
                (add64 eb (Z.of_nat (length buf))) total (old ++ buf))
      as (ps' & eb' & ->); [by rewrite lookup_insert_eq|].
    exists ps', eb'. by rewrite insert_insert_eq, <- app_assoc.
Qed.

Lemma upload_copy_writes bufs :
  forall (f : gmap gostring node) (pw : ProgressWriter.t)
         (ps : gmap gostring Progress) (id p : gostring) (old : list byte),
  f !! p = Some (NFile old) ->
  exists pw' ps',
    upload_copy f pw ps id p bufs
    = (<[p := NFile (old ++ concat bufs)]> f, pw', ps').
Proof.
  induction bufs as [|buf bufs IH]; intros f pw ps id p old Hp;
    cbn [upload_copy concat].
  - exists pw, ps. rewrite app_nil_r. by rewrite insert_id.
  - destruct (ProgressWriter.Write _ pw _ ps) as [pw1 ps1].
    rewrite (Write_file f p old buf Hp).
    destruct (IH (<[p := NFile (old ++ buf)]> f) pw1 ps1 id p (old ++ buf))
      as (pw' & ps' & ->); [by rewrite lookup_insert_eq|].
    exists pw', ps'. by rewrite insert_insert_eq, <- app_assoc.
Qed.

Lemma write_file_Ok (f f' : gmap gostring node) p data :
  os.write_file f p data = Ok f' -> f' = <[p := NFile data]> f.
Proof.
  unfold os.write_file. intros H.
  destruct (os.Stat f p) as [[?|]|?]; [|done|];
    destruct (os.Stat f (Dir p)) as [[?|]|?]; congruence.
Qed.

(** [Upload] of a file whose target exists writes the bytes at the name
    [GenerateUniqueName] returns. *)
Lemma Upload_writes_unique (h : host) (s : service) (st : state) (uploadID filename destination : gostring)
    (data : list byte) (declared : Z) (destPath target : gostring)
    (f f2 : gmap gostring node) :
  ValidatePath (Getwd h) (basePath s) destination = Ok destPath ->
  os.MkdirAll (fs st) destPath = Ok f ->
  PathExists f (Join [destPath; filename]) = true ->
  GenerateUniqueName f (Join [destPath; filename]) = Some target ->
  os.Create f target = Ok f2 ->
  exists ps,
    Upload h s st uploadID filename destination (data, None) declared
    = (mkState (<[target := NFile data]> f) ps (chunkStore st), uploadID, None).
Proof.
  intros Hv Hmk Hex Hgen Hcr. unfold Upload. rewrite Hv, Hmk, Hex, Hgen, Hcr.
  apply write_file_Ok in Hcr as ->. cbn [fst snd].
  edestruct (upload_copy_writes (buffers DefaultBufferSize data)
               (<[target := NFile []]> f)) as (pw & ps & ->);
    [by rewrite lookup_insert_eq|].
  rewrite concat_buffers, insert_insert_eq. cbn [app]. by eexists.
Qed.

Lemma HasPrefix_length s pre : HasPrefix s pre = true -> (length pre <= length s)%nat.
Proof. intros H. apply bool_decide_eq_true in H. by apply prefix_length. Qed.

(** [extractFile] never renames: the bytes of a file entry go to the joined
    path itself, replacing a file that is already there. *)
Lemma extractFile_writes_in_place (h : host) (s : service) (st : state)
    (zf : ZipFile) (destPath : gostring) (eb total : Z)
    (id : gostring) (data : list byte) (f : gmap gostring node) :
  HasPrefix (Join [destPath; Name zf]) (Clean destPath ++ [sep]) = true ->
  ZipFile_IsDir zf = false ->
  os.MkdirAll (fs st) (Dir (Join [destPath; Name zf])) = Ok f ->
  Body zf = Ok data ->
  f !! Join [destPath; Name zf] <> Some NDir ->
  exists ps eb',
    extractFile h s st zf destPath eb total id
    = (mkState (<[Join [destPath; Name zf] := NFile data]> f) ps (chunkStore st),
       eb', None).
Proof.
  intros Hpre Hdir Hmk Hbody Hnd. unfold extractFile.
  rewrite Hpre, Hdir, Hmk, Hbody. cbn [negb].
  set (p := Join [destPath; Name zf]) in *.
  assert (p <> [sep]) as Hroot.
  { intros Heq. apply HasPrefix_length in Hpre. rewrite Heq, length_app in Hpre.
    pose proof (Clean_nonempty destPath). destruct (Clean destPath); [done|].
    simpl in Hpre. lia. }
  assert (os.write_file f p [] = Ok (<[p := NFile []]> f)) as ->.
  { unfold os.write_file.
    rewrite (MkdirAll_post _ _ _ (Dir_nonempty p) Hmk).
    unfold os.Stat. destruct (decide (p = [sep])); [done|].
    by destruct (f !! p) as [[?|]|]. }
  edestruct (extract_copy_writes (buffers DefaultBufferSize data)
               (<[p := NFile []]> f)) as (ps & eb' & ->);
    [by rewrite lookup_insert_eq|].
  rewrite concat_buffers, insert_insert_eq. cbn [app]. by eexists _, _.
Qed.

(** C5 (amended).  When the target of a single-file upload already exists,
    [GenerateUniqueName] returns the target's name with [_k] inserted before
    the extension, for the least [k] from 1 on whose path does not exist,
    and [Upload] writes the new file there.  Archive extraction does not
    rename: [extractFile] writes a file entry at the joined path itself and
    replaces a file that already exists there. *)
Theorem unique_name_on_collision (f : gmap gostring node) path :
  Z.of_nat (size f) + 2 <= max_int64 ->
  PathExists f path = true ->
  (exists k,
      1 <= k
      /\ GenerateUniqueName f path
         = Some (candidate (Dir path) (TrimSuffix (Base path) (Ext path)) (Ext path) k)
      /\ PathExists f
           (candidate (Dir path) (TrimSuffix (Base path) (Ext path)) (Ext path) k)
         = false
      /\ forall j, 1 <= j < k ->
           PathExists f
             (candidate (Dir path) (TrimSuffix (Base path) (Ext path)) (Ext path) j)
           = true)
  /\ (forall (h : host) (s : service) (st : state) (uploadID filename destination : gostring) (data : list byte)
             (declared : Z) (destPath target : gostring) (f2 : gmap gostring node),
        ValidatePath (Getwd h) (basePath s) destination = Ok destPath ->
        os.MkdirAll (fs st) destPath = Ok f ->
        Join [destPath; filename] = path ->
        GenerateUniqueName f path = Some target ->
        os.Create f target = Ok f2 ->
        exists ps,
          Upload h s st uploadID filename destination (data, None) declared
          = (mkState (<[target := NFile data]> f) ps (chunkStore st), uploadID, None))
  /\ (forall (h : host) (s : service) (st : state) (zf : ZipFile)
             (destPath : gostring) (eb total : Z) (id : gostring)
             (data : list byte),
        Join [destPath; Name zf] = path ->
        HasPrefix path (Clean destPath ++ [sep]) = true ->
        ZipFile_IsDir zf = false ->
        os.MkdirAll (fs st) (Dir path) = Ok f ->
        Body zf = Ok data ->
        f !! path <> Some NDir ->
        exists ps eb',
          extractFile h s st zf destPath eb total id
          = (mkState (<[path := NFile data]> f) ps (chunkStore st), eb', None)).
Proof.
  intros Hsize Hex. split; [by apply GenerateUniqueName_first_unused|]. split.
  - intros h s st uploadID filename destination data declared destPath target f2
      Hv Hmk <- Hgen Hcr.
    by eapply Upload_writes_unique.
  - intros h s st zf destPath eb total id data <- Hpre Hdir Hmk Hbody Hnd.
    by apply extractFile_writes_in_place.
Qed.

(** The amended C5 where [report.txt] and [report_1.txt] exist. *)
Lemma unique_name_on_collision_witness :
  Z.of_nat (size sample_home) + 2 <= max_int64
  /\ PathExists sample_home "/home/alice/report.txt" = true
  /\ exists k,
      1 <= k
      /\ GenerateUniqueName sample_home "/home/alice/report.txt"
         = Some (candidate "/home/alice" "report" ".txt" k).
Proof.
  assert (Z.of_nat (size sample_home) + 2 <= max_int64) as Hsize by by vm_compute.
  assert (PathExists sample_home "/home/alice/report.txt" = true) as Hex by reflexivity.
  split; [exact Hsize|]. split; [exact Hex|].
  destruct (unique_name_on_collision sample_home "/home/alice/report.txt" Hsize Hex)
    as [(k & Hk & Hgen & _) _].
  exists k. split; [exact Hk|exact Hgen].
Defined.

(** With [report.txt] and [report_1.txt] in place the next name is
    [report_2.txt]. *)
Example GenerateUniqueName_report_2 :
  GenerateUniqueName sample_home "/home/alice/report.txt"
  = Some ("/home/alice/report_2.txt" : gostring).
Proof. reflexivity. Qed.

(** C5 as stated fails for archive extraction: extracting an entry
    [report.txt] into a directory that already holds [report.txt] replaces
    the file's content and creates no [report_1.txt]. *)
Lemma Extract_overwrites_existing :
  let run :=
    Extract (host_with_archive [report_entry]) sample_service sample_archive_state
      "x1" "in.zip" "out" in
  run.2 = None
  /\ fs sample_archive_state !! ("/home/alice/out/report.txt" : gostring)
     = Some (NFile [x6f; x6c; x64])
  /\ fs run.1.1 !! ("/home/alice/out/report.txt" : gostring)
     = Some (NFile [x6e; x65; x77])
  /\ fs run.1.1 !! ("/home/alice/out/report_1.txt" : gostring) = None.
Proof. cbv zeta. repeat split; vm_compute; reflexivity. Qed.

(** ** Extraction *)

Lemma files_kept_refl (f : gmap gostring node) q : files_kept f f q.
Proof. by left. Qed.

Lemma files_kept_trans (f1 f2 f3 : gmap gostring node) q :
  files_kept f1 f2 q -> files_kept f2 f3 q -> files_kept f1 f3 q.
Proof.
  unfold files_kept. intros [H12|[H1 H2]] [H23|[H2' H3]].
  - left. congruence.
  - right. split; congruence.
  - right. split; congruence.
  - congruence.
Qed.

(** A file entry is written at its joined path only, which lies under the
    destination; whatever else changes is a directory that was created. *)
Lemma extractFile_frame (h : host) (s : service) (st : state) (zf : ZipFile)
    (destPath : gostring) (eb total : Z) (id q : gostring) :
  HasPrefix q (Clean destPath ++ [sep]) = false ->
  files_kept (fs st) (fs (extractFile h s st zf destPath eb total id).1.1) q.
Proof.
  intros Hq. unfold extractFile.
  set (p := Join [destPath; Name zf]).
  destruct (HasPrefix p (Clean destPath ++ [sep])) eqn:Hp; cbn [negb];
    [|apply files_kept_refl].
  assert (p <> q) as Hne by congruence.
  destruct (ZipFile_IsDir zf).
  { destruct (os.MkdirAll (fs st) p) as [f1|e] eqn:Hmk; [|apply files_kept_refl].
    by apply (MkdirAll_frame _ _ _ Hmk). }
  destruct (os.MkdirAll (fs st) (Dir p)) as [f1|e] eqn:Hmk; [|apply files_kept_refl].
  pose proof (MkdirAll_frame _ _ _ Hmk q) as H1.
  destruct (Body zf) as [data|e]; [|done].
  destruct (os.write_file f1 p []) as [f2|e] eqn:Hw; [|done].
  apply write_file_Ok in Hw as ->.
  edestruct (extract_copy_writes (buffers DefaultBufferSize data)
               (<[p := NFile []]> f1)) as (ps & eb' & ->);
    [by rewrite lookup_insert_eq|].
  cbn [fst fs]. eapply files_kept_trans; [done|]. left.
  by rewrite !lookup_insert_ne.
Qed.

Lemma extract_entries_frame (h : host) (s : service) (files : list ZipFile)
    (destPath : gostring) (total : Z) (id q : gostring) :
  HasPrefix q (Clean destPath ++ [sep]) = false ->
  forall (st : state) (eb : Z),
    files_kept (fs st) (fs (extract_entries h s st files destPath eb total id).1.1) q.
Proof.
  intros Hq. induction files as [|zf files IH]; intros st eb; cbn [extract_entries].
  - apply files_kept_refl.
  - pose proof (extractFile_frame h s st zf destPath eb total id q Hq) as H1.
    destruct (extractFile h s st zf destPath eb total id) as [[st1 eb1] [e|]];
      [done|].
    eapply files_kept_trans; [done|]. apply IH.
Qed.

Lemma extractFile_escaping (h : host) (s : service) (st : state) (zf : ZipFile)
    (destPath : gostring) (eb total : Z) (id : gostring) :
  escapes_destination destPath zf = true ->
  extractFile h s st zf destPath eb total id = (st, eb, Some ErrPathTraversal).
Proof. unfold escapes_destination, extractFile. by intros ->. Qed.

(** An escaping entry anywhere in the archive makes the loop fail. *)
Lemma extract_entries_fails (h : host) (s : service) (files : list ZipFile)
    (destPath : gostring) (total : Z) (id : gostring) :
  (exists zf, zf ∈ files /\ escapes_destination destPath zf = true) ->
  forall (st : state) (eb : Z),
    exists e, (extract_entries h s st files destPath eb total id).2 = Some e.
Proof.
  intros (bad & Hin & Hbad).
  induction files as [|zf files IH]; intros st eb; [by apply elem_of_nil in Hin|].
  cbn [extract_entries].
  destruct (extractFile h s st zf destPath eb total id) as [[st1 eb1] [e|]] eqn:Hx;
    [by exists e|].
  apply elem_of_cons in Hin as [->|Hin]; [|by apply IH].
  rewrite extractFile_escaping in Hx by done. congruence.
Qed.

(** The loop stops at the first escaping entry: the state is the one the
    preceding entries left. *)
Lemma extract_entries_stops (h : host) (s : service) (pre : list ZipFile)
    (bad : ZipFile) (post : list ZipFile) (destPath : gostring) (total : Z)
    (id : gostring) :
  escapes_destination destPath bad = true ->
  forall (st st1 : state) (eb eb1 : Z),
    extract_entries h s st pre destPath eb total id = (st1, eb1, None) ->
    extract_entries h s st (pre ++ bad :: post) destPath eb total id
    = (st1, eb1, Some ErrPathTraversal).
Proof.
  intros Hbad. induction pre as [|zf pre IH]; intros st st1 eb eb1 Hpre;
    cbn [extract_entries app] in *.
  - injection Hpre as <- <-. by rewrite extractFile_escaping.
  - destruct (extractFile h s st zf destPath eb total id) as [[st2 eb2] [e|]];
      [done|]. by apply IH.
Qed.

Lemma bump_progress_keeps (ps ps' : gmap gostring Progress) id newVal total :
  bump_progress ps id newVal total = inr ps' ->
  is_Some (ps !! id) -> is_Some (ps' !! id).
Proof.
  unfold bump_progress. intros Hb Hid.
  destruct (0 <? total); [|by injection Hb as <-].
  destruct (quot64 (mul64 newVal 100) total); [done|].
  unfold ProgressStore.Get in Hb. destruct (ps !! id); injection Hb as <-; [|done].
  by rewrite lookup_insert_eq.
Qed.

Lemma extract_copy_keeps bufs : forall (f : gmap gostring node) ps id p eb total,
  is_Some (ps !! id) ->
  is_Some ((extract_copy f ps id p eb total bufs).1.1.2 !! id).
Proof.
  induction bufs as [|buf bufs IH]; intros f ps id p eb total Hid;
    cbn [extract_copy]; [done|].
  destruct (bump_progress ps id (add64 eb (Z.of_nat (length buf))) total)
    as [?|ps1] eqn:Hb; [done|].
  apply IH. by eapply bump_progress_keeps.
Qed.

Lemma extractFile_keeps (h : host) (s : service) (st : state) (zf : ZipFile)
    (destPath : gostring) (eb total : Z) (id : gostring) :
  is_Some (progressStore st !! id) ->
  is_Some (progressStore (extractFile h s st zf destPath eb total id).1.1 !! id).
Proof.
  intros Hid. unfold extractFile.
  destruct (negb _); [done|]. destruct (ZipFile_IsDir zf).
  { by destruct (os.MkdirAll (fs st) _). }
  destruct (os.MkdirAll (fs st) _) as [f1|e]; [|done].
  destruct (Body zf) as [data|e]; [|done].
  destruct (os.write_file f1 _ []) as [f2|e]; [|done].
  pose proof (extract_copy_keeps (buffers DefaultBufferSize data) f2
                (progressStore st) id (Join [destPath; Name zf]) eb total Hid) as Hk.
  destruct (extract_copy _ _ _ _ _ _ _) as [[[f3 ps] eb'] [e|]]; done.
Qed.

Lemma extract_entries_keeps (h : host) (s : service) (files : list ZipFile)
    (destPath : gostring) (total : Z) (id : gostring) :
  forall (st : state) (eb : Z),
    is_Some (progressStore st !! id) ->
    is_Some (progressStore (extract_entries h s st files destPath eb total id).1.1 !! id).
Proof.
  induction files as [|zf files IH]; intros st eb Hid; cbn [extract_entries]; [done|].
  pose proof (extractFile_keeps h s st zf destPath eb total id Hid) as Hk.
  destruct (extractFile h s st zf destPath eb total id) as [[st1 eb1] [e|]];
    [done|]. by apply IH.
Qed.

Lemma fail_marks_failed (st : state) id e :
  is_Some (progressStore st !! id) ->
  Status <$> progressStore (fail st id e).1 !! id = Some StatusFailed.
Proof.
  intros [p Hp]. unfold fail, updateProgressError, ProgressStore.Get. rewrite Hp.
  cbn. unfold ProgressStore.Set_. by rewrite lookup_insert_eq.
Qed.

Lemma ReadFile_exists (f : gmap gostring node) p bytes :
  os.ReadFile f p = Ok bytes -> PathExists f p = true.
Proof.
  unfold os.ReadFile, PathExists. by destruct (os.Stat f p) as [[?|]|?].
Qed.

(** C2 (amended).  When the archive that [Extract] opens holds an entry
    whose joined path does not lie under the destination, [Extract] returns
    an error and never skips the entry; whatever the archive, no file
    outside the destination is created or changed (only directories on the
    way to the destination may appear).  The loop stops at the first such
    entry with the traversal error and marks the progress record failed:
    that entry and all later ones leave no trace, while the entries before
    it stay extracted -- nothing is rolled back. *)
Theorem Extract_traversal_hard_failure (h : host) (s : service) (st : state)
    (extractID source destination sourcePath destPath : gostring)
    (bytes : list byte) (files : list ZipFile) :
  ValidatePath (Getwd h) (basePath s) source = Ok sourcePath ->
  os.ReadFile (fs st) sourcePath = Ok bytes ->
  zip_OpenReader h bytes = Ok files ->
  ValidatePath (Getwd h) (basePath s) destination = Ok destPath ->
  (exists zf, zf ∈ files /\ escapes_destination destPath zf = true) ->
  exists st' ret e,
    Extract h s st extractID source destination = (st', ret, Some e)
    /\ (forall q, HasPrefix q (Clean destPath ++ [sep]) = false ->
          files_kept (fs st) (fs st') q)
    /\ (forall fs1 pre bad post st1 eb1,
          os.MkdirAll (fs st) destPath = Ok fs1 ->
          files = pre ++ bad :: post ->
          escapes_destination destPath bad = true ->
          extract_entries h s
            (set_fs fs1
               (set_progressStore
                  (ProgressStore.Set_ (progressStore st) extractID
                     (mkProgress extractID (Base sourcePath) 0 0
                        (declared_size files) StatusProcessing []))
                  st))
            pre destPath 0 (declared_size files) extractID
          = (st1, eb1, None) ->
          e = ErrPathTraversal /\ ret = extractID /\ fs st' = fs st1
          /\ Status <$> progressStore st' !! extractID = Some StatusFailed).
Proof.
  intros Hsrc Hread Hzip Hdst Hbad. unfold Extract.
  rewrite Hsrc, (ReadFile_exists _ _ _ Hread), Hdst, Hread, Hzip. cbn [negb].
  set (st0 := set_progressStore _ st).
  assert (is_Some (progressStore st0 !! extractID)) as Hrec.
  { unfold st0, set_progressStore, ProgressStore.Set_. cbn [progressStore].
    by rewrite lookup_insert_eq. }
  change (fs st0) with (fs st).
  destruct (os.MkdirAll (fs st) destPath) as [fs1|e0] eqn:Hmk.
  - pose proof (extract_entries_fails h s files destPath (declared_size files)
                  extractID Hbad (set_fs fs1 st0) 0) as [e He].
    pose proof (extract_entries_keeps h s files destPath (declared_size files)
                  extractID (set_fs fs1 st0) 0 Hrec) as Hkeep.
    pose proof (fun q Hq => extract_entries_frame h s files destPath
                  (declared_size files) extractID q Hq (set_fs fs1 st0) 0) as Hframe.
    destruct (extract_entries h s (set_fs fs1 st0) files destPath 0
                (declared_size files) extractID) as [[st2 eb2] err] eqn:Hrun.
    cbn [fst snd] in *. subst err.
    exists (fail st2 extractID e).1, extractID, e. split; [done|]. split.
    + intros q Hq. eapply files_kept_trans; [by apply (MkdirAll_frame _ _ _ Hmk)|].
      by apply Hframe.
    + intros fs1' pre bad post st1 eb1 [= <-] -> Hesc Hpre.
      rewrite (extract_entries_stops h s pre bad post destPath _ _ Hesc _ _ _ _ Hpre)
        in Hrun.
      injection Hrun as <- <- <-.
      split; [done|]. split; [done|]. split; [done|].
      by apply fail_marks_failed.
  - exists (fail st0 extractID e0).1, extractID, e0. split; [done|]. split.
    + intros q Hq. apply files_kept_refl.
    + intros fs1 pre bad post st1 eb1 Hmk'. congruence.
Qed.

(** The amended C2 on an archive whose second entry is [../../evil]. *)
Lemma Extract_traversal_hard_failure_witness :
  exists st',
    Extract (host_with_archive [good_entry; evil_entry]) sample_service
      sample_archive_state "x1" "in.zip" "out"
    = (st', ("x1" : gostring), Some ErrPathTraversal).
Proof.
  destruct (Extract_traversal_hard_failure
              (host_with_archive [good_entry; evil_entry]) sample_service
              sample_archive_state "x1" "in.zip" "out" "/home/alice/in.zip"
              "/home/alice/out" [] [good_entry; evil_entry]
              eq_refl eq_refl eq_refl eq_refl)
    as (st' & ret & e & Hrun & _ & Hstop).
  { exists evil_entry. split; [|reflexivity].
    apply elem_of_cons. right. apply elem_of_cons. by left. }
  pose (run :=
          extract_entries (host_with_archive [good_entry; evil_entry])
            sample_service
            (set_fs sample_tree
               (set_progressStore
                  (ProgressStore.Set_ (progressStore sample_archive_state) "x1"
                     (mkProgress "x1" (Base "/home/alice/in.zip") 0 0
                        (declared_size [good_entry; evil_entry])
                        StatusProcessing []))
                  sample_archive_state))
            [good_entry] "/home/alice/out" 0
            (declared_size [good_entry; evil_entry]) "x1").
  assert (run.2 = None) as Hnone by (vm_compute; reflexivity).
  assert (run = (run.1.1, run.1.2, None)) as Hpre
    by (destruct run as [[st1 eb1] e1]; cbn in Hnone |- *; by rewrite Hnone).
  set (st1 := run.1.1) in Hpre. set (eb1 := run.1.2) in Hpre.
  destruct (Hstop sample_tree [good_entry] evil_entry [] st1 eb1
              eq_refl eq_refl eq_refl Hpre) as (-> & -> & _).
  exists st'. exact Hrun.
Defined.

(** C2 as stated fails in its last part: after the traversal entry has
    made [Extract] fail, the file of the entry before it is in the
    destination. *)
Lemma Extract_leaves_earlier_entries :
  let run :=
    Extract (host_with_archive [good_entry; evil_entry]) sample_service
      sample_archive_state "x1" "in.zip" "out" in
  run.2 = Some ErrPathTraversal
  /\ fs sample_archive_state !! ("/home/alice/out/good.txt" : gostring) = None
  /\ fs run.1.1 !! ("/home/alice/out/good.txt" : gostring) = Some (NFile [x6f; x6b]).
Proof. cbv zeta. repeat split; vm_compute; reflexivity. Qed.

(** ** Compression *)

Lemma valid_inputs_cons_None (h : host) (s : service) (f : gmap gostring node)
    (p : gostring) (rest validPaths : list gostring) (totalSize : Z) :
  resolve_input h s f p = None ->
  valid_inputs h s f (p :: rest) validPaths totalSize
  = valid_inputs h s f rest validPaths totalSize.
Proof.
  unfold resolve_input. intros Hres. cbn [valid_inputs].
  destruct (ValidatePath (Getwd h) (basePath s) p) as [fp|e]; [|done].
  by destruct (PathExists f fp).
Qed.

Lemma valid_inputs_cons_Some (h : host) (s : service) (f : gmap gostring node)
    (p fullPath : gostring) (rest validPaths : list gostring) (totalSize : Z) :
  resolve_input h s f p = Some fullPath ->
  exists totalSize',
    valid_inputs h s f (p :: rest) validPaths totalSize
    = valid_inputs h s f rest (validPaths ++ [fullPath]) totalSize'.
Proof.
  unfold resolve_input. intros Hres. cbn [valid_inputs].
  destruct (ValidatePath (Getwd h) (basePath s) p) as [fp|e]; [|done].
  destruct (PathExists f fp); [|done]. injection Hres as ->. by eexists.
Qed.

(** The first loop of [Compress] keeps the inputs that resolve and exist,
    in order, and nothing of the others. *)
Lemma valid_inputs_valid (h : host) (s : service) (f : gmap gostring node)
    (paths : list gostring) :
  forall validPaths totalSize,
    (valid_inputs h s f paths validPaths totalSize).1
    = validPaths ++ omap (resolve_input h s f) paths.
Proof.
  induction paths as [|p paths IH]; intros validPaths totalSize.
  - cbn. by rewrite app_nil_r.
  - cbn [omap list_omap]. destruct (resolve_input h s f p) as [fullPath|] eqn:Hres.
    + destruct (valid_inputs_cons_Some h s f p fullPath paths validPaths totalSize Hres)
        as [t' ->].
      rewrite IH. by rewrite <- app_assoc.
    + rewrite valid_inputs_cons_None by done. apply IH.
Qed.

(** An input that does not resolve or does not exist has no effect on the
    first loop. *)
Lemma valid_inputs_skip (h : host) (s : service) (f : gmap gostring node)
    (paths : list gostring) :
  forall validPaths totalSize,
    valid_inputs h s f paths validPaths totalSize
    = valid_inputs h s f
        (filter (fun p => is_Some (resolve_input h s f p)) paths)
        validPaths totalSize.
Proof.
  induction paths as [|p paths IH]; intros validPaths totalSize; [done|].
  destruct (resolve_input h s f p) as [fullPath|] eqn:Hres.
  - rewrite filter_cons_True by by rewrite Hres.
    cbn [valid_inputs]. unfold resolve_input in Hres.
    destruct (ValidatePath (Getwd h) (basePath s) p) as [fp|e]; [|done].
    destruct (PathExists f fp); cbn [negb]; [|done]. apply IH.
  - rewrite filter_cons_False by (rewrite Hres; by intros [? ?]).
    rewrite valid_inputs_cons_None by done. apply IH.
Qed.

Lemma compress_copy_keeps bufs : forall (ps : gmap gostring Progress) id cb total,
  is_Some (ps !! id) ->
  is_Some ((compress_copy ps id cb total bufs).1.1 !! id).
Proof.
  induction bufs as [|buf bufs IH]; intros ps id cb total Hid;
    cbn [compress_copy]; [done|].
  destruct (bump_progress ps id (add64 cb (Z.of_nat (length buf))) total)
    as [?|ps1] eqn:Hb; [done|].
  apply IH. by eapply bump_progress_keeps.
Qed.

Lemma addFileToZip_keeps (f : gmap gostring node) (a : archive)
    (filePath zipPath : gostring) (total : Z) (id : gostring) :
  is_Some (store a !! id) ->
  is_Some (store (addFileToZip f a filePath zipPath total id).1 !! id).
Proof.
  intros Hid. unfold addFileToZip.
  destruct (os.ReadFile f filePath) as [data|e]; [|done].
  pose proof (compress_copy_keeps (buffers DefaultBufferSize data) (store a) id
                (compressedBytes a) total Hid) as Hk.
  by destruct (compress_copy _ _ _ _ _) as [[ps n] err].
Qed.

Lemma walk_entries_keeps (f : gmap gostring node) (dirPath zipPath : gostring)
    (total : Z) (id : gostring) (visits : list (gostring * node)) :
  forall a : archive,
    is_Some (store a !! id) ->
    is_Some (store (walk_entries f a dirPath zipPath total id visits).1 !! id).
Proof.
  induction visits as [|[path info] visits IH]; intros a Hid;
    cbn [walk_entries]; [done|].
  destruct (Rel dirPath path) as [relPath|e]; [|done].
  destruct info as [data|]; [|by apply IH].
  pose proof (addFileToZip_keeps f a path (Join [zipPath; relPath]) total id Hid).
  destruct (addFileToZip f a path _ total id) as [a1 [e|]]; [done|]. by apply IH.
Qed.

Lemma add_inputs_keeps (h : host) (f : gmap gostring node) (total : Z)
    (id : gostring) (validPaths : list gostring) :
  forall a : archive,
    is_Some (store a !! id) ->
    is_Some (store (add_inputs h f a validPaths total id).1 !! id).
Proof.
  induction validPaths as [|fullPath rest IH]; intros a Hid;
    cbn [add_inputs]; [done|].
  assert (is_Some (store (if IsDir f fullPath
                          then addDirectoryToZip h f a fullPath (Base fullPath) total id
                          else addFileToZip f a fullPath (Base fullPath) total id).1
                   !! id)) as Hk.
  { destruct (IsDir f fullPath);
      [by apply walk_entries_keeps|by apply addFileToZip_keeps]. }
  destruct (if IsDir f fullPath then _ else _) as [a1 [e|]]; [done|]. by apply IH.
Qed.

Lemma updateProgressError_keeps (ps : gmap gostring Progress) id msg :
  is_Some (ps !! id) -> is_Some (updateProgressError ps id msg !! id).
Proof.
  intros [p Hp]. unfold updateProgressError, ProgressStore.Get, ProgressStore.Set_.
  rewrite Hp. by rewrite lookup_insert_eq.
Qed.

Lemma updateProgressCompleted_keeps (ps : gmap gostring Progress) id :
  is_Some (ps !! id) -> is_Some (updateProgressCompleted ps id !! id).
Proof.
  intros [p Hp]. unfold updateProgressCompleted, ProgressStore.Get, ProgressStore.Set_.
  rewrite Hp. by rewrite lookup_insert_eq.
Qed.

(** C7 (amended).  [Compress] passes over every input that does not resolve
    in the sandbox or does not exist: such inputs have no effect on the
    outcome, the call behaves as on the list of the remaining inputs, and
    the inputs it adds to the archive are the resolved paths of the
    remaining ones, in order.  When no input remains, [Compress] fails with
    [ErrNotFound] before it registers a progress record or creates the
    archive; when at least one remains, the skipped ones do not fail the
    call: it registers the operation, returns its identifier, and the
    archive file holds the entries added for the remaining inputs. *)
Theorem Compress_skips_invalid_inputs (h : host) (s : service) (st : state)
    (compressID output outputPath target : gostring) (paths : list gostring)
    (compressionLevel : Z) (fs1 : gmap gostring node) :
  ValidatePath (Getwd h) (basePath s) output = Ok outputPath ->
  os.MkdirAll (fs st) (Dir outputPath) = Ok fs1 ->
  (if PathExists fs1 outputPath then GenerateUniqueName fs1 outputPath
   else Some outputPath) = Some target ->
  Compress h s st compressID paths output compressionLevel
  = Compress h s st compressID
      (filter (fun p => is_Some (resolve_input h s fs1 p)) paths)
      output compressionLevel
  /\ (valid_inputs h s fs1 paths [] 0).1 = omap (resolve_input h s fs1) paths
  /\ (omap (resolve_input h s fs1) paths = [] ->
        Compress h s st compressID paths output compressionLevel
        = (set_fs fs1 st, [], Some ErrNotFound))
  /\ (omap (resolve_input h s fs1) paths <> [] ->
        exists st' ret err,
          Compress h s st compressID paths output compressionLevel = (st', ret, err)
          /\ compressID `prefix_of` ret
          /\ is_Some (progressStore st' !! compressID)
          /\ forall fs2,
               os.Create fs1 target = Ok fs2 ->
               let totalSize := (valid_inputs h s fs1 paths [] 0).2 in
               let added :=
                 add_inputs h fs2
                   (mkArchive [] 0
                      (ProgressStore.Set_ (progressStore st) compressID
                         (mkProgress compressID (Base target) 0 0 totalSize
                            StatusProcessing [])))
                   (omap (resolve_input h s fs1) paths) totalSize compressID in
               fs st' = os.Write fs2 target (zip_bytes h (entries added.1))
               /\ err = added.2).
Proof.
  intros Hout Hmk Hgen.
  pose proof (valid_inputs_valid h s fs1 paths [] 0) as Hvalid. cbn [app] in Hvalid.
  split; [|split; [done|split]].
  - unfold Compress. rewrite Hout, Hmk, Hgen.
    by rewrite <- valid_inputs_skip.
  - intros Hnone. unfold Compress. rewrite Hout, Hmk, Hgen.
    destruct (valid_inputs h s fs1 paths [] 0) as [validPaths totalSize].
    cbn [fst] in Hvalid. rewrite Hvalid, Hnone. reflexivity.
  - intros Hsome. unfold Compress. rewrite Hout, Hmk, Hgen.
    destruct (valid_inputs h s fs1 paths [] 0) as [validPaths totalSize].
    cbn [fst snd] in *. rewrite Hvalid.
    destruct (decide (length (omap (resolve_input h s fs1) paths) = 0%nat))
      as [Hlen|_]; [by apply nil_length_inv in Hlen|].
    cbn [set_progressStore set_fs progressStore chunkStore fs].
    destruct (os.Create fs1 target) as [fs2|e].
    + match goal with
      | |- context [add_inputs h fs2 ?a0 ?vp totalSize compressID] =>
          pose proof (add_inputs_keeps h fs2 totalSize compressID vp a0) as Hkeep;
          destruct (add_inputs h fs2 a0 vp totalSize compressID)
            as [a [e|]] eqn:Hadd
      end; cbn [fst store] in Hkeep;
        (specialize (Hkeep ltac:(unfold ProgressStore.Set_; by rewrite lookup_insert_eq))).
      * eexists _, _, _. split; [reflexivity|]. split; [done|]. split.
        -- cbn. by apply updateProgressError_keeps.
        -- intros fs2' [= <-]. cbn zeta. by rewrite Hadd.
      * eexists _, _, _. split; [reflexivity|]. split; [by apply prefix_app_r|].
        split.
        -- cbn. by apply updateProgressCompleted_keeps.
        -- intros fs2' [= <-]. cbn zeta. by rewrite Hadd.
    + eexists _, _, _. split; [reflexivity|]. split; [done|]. split.
      * cbn. apply updateProgressError_keeps.
        unfold ProgressStore.Set_. by rewrite lookup_insert_eq.
      * intros fs2 Hcr. discriminate Hcr.
Qed.

(** The amended C7 on a batch of two existing files, a missing file and a
    path that leaves the sandbox. *)
Lemma Compress_skips_invalid_inputs_witness :
  ValidatePath None "/home/alice" "out.zip" = Ok ("/home/alice/out.zip" : gostring)
  /\ os.MkdirAll sample_docs "/home/alice" = Ok sample_docs
  /\ Compress counting_host sample_service sample_docs_state "c1"
       ["a.txt" : gostring; "missing.txt" : gostring; "../../etc" : gostring;
        "b.txt" : gostring]
       "out.zip" 6
     = Compress counting_host sample_service sample_docs_state "c1"
         ["a.txt" : gostring; "b.txt" : gostring] "out.zip" 6.
Proof.
  split; [reflexivity|]. split; [reflexivity|].
  exact (proj1 (Compress_skips_invalid_inputs counting_host sample_service
                  sample_docs_state "c1" "out.zip" "/home/alice/out.zip"
                  "/home/alice/out.zip"
                  ["a.txt" : gostring; "missing.txt" : gostring;
                   "../../etc" : gostring; "b.txt" : gostring]
                  6 sample_docs eq_refl eq_refl eq_refl)).
Defined.

(** The batch above succeeds and the archive holds two entries. *)
Example Compress_two_of_four :
  let run :=
    Compress counting_host sample_service sample_docs_state "c1"
      ["a.txt" : gostring; "missing.txt" : gostring; "../../etc" : gostring;
       "b.txt" : gostring]
      "out.zip" 6 in
  run.2 = None
  /\ run.1.2 = ("c1:out.zip" : gostring)
  /\ fs run.1.1 !! ("/home/alice/out.zip" : gostring) = Some (NFile [x2a; x2a]).
Proof. cbv zeta. repeat split; vm_compute; reflexivity. Qed.

(** C7 as stated fails for a batch without any valid input: the inputs
    that do not exist make the whole call fail with [ErrNotFound]. *)
Lemma Compress_all_invalid_fails :
  Compress counting_host sample_service sample_docs_state "c1"
    ["missing.txt" : gostring; "../../etc" : gostring] "out.zip" 6
  = (sample_docs_state, [], Some ErrNotFound).
Proof. vm_compute. reflexivity. Qed.

(** ** Chunked upload *)

(** [InitChunkedUpload] computes the ceiling of [totalSize / chunkSize]. *)
Lemma InitChunkedUpload_total_chunks (h : host) (s : service) (st : state)
    (uploadID filename destination destPath : gostring) (totalSize chunkSize : Z)
    (fs1 : gmap gostring node) :
  0 <= totalSize -> 0 < chunkSize -> totalSize + chunkSize <= max_int64 ->
  ValidatePath (Getwd h) (basePath s) destination = Ok destPath ->
  os.MkdirAll (fs st)
    (Join [os_TempDir h; "filemanager-chunks" : gostring; uploadID]) = Ok fs1 ->
  exists st' c,
    InitChunkedUpload h s st uploadID filename destination totalSize chunkSize
    = (st', Ok c)
    /\ chunkStore st' !! uploadID = Some c
    /\ ChunkUpload.Chunks c = ∅
    /\ ChunkUpload.TotalChunks c = (totalSize + chunkSize - 1) / chunkSize
    /\ (ChunkUpload.TotalChunks c - 1) * chunkSize < totalSize
       <= ChunkUpload.TotalChunks c * chunkSize.
Proof.
  intros Htot Hchunk Hmax Hv Hmk. unfold InitChunkedUpload. rewrite Hv.
  unfold quot64, sub64, add64.
  destruct (chunkSize =? 0) eqn:H0; [apply Z.eqb_eq in H0; lia|].
  rewrite (wrap64_small (totalSize + chunkSize)) by (unfold min_int64; lia).
  rewrite (wrap64_small (totalSize + chunkSize - 1)) by (unfold min_int64; lia).
  rewrite Z.quot_div_nonneg by lia.
  assert (0 <= (totalSize + chunkSize - 1) / chunkSize <= totalSize + chunkSize - 1).
  { split; [apply Z.div_pos; lia|]. apply Z.div_le_upper_bound; [lia|]. nia. }
  rewrite wrap64_small by (unfold min_int64; lia).
  rewrite Hmk. eexists _, _. split; [reflexivity|]. cbn.
  split; [by rewrite lookup_insert_eq|]. split; [done|]. split; [done|].
  pose proof (Z.div_mod (totalSize + chunkSize - 1) chunkSize ltac:(lia)).
  pose proof (Z.mod_pos_bound (totalSize + chunkSize - 1) chunkSize ltac:(lia)).
  nia.
Qed.

(** The example of the specification: ten million bytes in chunks of one
    million make ten chunks. *)
Example InitChunkedUpload_ten_chunks :
  ChunkUpload.TotalChunks
    <$> chunkStore
          (InitChunkedUpload sample_host sample_service empty_home "u1" "a.bin" ""
             10000000 1000000).1
        !! ("u1" : gostring)
  = Some 10.
Proof. vm_compute. reflexivity. Qed.

(** C3 fails on the code for sessions of more than 55248 chunks.  The
    scratch file of chunk [i] is named [string(rune('0'+i))]; for [i] from
    55248 to 57295 the rune is a surrogate code point and the name is that
    of U+FFFD in every case.  In a session of 55250 one-byte chunks, the
    chunks 55248 and 55249 are written to the same scratch file, which then
    holds the bytes of the chunk submitted last; the assembly loop reads it
    for both indices and appends the same byte twice. *)
Theorem surrogate_chunk_names_collide :
  ChunkUpload.TotalChunks <$> chunkStore large_session.1 !! ("u1" : gostring)
  = Some 55250
  /\ ChunkUpload.TempDir <$> chunkStore large_session.1 !! ("u1" : gostring)
     = Some ("/tmp/filemanager-chunks/u1" : gostring)
  /\ chunkPath "/tmp/filemanager-chunks/u1" 55248
     = chunkPath "/tmp/filemanager-chunks/u1" 55249
  /\ colliding_uploads.2 = None
  /\ received <$> chunkStore colliding_uploads.1 !! ("u1" : gostring) = Some 2
  /\ os.ReadFile (fs colliding_uploads.1)
       (chunkPath "/tmp/filemanager-chunks/u1" 55248)
     = Ok [byte_of_Z 55249]
  /\ (assemble
        (<[("/home/alice/a.bin" : gostring) := NFile []]> (fs colliding_uploads.1))
        "/tmp/filemanager-chunks/u1" "/home/alice/a.bin" [55248; 55249]).1
     !! ("/home/alice/a.bin" : gostring)
     = Some (NFile [byte_of_Z 55249; byte_of_Z 55249])
  /\ byte_of_Z 55248 <> byte_of_Z 55249.
Proof.
  repeat (split; [vm_compute; reflexivity|]). discriminate.
Qed.

(** *** Scratch-file names *)

Lemma elem_of_upto i n : i ∈ upto n <-> 0 <= i < n.
Proof.
  unfold upto. rewrite list_elem_of_fmap. split.
  - intros (k & -> & Hk). apply elem_of_seq in Hk. lia.
  - intros Hi. exists (Z.to_nat i). split; [lia|]. apply elem_of_seq. lia.
Qed.

Lemma NoDup_upto n : NoDup (upto n).
Proof.
  unfold upto. apply NoDup_fmap_2; [|apply NoDup_seq].
  intros a b Hab. lia.
Qed.

Lemma plainb_plain e : plainb e = true -> plain e.
Proof.
  unfold plainb. rewrite !andb_true_iff, !bool_decide_eq_true.
  intros [[[H1 H2] H3] H4]. repeat split; try done.
  intros Hin. rewrite forallb_forall in H4.
  apply list_elem_of_In, H4 in Hin. by rewrite (proj2 (is_sep_true sep) eq_refl) in Hin.
Qed.

Lemma elem_of_indices_from len start i :
  start <= i < start + Z.of_nat len -> In i (indices_from start len).
Proof.
  revert start. induction len as [|k IH]; intros start Hi; [lia|].
  cbn [indices_from]. destruct (decide (i = start)) as [->|Hne]; [by left|].
  right. apply IH. lia.
Qed.

Lemma chunk_names_plain_checked :
  forallb (fun i => plainb (chunkName i))
    (indices_from 0 (Z.to_nat after_surrogates_index)) = true.
Proof. vm_compute. reflexivity. Qed.

Lemma chunk_names_decode_checked :
  forallb (fun i => index_of_name (chunkName i) =? i)
    (indices_from 0 (Z.to_nat first_surrogate_index)) = true.
Proof. vm_compute. reflexivity. Qed.

(** Up to the end of the surrogate range every scratch-file name is a real
    path element. *)
Lemma chunkName_plain i : 0 <= i < after_surrogates_index -> plain (chunkName i).
Proof.
  intros Hi. apply plainb_plain.
  pose proof chunk_names_plain_checked as H. rewrite forallb_forall in H.
  apply H, elem_of_indices_from.
  unfold after_surrogates_index in *. lia.
Qed.

(** Below the surrogate range the names tell the indices apart. *)
Lemma chunkName_inj i j :
  0 <= i < first_surrogate_index -> 0 <= j < first_surrogate_index ->
  chunkName i = chunkName j -> i = j.
Proof.
  intros Hi Hj Heq.
  pose proof chunk_names_decode_checked as H. rewrite forallb_forall in H.
  assert (forall k, 0 <= k < first_surrogate_index ->
            In k (indices_from 0 (Z.to_nat first_surrogate_index))) as Hin
    by (intros k Hk; apply elem_of_indices_from;
        unfold first_surrogate_index in *; lia).
  pose proof (H i (Hin i Hi)) as H1.
  pose proof (H j (Hin j Hj)) as H2.
  cbv beta in H1, H2. apply Z.eqb_eq in H1, H2. congruence.
Qed.

(** *** Scratch-file paths *)

Lemma Join_child bs e :
  Forall plain bs -> bs <> [] -> plain e ->
  Join [sep :: join bs; e] = (sep :: join bs) ++ sep :: e.
Proof.
  intros Hbs Hne He. rewrite Join_base by done.
  rewrite split_nosep by by destruct He as (_ & _ & _ & ?).
  rewrite clean_loop_plain_cons by done. cbn [clean_loop rev].
  rewrite rev_involutive, join_app by done. done.
Qed.

Lemma drop_to_sep_app a r :
  sep ∉ a -> drop_to_sep (a ++ sep :: r) = sep :: r.
Proof.
  induction a as [|c a IH]; intros Ha; [reflexivity|].
  apply not_elem_of_cons in Ha as [Hc Ha]. cbn [app drop_to_sep].
  assert (is_sep c = false) as -> by (apply is_sep_false; congruence).
  by apply IH.
Qed.

Lemma Clean_trailing_sep t : t <> [] -> Clean (t ++ [sep]) = Clean t.
Proof.
  intros Hne. destruct t as [|c t]; [done|]. unfold Clean. cbn [app IsAbs].
  change (c :: t ++ [sep]) with ((c :: t) ++ sep :: []).
  rewrite split_app_sep, clean_loop_app. reflexivity.
Qed.

Lemma Dir_child bs e :
  Forall plain bs -> sep ∉ e ->
  Dir ((sep :: join bs) ++ sep :: e) = sep :: join bs.
Proof.
  intros Hbs He. unfold Dir.
  rewrite rev_app_distr. cbn [rev]. rewrite <- !app_assoc. cbn [app].
  rewrite drop_to_sep_app by by apply not_elem_of_rev.
  assert (rev (sep :: rev (join bs) ++ [sep]) = (sep :: join bs) ++ [sep]) as ->
    by (cbn [rev]; rewrite rev_app_distr, rev_involutive; reflexivity).
  rewrite Clean_trailing_sep by done. by apply Clean_abs_fix.
Qed.

Lemma chunkPath_eq t i :
  scratch_dir t -> 0 <= i < after_surrogates_index ->
  chunkPath t i = t ++ sep :: chunkName i.
Proof.
  intros (bs & -> & Hbs & Hne) Hi. unfold chunkPath.
  by apply Join_child; [| |apply chunkName_plain].
Qed.

Lemma chunkPath_Dir t i :
  scratch_dir t -> 0 <= i < after_surrogates_index -> Dir (chunkPath t i) = t.
Proof.
  intros Ht Hi. rewrite chunkPath_eq by done. destruct Ht as (bs & -> & Hbs & Hne).
  apply Dir_child; [done|]. by destruct (chunkName_plain i Hi) as (_ & _ & _ & ?).
Qed.

Lemma chunkPath_longer t i :
  scratch_dir t -> 0 <= i < after_surrogates_index ->
  (length t < length (chunkPath t i))%nat.
Proof.
  intros Ht Hi. rewrite chunkPath_eq by done. rewrite length_app. simpl. lia.
Qed.

Lemma chunkPath_not_root t i :
  scratch_dir t -> 0 <= i < after_surrogates_index -> chunkPath t i <> [sep].
Proof.
  intros Ht Hi Heq. pose proof (chunkPath_longer t i Ht Hi) as Hlen.
  rewrite Heq in Hlen. destruct Ht as (bs & -> & _). simpl in Hlen. lia.
Qed.

Lemma chunkPath_not_dir t i :
  scratch_dir t -> 0 <= i < after_surrogates_index -> chunkPath t i <> t.
Proof.
  intros Ht Hi Heq. pose proof (chunkPath_longer t i Ht Hi) as Hlen.
  rewrite Heq in Hlen. lia.
Qed.

Lemma chunkPath_under t i :
  scratch_dir t -> 0 <= i < after_surrogates_index ->
  HasPrefix (chunkPath t i) (t ++ [sep]) = true.
Proof.
  intros Ht Hi. rewrite chunkPath_eq by done. apply bool_decide_eq_true_2.
  exists (chunkName i). by rewrite <- app_assoc.
Qed.

Lemma chunkPath_inj t i j :
  scratch_dir t ->
  0 <= i < first_surrogate_index -> 0 <= j < first_surrogate_index ->
  chunkPath t i = chunkPath t j -> i = j.
Proof.
  intros Ht Hi Hj.
  rewrite !chunkPath_eq by (done || unfold first_surrogate_index,
                              after_surrogates_index in *; lia).
  intros Heq. apply app_inv_head in Heq. injection Heq as Heq.
  by apply chunkName_inj.
Qed.

(** Writing a scratch file succeeds when the scratch directory exists and
    no directory is in the way. *)
Lemma WriteFile_scratch (f : gmap gostring node) t i data :
  scratch_dir t -> 0 <= i < after_surrogates_index ->
  os.Stat f t = Ok NDir -> f !! chunkPath t i <> Some NDir ->
  os.WriteFile f (chunkPath t i) data = Ok (<[chunkPath t i := NFile data]> f).
Proof.
  intros Ht Hi Hdir Hnd. unfold os.WriteFile, os.write_file.
  rewrite (chunkPath_Dir t i Ht Hi), Hdir.
  unfold os.Stat. destruct (decide (chunkPath t i = [sep])) as [Heq|_];
    [by apply chunkPath_not_root in Heq|].
  by destruct (f !! chunkPath t i) as [[?|]|].
Qed.

(** *** Submitting the chunks *)

Lemma received_insert (c : ChunkUpload.t) i :
  ChunkUpload.Chunks c !! i = None ->
  received (ChunkUpload.set_Chunks (<[i := true]> (ChunkUpload.Chunks c)) c)
  = received c + 1.
Proof.
  intros Hi. unfold received. cbn. rewrite map_size_insert_None by done. lia.
Qed.

(** A chunk whose index is new to the session: the scratch file is written,
    the index recorded, and finalization runs exactly when this was the
    last missing index. *)
Lemma UploadChunk_fresh (h : host) (s : service) (st : state) (id : gostring)
    (c : ChunkUpload.t) (i : Z) (data : list byte) :
  chunkStore st !! id = Some c ->
  ChunkUpload.Chunks c !! i = None ->
  scratch_dir (ChunkUpload.TempDir c) -> 0 <= i < after_surrogates_index ->
  os.Stat (fs st) (ChunkUpload.TempDir c) = Ok NDir ->
  fs st !! chunkPath (ChunkUpload.TempDir c) i <> Some NDir ->
  exists ps,
    let st1 :=
      mkState (<[chunkPath (ChunkUpload.TempDir c) i := NFile data]> (fs st)) ps
        (<[id := ChunkUpload.set_Chunks (<[i := true]> (ChunkUpload.Chunks c)) c]>
           (chunkStore st)) in
    UploadChunk h s st id i data
    = (if received c + 1 =? ChunkUpload.TotalChunks c
       then finalizeChunkedUpload h s st1 id
       else (st1, None)).
Proof.
  intros Hc Hi Ht Hrange Hdir Hnd. unfold UploadChunk. rewrite Hc.
  rewrite (WriteFile_scratch _ _ _ data Ht Hrange Hdir Hnd).
  cbn [progressStore ChunkUpload.ChunkSize ChunkUpload.TotalSize
       ChunkUpload.TotalChunks ChunkUpload.set_Chunks ChunkUpload.Chunks].
  pose proof (received_insert c i Hi) as Hrec. unfold received in Hrec.
  cbn [ChunkUpload.set_Chunks ChunkUpload.Chunks] in Hrec. rewrite Hrec.
  fold (received c).
  match goal with
  | |- context [ProgressStore.Update ?ps ?k ?v] =>
      destruct (Update_never_panics ps k v) as [ps' ->]
  end.
  by exists ps'.
Qed.

Lemma scratch_snoc (t : gostring) (d : Z -> list byte) (l : list Z) (j : Z)
    (f : gmap gostring node) :
  scratch t d (l ++ [j]) f = <[chunkPath t j := NFile (d j)]> (scratch t d l f).
Proof. unfold scratch. by rewrite fold_left_app. Qed.

Lemma scratch_lookup_other (t : gostring) (d : Z -> list byte) (order : list Z)
    (f : gmap gostring node) (p : gostring) :
  (forall i, i ∈ order -> chunkPath t i <> p) ->
  scratch t d order f !! p = f !! p.
Proof.
  induction order as [|j l IH] using rev_ind; intros Hne; [done|].
  rewrite scratch_snoc, lookup_insert_ne.
  - apply IH. intros i Hi. apply Hne, elem_of_app. by left.
  - apply Hne, elem_of_app. right. by apply list_elem_of_singleton.
Qed.

Lemma scratch_lookup_file (t : gostring) (d : Z -> list byte) (order : list Z)
    (f : gmap gostring node) (i : Z) :
  i ∈ order ->
  exists data, scratch t d order f !! chunkPath t i = Some (NFile data).
Proof.
  induction order as [|j l IH] using rev_ind; intros Hi; [by apply elem_of_nil in Hi|].
  rewrite scratch_snoc.
  destruct (decide (chunkPath t j = chunkPath t i)) as [Heq|Hne].
  - rewrite Heq, lookup_insert_eq. by eexists.
  - rewrite lookup_insert_ne by done. apply IH.
    apply elem_of_app in Hi as [Hi|Hi]; [done|].
    apply list_elem_of_singleton in Hi. by subst.
Qed.

(** Without colliding names every scratch file holds its own chunk. *)
Lemma scratch_lookup_own (t : gostring) (d : Z -> list byte) (order : list Z)
    (f : gmap gostring node) (i : Z) :
  scratch_dir t ->
  (forall j, j ∈ order -> 0 <= j < first_surrogate_index) ->
  i ∈ order ->
  scratch t d order f !! chunkPath t i = Some (NFile (d i)).
Proof.
  intros Ht. induction order as [|j l IH] using rev_ind; intros Hrange Hi;
    [by apply elem_of_nil in Hi|].
  rewrite scratch_snoc.
  assert (0 <= j < first_surrogate_index) as Hj
    by (apply Hrange, elem_of_app; right; by apply list_elem_of_singleton).
  destruct (decide (j = i)) as [->|Hne]; [by rewrite lookup_insert_eq|].
  assert (i ∈ l) as Hil.
  { apply elem_of_app in Hi as [Hi|Hi]; [done|].
    apply list_elem_of_singleton in Hi. by subst. }
  assert (forall k, k ∈ l -> 0 <= k < first_surrogate_index) as Hrange'
    by (intros k Hk; apply Hrange, elem_of_app; by left).
  rewrite lookup_insert_ne; [by apply IH|].
  intros Heq. apply Hne. by apply (chunkPath_inj t); [| |apply Hrange'|].
Qed.

Lemma UploadChunks_single (h : host) (s : service) (st : state) (id : gostring)
    (i : Z) (data : list byte) :
  UploadChunks h s st id [(i, data)] = UploadChunk h s st id i data.
Proof.
  cbn [UploadChunks]. by destruct (UploadChunk h s st id i data) as [st' [e|]].
Qed.

(** Submitting indices that are new to the session, the last of which
    completes it: every chunk goes to its scratch file and the last call
    runs the finalization. *)
Lemma UploadChunks_to_finalize (h : host) (s : service) (id : gostring)
    (d : Z -> list byte) (t : gostring) (order : list Z) :
  scratch_dir t ->
  forall (st : state) (c : ChunkUpload.t),
    chunkStore st !! id = Some c ->
    ChunkUpload.TempDir c = t ->
    os.Stat (fs st) t = Ok NDir ->
    (forall i, i ∈ order -> 0 <= i < after_surrogates_index) ->
    (forall i, i ∈ order -> fs st !! chunkPath t i <> Some NDir) ->
    NoDup order ->
    (forall i, i ∈ order -> ChunkUpload.Chunks c !! i = None) ->
    order <> [] ->
    received c + Z.of_nat (length order) = ChunkUpload.TotalChunks c ->
    exists ps m,
      UploadChunks h s st id (map (fun i => (i, d i)) order)
      = finalizeChunkedUpload h s
          (mkState (scratch t d order (fs st)) ps
             (<[id := ChunkUpload.set_Chunks m c]> (chunkStore st)))
          id.
Proof.
  intros Ht. induction order as [|i rest IH];
    intros st c Hc Htmp Hdir Hrange Hnd Hdup Hnew Hne Hcount; [done|].
  apply NoDup_cons in Hdup as [Hi Hdup].
  assert (0 <= i < after_surrogates_index) as Hir by (apply Hrange; by left).
  destruct (UploadChunk_fresh h s st id c i (d i) Hc
              (Hnew i ltac:(by left))
              ltac:(by rewrite Htmp) Hir ltac:(by rewrite Htmp)
              ltac:(rewrite Htmp; apply Hnd; by left))
    as [ps Hstep].
  cbn zeta in Hstep. rewrite Htmp in Hstep.
  set (c1 := ChunkUpload.set_Chunks (<[i := true]> (ChunkUpload.Chunks c)) c) in *.
  set (f1 := <[chunkPath t i := NFile (d i)]> (fs st)) in *.
  destruct (decide (rest = [])) as [->|Hrest].
  - cbn [length] in Hcount.
    assert ((received c + 1 =? ChunkUpload.TotalChunks c) = true) as Hlast
      by (apply Z.eqb_eq; lia).
    rewrite Hlast in Hstep. cbn [map]. rewrite UploadChunks_single, Hstep.
    by exists ps, (<[i := true]> (ChunkUpload.Chunks c)).
  - assert (0 < length rest)%nat as Hlen by (destruct rest; [done|simpl; lia]).
    assert ((received c + 1 =? ChunkUpload.TotalChunks c) = false) as Hmore.
    { apply Z.eqb_neq. cbn [length] in Hcount. lia. }
    rewrite Hmore in Hstep. cbn [map UploadChunks]. rewrite Hstep.
    destruct (IH (mkState f1 ps (<[id := c1]> (chunkStore st))) c1)
      as (ps' & m & Hrun).
    + cbn. by rewrite lookup_insert_eq.
    + done.
    + cbn. unfold f1. rewrite Stat_insert_ne; [done|].
      by apply chunkPath_not_dir.
    + intros k Hk. apply Hrange. by right.
    + intros k Hk. cbn. unfold f1.
      destruct (decide (chunkPath t i = chunkPath t k)) as [->|Hneq];
        [by rewrite lookup_insert_eq|].
      rewrite lookup_insert_ne by done. apply Hnd. by right.
    + done.
    + intros k Hk. cbn. rewrite lookup_insert_ne; [apply Hnew; by right|].
      intros ->. done.
    + done.
    + unfold c1. rewrite received_insert by (apply Hnew; by left).
      cbn [length] in Hcount. cbn. lia.
    + exists ps', m. rewrite Hrun. cbn [fs chunkStore].
      rewrite insert_insert_eq. done.
Qed.

(** *** Putting the file together *)

Lemma nothing_below_lookup (f : gmap gostring node) (t p : gostring) :
  nothing_below f t -> HasPrefix p (t ++ [sep]) = true -> f !! p = None.
Proof.
  intros Hf Hp. destruct (f !! p) as [n|] eqn:Hl; [|done].
  apply (map_Forall_lookup_1 _ _ _ _ Hf) in Hl. cbn in Hl. congruence.
Qed.

Lemma content_insert_ne (f : gmap gostring node) (p q : gostring) (n : node) :
  p <> q -> content (<[p := n]> f) q = content f q.
Proof. intros Hne. unfold content. by rewrite lookup_insert_ne. Qed.

(** The loop appends the scratch files to the final file, in the order of
    the indices. *)
Lemma assemble_appends (t final : gostring) (indices : list Z) :
  forall (f : gmap gostring node) (old : list byte),
    f !! final = Some (NFile old) ->
    (forall i, i ∈ indices ->
       chunkPath t i <> [sep] /\ chunkPath t i <> final /\
       exists data, f !! chunkPath t i = Some (NFile data)) ->
    assemble f t final indices
    = (<[final := NFile (old ++ concat (map (fun i => content f (chunkPath t i))
                                            indices))]> f, None).
Proof.
  induction indices as [|i rest IH]; intros f old Hfinal Hfiles.
  - cbn. by rewrite app_nil_r, insert_id.
  - destruct (Hfiles i ltac:(by left)) as (Hroot & Hne & data & Hdata).
    cbn [assemble]. unfold os.ReadFile, os.Stat.
    destruct (decide (chunkPath t i = [sep])) as [?|_]; [done|].
    rewrite Hdata. unfold os.Write. rewrite Hfinal.
    rewrite (IH _ (old ++ data)).
    + rewrite insert_insert_eq. cbn [map concat].
      unfold content at 2. rewrite Hdata, <- app_assoc.
      do 5 f_equal. f_equal. apply map_ext_in. intros j Hj.
      apply list_elem_of_In in Hj.
      destruct (Hfiles j ltac:(by right)) as (_ & Hnej & _).
      by apply content_insert_ne.
    + by rewrite lookup_insert_eq.
    + intros j Hj. destruct (Hfiles j ltac:(by right)) as (Hr & Hnej & dj & Hdj).
      repeat split; [done..|]. exists dj. by rewrite lookup_insert_ne.
Qed.

Lemma RemoveAll_lookup_removed (f : gmap gostring node) (t p : gostring) :
  p = t \/ HasPrefix p (t ++ [sep]) = true -> os.RemoveAll f t !! p = None.
Proof.
  intros Hp. unfold os.RemoveAll. apply map_lookup_filter_None. right.
  intros n _ Hkeep. by apply Hkeep.
Qed.

Lemma RemoveAll_lookup_kept (f : gmap gostring node) (t p : gostring) :
  p <> t -> HasPrefix p (t ++ [sep]) = false ->
  os.RemoveAll f t !! p = f !! p.
Proof.
  intros Hne Hp. unfold os.RemoveAll.
  destruct (f !! p) as [n|] eqn:Hl.
  - apply map_lookup_filter_Some. split; [done|]. cbn. intros [?|?]; congruence.
  - apply map_lookup_filter_None. by left.
Qed.

Lemma scratch_dir_not_root (t : gostring) : scratch_dir t -> t <> [sep].
Proof.
  intros (bs & -> & Hbs & Hne) Heq. destruct bs as [|b bs]; [done|].
  apply Forall_cons in Hbs as [(Hb & _) _].
  injection Heq as Heq. by apply (join_cons_nonempty b bs).
Qed.

(** The finalization of a session whose scratch files are all there:
    the final file gets their bytes in index order, the scratch directory
    disappears and the session is deleted. *)
Lemma finalize_assembles (h : host) (s : service) (st : state) (id : gostring)
    (c : ChunkUpload.t) :
  let t := ChunkUpload.TempDir c in
  let final := Join [ChunkUpload.Destination c; ChunkUpload.Filename c] in
  chunkStore st !! id = Some c ->
  PathExists (fs st) final = false ->
  os.Stat (fs st) (Dir final) = Ok NDir ->
  (forall i, i ∈ upto (ChunkUpload.TotalChunks c) ->
     chunkPath t i <> [sep] /\ chunkPath t i <> final /\
     exists data, fs st !! chunkPath t i = Some (NFile data)) ->
  finalizeChunkedUpload h s st id
  = (mkState
       (os.RemoveAll
          (<[final := NFile (concat (map (fun i => content (fs st) (chunkPath t i))
                                       (upto (ChunkUpload.TotalChunks c))))]>
             (fs st)) t)
       (updateProgressCompleted (progressStore st) id)
       (delete id (chunkStore st)), None).
Proof.
  intros t final Hc Hnew Hdir Hfiles. unfold finalizeChunkedUpload.
  rewrite Hc. cbn [set_chunkStore fs progressStore chunkStore].
  fold final. rewrite Hnew. unfold os.MkdirAll. rewrite Hdir.
  unfold os.Create, os.write_file. rewrite Hdir.
  assert (os.Stat (fs st) final = Err ENOENT) as Hst.
  { unfold PathExists, os.Stat in *. destruct (decide (final = [sep])); [done|].
    by destruct (fs st !! final). }
  rewrite Hst. fold t.
  rewrite (assemble_appends t final _ _ []).
  - rewrite insert_insert_eq. cbn [app]. do 4 f_equal. f_equal.
    f_equal. apply map_ext_in. intros j Hj. apply list_elem_of_In in Hj.
    destruct (Hfiles j Hj) as (_ & Hne & _). by apply content_insert_ne.
  - by rewrite lookup_insert_eq.
  - intros j Hj. destruct (Hfiles j Hj) as (Hr & Hne & dj & Hdj).
    repeat split; [done..|]. exists dj. by rewrite lookup_insert_ne.
Qed.

Lemma Permutation_upto (order : list Z) (n : Z) :
  order ≡ₚ upto n ->
  NoDup order /\ (forall i, i ∈ order <-> 0 <= i < n) /\
  Z.of_nat (length order) = Z.max 0 n.
Proof.
  intros Hp. split; [|split].
  - rewrite Hp. apply NoDup_upto.
  - intros i. rewrite Hp. apply elem_of_upto.
  - rewrite Hp. unfold upto. rewrite length_map, length_seq. lia.
Qed.

Lemma chunked_upload_reassembly (h : host) (s : service) (st : state)
    (id : gostring) (c : ChunkUpload.t) (d : Z -> list byte) (order : list Z) :
  let t := ChunkUpload.TempDir c in
  let n := ChunkUpload.TotalChunks c in
  let final := Join [ChunkUpload.Destination c; ChunkUpload.Filename c] in
  chunkStore st !! id = Some c ->
  ChunkUpload.Chunks c = ∅ ->
  0 < n <= first_surrogate_index ->
  scratch_dir t -> os.Stat (fs st) t = Ok NDir -> nothing_below (fs st) t ->
  PathExists (fs st) final = false ->
  os.Stat (fs st) (Dir final) = Ok NDir ->
  HasPrefix final (t ++ [sep]) = false ->
  order ≡ₚ upto n ->
  exists st',
    UploadChunks h s st id (map (fun i => (i, d i)) order) = (st', None) /\
    os.ReadFile (fs st') final = Ok (concat (map d (upto n))) /\
    chunkStore st' !! id = None /\
    PathExists (fs st') t = false /\
    (forall p, p <> final -> p <> t -> HasPrefix p (t ++ [sep]) = false ->
       fs st' !! p = fs st !! p).
Proof.
  intros t n final Hc Hempty Hn Ht Hdir Hbelow Hnew Hdest Hout Hperm.
  destruct (Permutation_upto order n Hperm) as (Hdup & Hmem & Hlen).
  assert (forall i, i ∈ order -> 0 <= i < first_surrogate_index) as Hlow
    by (intros i Hi; apply Hmem in Hi; lia).
  assert (forall i, i ∈ order -> 0 <= i < after_surrogates_index) as Hrange
    by (intros i Hi; apply Hlow in Hi;
        unfold first_surrogate_index, after_surrogates_index in *; lia).
  assert (forall i, i ∈ order -> fs st !! chunkPath t i = None) as Hnone
    by (intros i Hi; apply (nothing_below_lookup _ t); [done|];
        by apply chunkPath_under, Hrange).
  assert (final <> [sep]) as Hroot
    by (intros Heq; unfold PathExists, os.Stat in Hnew; by rewrite Heq in Hnew).
  assert (final <> t) as Hft.
  { intros Heq. unfold PathExists in Hnew. by rewrite Heq, Hdir in Hnew. }
  assert (forall i, i ∈ order -> chunkPath t i <> final) as Hnf.
  { intros i Hi Heq. pose proof (chunkPath_under t i Ht (Hrange i Hi)) as Hu.
    rewrite Heq in Hu. congruence. }
  destruct (UploadChunks_to_finalize h s id d t order Ht st c Hc eq_refl Hdir
              Hrange) as (ps & m & Hrun).
  { intros i Hi. by rewrite Hnone. }
  { done. }
  { intros i _. by rewrite Hempty. }
  { intros ->. cbn in Hlen. lia. }
  { unfold received. rewrite Hempty, map_size_empty. fold n. lia. }
  rewrite Hrun.
  set (c1 := ChunkUpload.set_Chunks m c).
  set (st1 := mkState _ _ _).
  pose proof (finalize_assembles h s st1 id c1) as Hfin.
  cbn zeta in Hfin. cbn [ChunkUpload.TempDir ChunkUpload.Destination
    ChunkUpload.Filename ChunkUpload.TotalChunks c1 ChunkUpload.set_Chunks] in Hfin.
  fold t final n in Hfin. rewrite Hfin; clear Hfin.
  - eexists. split; [reflexivity|]. cbn [fs chunkStore st1].
    split; [|split; [|split]].
    + unfold os.ReadFile, os.Stat. destruct (decide (final = [sep])); [done|].
      rewrite RemoveAll_lookup_kept, lookup_insert_eq by done.
      do 2 f_equal. apply map_ext_in. intros i Hi.
      apply list_elem_of_In, elem_of_upto, Hmem in Hi.
      unfold content. by rewrite (scratch_lookup_own t d order (fs st) i Ht Hlow Hi).
    + by rewrite lookup_delete_eq.
    + unfold PathExists, os.Stat.
      destruct (decide (t = [sep])) as [Heq|_];
        [by apply scratch_dir_not_root in Heq|].
      rewrite RemoveAll_lookup_removed by by left. done.
    + intros p Hp1 Hp2 Hp3.
      rewrite RemoveAll_lookup_kept, lookup_insert_ne by done.
      apply scratch_lookup_other. intros i Hi Heq.
      pose proof (chunkPath_under t i Ht (Hrange i Hi)) as Hu.
      rewrite Heq in Hu. congruence.
  - cbn. by rewrite lookup_insert_eq.
  - cbn [fs st1]. unfold PathExists, os.Stat in *.
    destruct (decide (final = [sep])); [done|].
    by rewrite scratch_lookup_other.
  - cbn [fs st1]. unfold os.Stat in *.
    destruct (decide (Dir final = [sep])); [done|].
    rewrite scratch_lookup_other; [done|].
    intros i Hi Heq. rewrite <- Heq, (Hnone i Hi) in Hdest. done.
  - intros i Hi. apply elem_of_upto, Hmem in Hi. cbn [fs st1].
    split; [by apply chunkPath_not_root, Hrange|]. split; [by apply Hnf|].
    by apply scratch_lookup_file.
Qed.

(** Chunked upload, below the range where scratch-file names collide: a
    fresh session of [n] chunks whose chunks arrive once each, in any
    order, ends with the final file holding the chunks in index order;
    the session and its scratch directory are gone and nothing else in the
    file system has changed. *)
Theorem chunked_upload_any_order (h : host) (s : service) (st : state)
    (id : gostring) (c : ChunkUpload.t) (d : Z -> list byte) (order : list Z) :
  let t := ChunkUpload.TempDir c in
  let n := ChunkUpload.TotalChunks c in
  let final := Join [ChunkUpload.Destination c; ChunkUpload.Filename c] in
  chunkStore st !! id = Some c ->
  ChunkUpload.Chunks c = ∅ ->
  0 < n <= first_surrogate_index ->
  scratch_dir t -> os.Stat (fs st) t = Ok NDir -> nothing_below (fs st) t ->
  PathExists (fs st) final = false ->
  os.Stat (fs st) (Dir final) = Ok NDir ->
  HasPrefix final (t ++ [sep]) = false ->
  order ≡ₚ upto n ->
  exists st',
    UploadChunks h s st id (map (fun i => (i, d i)) order) = (st', None) /\
    os.ReadFile (fs st') final = Ok (concat (map d (upto n))) /\
    chunkStore st' !! id = None /\
    PathExists (fs st') t = false /\
    (forall p, p <> final -> p <> t -> HasPrefix p (t ++ [sep]) = false ->
       fs st' !! p = fs st !! p).
Proof.
  intros t n final. by apply chunked_upload_reassembly.
Qed.

Lemma chunked_upload_any_order_witness :
  exists st',
    UploadChunks sample_host sample_service fresh_session.1 "u1"
      (map (fun i => (i, [byte_of_Z i])) [2; 0; 1]) = (st', None) /\
    os.ReadFile (fs st') "/home/alice/a.bin" = Ok [x00; x01; x02] /\
    chunkStore st' !! ("u1" : gostring) = None /\
    PathExists (fs st') "/tmp/filemanager-chunks/u1" = false /\
    (forall p : gostring,
       p <> "/home/alice/a.bin" -> p <> "/tmp/filemanager-chunks/u1" ->
       HasPrefix p ("/tmp/filemanager-chunks/u1" ++ [sep]) = false ->
       fs st' !! p = fs fresh_session.1 !! p).
Proof.
  apply (chunked_upload_any_order sample_host sample_service fresh_session.1
           "u1" fresh_chunk (fun i => [byte_of_Z i]) [2; 0; 1]).
  - vm_compute. reflexivity.
  - reflexivity.
  - vm_compute. split; [reflexivity|discriminate].
  - exists ["tmp" : gostring; "filemanager-chunks" : gostring; "u1" : gostring].
    split; [reflexivity|]. split; [|discriminate].
    repeat constructor; apply plainb_plain; reflexivity.
  - vm_compute. reflexivity.
  - apply (bool_decide_unpack _). vm_compute. exact I.
  - vm_compute. reflexivity.
  - vm_compute. reflexivity.
  - vm_compute. reflexivity.
  - apply (Permutation_cons_append [0; 1] 2).
Defined.

(** ** The end of a session *)

(** Finalization removes the session from the store whatever its outcome,
    and touches no other session. *)
Theorem finalize_deletes_session (h : host) (s : service) (st : state)
    (id : gostring) :
  chunkStore (finalizeChunkedUpload h s st id).1 = delete id (chunkStore st).
Proof.
  unfold finalizeChunkedUpload.
  destruct (chunkStore st !! id) as [c|] eqn:Hc; [|by rewrite delete_id].
  cbn [set_chunkStore fs progressStore chunkStore].
  repeat match goal with
         | |- context [match ?x with _ => _ end] => destruct x
         end; reflexivity.
Qed.

Lemma Write_lookup_ne (f : gmap gostring node) (final p : gostring)
    (data : list byte) :
  p <> final -> os.Write f final data !! p = f !! p.
Proof.
  intros Hne. unfold os.Write. destruct (f !! final) as [[old|]|]; [|done..].
  by rewrite lookup_insert_ne.
Qed.

(** The loop stops with an error when the scratch file of one of the
    indices is not there. *)
Lemma assemble_missing (t final : gostring) (indices : list Z) (k : Z) :
  forall f : gmap gostring node,
    k ∈ indices -> chunkPath t k <> final ->
    (forall data, f !! chunkPath t k <> Some (NFile data)) ->
    exists f' e, assemble f t final indices = (f', Some e).
Proof.
  induction indices as [|i rest IH]; intros f Hk Hne Hnone;
    [by apply elem_of_nil in Hk|].
  cbn [assemble].
  destruct (os.ReadFile f (chunkPath t i)) as [data|e] eqn:Hread; [|by eauto].
  apply elem_of_cons in Hk as [->|Hk].
  - unfold os.ReadFile, os.Stat in Hread.
    destruct (decide (chunkPath t i = [sep])); [done|].
    destruct (f !! chunkPath t i) as [[d|]|] eqn:Hl; [|done..].
    by destruct (Hnone d).
  - apply IH; [done..|]. intros d. by rewrite Write_lookup_ne.
Qed.

(** [UploadChunk] does not compare the index with the number of chunks:
    when an index completes the count while the scratch file of an index
    below [TotalChunks] is missing, the call fails and the session is
    gone. *)
Theorem UploadChunk_count_reached_chunk_missing (h : host) (s : service)
    (st : state) (id : gostring) (c : ChunkUpload.t) (i k : Z) (data : list byte) :
  let t := ChunkUpload.TempDir c in
  let final := Join [ChunkUpload.Destination c; ChunkUpload.Filename c] in
  chunkStore st !! id = Some c ->
  ChunkUpload.Chunks c !! i = None ->
  received c + 1 = ChunkUpload.TotalChunks c ->
  scratch_dir t -> os.Stat (fs st) t = Ok NDir ->
  0 <= i < after_surrogates_index ->
  fs st !! chunkPath t i <> Some NDir ->
  0 <= k < ChunkUpload.TotalChunks c ->
  chunkPath t k <> chunkPath t i ->
  fs st !! chunkPath t k = None ->
  PathExists (fs st) final = false ->
  chunkPath t k <> final -> chunkPath t i <> final ->
  exists st' e,
    UploadChunk h s st id i data = (st', Some e) /\ chunkStore st' !! id = None.
Proof.
  intros t final Hc Hi Hcount Ht Hdir Hrange Hnd Hk Hki Hknone Hnew Hkf Hif.
  destruct (UploadChunk_fresh h s st id c i data Hc Hi Ht Hrange Hdir Hnd)
    as [ps Hstep].
  cbn zeta in Hstep. rewrite (proj2 (Z.eqb_eq _ _) Hcount) in Hstep.
  rewrite Hstep.
  match goal with
  | |- context [finalizeChunkedUpload h s ?x id] => set (st1 := x)
  end.
  pose proof (finalize_deletes_session h s st1 id) as Hdel.
  destruct (finalizeChunkedUpload h s st1 id) as [st' [e|]] eqn:Hfin.
  - exists st', e. split; [done|]. cbn in Hdel. rewrite Hdel.
    by rewrite lookup_delete_eq.
  - exfalso. unfold finalizeChunkedUpload in Hfin.
    cbn [st1 chunkStore] in Hfin. rewrite lookup_insert_eq in Hfin.
    cbn [set_chunkStore fs progressStore chunkStore ChunkUpload.Destination
         ChunkUpload.Filename ChunkUpload.TempDir ChunkUpload.TotalChunks
         ChunkUpload.set_Chunks] in Hfin.
    fold t final in Hfin.
    assert (PathExists (<[chunkPath t i := NFile data]> (fs st)) final = false)
      as Hnew'.
    { unfold PathExists, os.Stat in *. destruct (decide (final = [sep])); [done|].
      by rewrite lookup_insert_ne. }
    change (fs st1) with (<[chunkPath t i := NFile data]> (fs st)) in Hfin.
    rewrite Hnew' in Hfin.
    destruct (os.MkdirAll _ (Dir final)) as [fs1|e] eqn:Hmk; [|done].
    destruct (os.Create fs1 final) as [fs2|e] eqn:Hcr; [|done].
    destruct (assemble_missing t final (upto (ChunkUpload.TotalChunks c)) k fs2)
      as (f' & e & Hasm); [by apply elem_of_upto|done| |by rewrite Hasm in Hfin].
    unfold os.Create, os.write_file in Hcr.
    assert (fs2 = <[final := NFile []]> fs1) as ->.
    { destruct (os.Stat fs1 final) as [[?|]|?]; [|done|];
        by destruct (os.Stat fs1 (Dir final)) as [[?|]|?]; simplify_eq. }
    intros d. rewrite lookup_insert_ne by done.
    destruct (MkdirAll_frame _ _ _ Hmk (chunkPath t k)) as [->|[_ ->]]; [|done].
    rewrite lookup_insert_ne by done. by rewrite Hknone.
Qed.

Lemma UploadChunk_count_reached_chunk_missing_witness :
  exists st' e,
    UploadChunk sample_host sample_service out_of_range_state "s1" 9 [x63]
    = (st', Some e) /\ chunkStore st' !! ("s1" : gostring) = None.
Proof.
  apply (UploadChunk_count_reached_chunk_missing sample_host sample_service
           out_of_range_state "s1" out_of_range_session 9 1 [x63]).
  - vm_compute. reflexivity.
  - vm_compute. reflexivity.
  - vm_compute. reflexivity.
  - exists ["tmp" : gostring; "filemanager-chunks" : gostring; "s1" : gostring].
    split; [reflexivity|]. split; [|discriminate].
    repeat constructor; apply plainb_plain; reflexivity.
  - vm_compute. reflexivity.
  - unfold after_surrogates_index. lia.
  - vm_compute. discriminate.
  - cbn. lia.
  - vm_compute. discriminate.
  - vm_compute. reflexivity.
  - vm_compute. reflexivity.
  - vm_compute. discriminate.
  - vm_compute. discriminate.
Defined.

(** ** Initialising a session *)

(** The number of chunks of a session is the size divided by the chunk
    size, rounded up. *)
Theorem InitChunkedUpload_chunk_count (h : host) (s : service) (st : state)
    (uploadID filename destination destPath : gostring) (totalSize chunkSize : Z)
    (fs1 : gmap gostring node) :
  0 <= totalSize -> 0 < chunkSize -> totalSize + chunkSize <= max_int64 ->
  ValidatePath (Getwd h) (basePath s) destination = Ok destPath ->
  os.MkdirAll (fs st)
    (Join [os_TempDir h; "filemanager-chunks" : gostring; uploadID]) = Ok fs1 ->
  exists st' c n,
    InitChunkedUpload h s st uploadID filename destination totalSize chunkSize
    = (st', Ok c)
    /\ chunkStore st' !! uploadID = Some c
    /\ ChunkUpload.TotalChunks c = n
    /\ (n - 1) * chunkSize < totalSize <= n * chunkSize.
Proof.
  intros Htot Hchunk Hmax Hv Hmk.
  destruct (InitChunkedUpload_total_chunks h s st uploadID filename destination
              destPath totalSize chunkSize fs1 Htot Hchunk Hmax Hv Hmk)
    as (st' & c & Hrun & Hc & _ & _ & Hn).
  by exists st', c, (ChunkUpload.TotalChunks c).
Qed.

(** Runs [os.MkdirAll] on a given file system, looking up one path at a
    time. *)
Ltac eval_Stat :=
  repeat match goal with
         | |- context [os.Stat ?f ?p] =>
             let r := eval vm_compute in (os.Stat f p) in
             replace (os.Stat f p) with r by (vm_compute; reflexivity)
         end.

Ltac run_MkdirAll :=
  unfold os.MkdirAll; eval_Stat;
  match goal with
  | |- context [os.leading_dirs ?p] =>
      let r := eval vm_compute in (os.leading_dirs p) in
      change (os.leading_dirs p) with r
  | _ => idtac
  end;
  repeat (cbn [os.mkdir_chain]; eval_Stat);
  reflexivity.

Lemma InitChunkedUpload_chunk_count_witness :
  exists st' c n,
    InitChunkedUpload sample_host sample_service empty_home "u1" "a.bin" ""
      10000000 1000000 = (st', Ok c)
    /\ chunkStore st' !! ("u1" : gostring) = Some c
    /\ ChunkUpload.TotalChunks c = n
    /\ (n - 1) * 1000000 < 10000000 <= n * 1000000.
Proof.
  apply (InitChunkedUpload_chunk_count sample_host sample_service empty_home
           "u1" "a.bin" "" "/home/alice" 10000000 1000000
           (<[("/tmp/filemanager-chunks/u1" : gostring) := NDir]>
              (<[("/tmp/filemanager-chunks" : gostring) := NDir]> (fs empty_home)))).
  - lia.
  - lia.
  - unfold max_int64. lia.
  - vm_compute. reflexivity.
  - run_MkdirAll.
Defined.

(** A chunk size of zero makes [InitChunkedUpload] panic with a division
    by zero once the destination has been validated; nothing is created. *)
Theorem InitChunkedUpload_zero_chunk_size (h : host) (s : service) (st : state)
    (uploadID filename destination destPath : gostring) (totalSize : Z) :
  ValidatePath (Getwd h) (basePath s) destination = Ok destPath ->
  InitChunkedUpload h s st uploadID filename destination totalSize 0
  = (st, Err (Panic DivideByZero)).
Proof. intros Hv. unfold InitChunkedUpload. by rewrite Hv. Qed.

Lemma InitChunkedUpload_zero_chunk_size_witness :
  InitChunkedUpload sample_host sample_service empty_home "u1" "a.bin" "" 100 0
  = (empty_home, Err (Panic DivideByZero)).
Proof.
  apply (InitChunkedUpload_zero_chunk_size sample_host sample_service empty_home
           "u1" "a.bin" "" "/home/alice" 100).
  vm_compute. reflexivity.
Defined.

(** A session whose number of chunks is zero or negative (a total size of
    zero or less) is never finalized: whatever chunk is submitted, the
    session stays in the store. *)
Theorem UploadChunk_never_completes (h : host) (s : service) (st : state)
    (id : gostring) (c : ChunkUpload.t) (i : Z) (data : list byte) :
  chunkStore st !! id = Some c ->
  ChunkUpload.TotalChunks c <= 0 ->
  exists c',
    chunkStore (UploadChunk h s st id i data).1 !! id = Some c' /\
    ChunkUpload.TotalChunks c' = ChunkUpload.TotalChunks c.
Proof.
  intros Hc Hn. unfold UploadChunk. rewrite Hc.
  destruct (os.WriteFile _ _ _) as [fs1|e]; [|by exists c].
  cbn [progressStore ChunkUpload.ChunkSize ChunkUpload.TotalSize
       ChunkUpload.TotalChunks ChunkUpload.set_Chunks ChunkUpload.Chunks].
  match goal with
  | |- context [ProgressStore.Update ?ps ?k ?v] =>
      destruct (Update_never_panics ps k v) as [ps' ->]
  end.
  assert (0 < Z.of_nat (size (<[i := true]> (ChunkUpload.Chunks c)))) as Hpos.
  { destruct (ChunkUpload.Chunks c !! i) as [b|] eqn:Hi.
    - assert (size (<[i := true]> (ChunkUpload.Chunks c)) <> 0%nat); [|lia].
      intros H0. apply map_size_empty_inv in H0.
      by apply insert_non_empty in H0.
    - rewrite map_size_insert_None by done. lia. }
  destruct (_ =? _) eqn:Heq; [apply Z.eqb_eq in Heq; lia|].
  eexists. cbn. by rewrite lookup_insert_eq.
Qed.

Lemma UploadChunk_never_completes_witness :
  exists c',
    chunkStore (UploadChunk sample_host sample_service empty_file_session.1
                  "u1" 0 []).1 !! ("u1" : gostring) = Some c' /\
    ChunkUpload.TotalChunks c' = ChunkUpload.TotalChunks empty_file_chunk.
Proof.
  apply (UploadChunk_never_completes sample_host sample_service
           empty_file_session.1 "u1" empty_file_chunk 0 []).
  - vm_compute. reflexivity.
  - cbn. lia.
Defined.

(** ** File utilities *)

Lemma mode_bit_testbit (mode bit : Z) :
  0 <= bit -> mode_bit mode bit = Z.testbit mode bit.
Proof.
  intros Hb. unfold mode_bit. rewrite Z.shiftl_1_l.
  destruct (Z.testbit mode bit) eqn:Ht.
  - apply negb_true_iff, Z.eqb_neq. intros H0.
    assert (Z.testbit (Z.land mode (2 ^ bit)) bit = true) as Hb1
      by (rewrite Z.land_spec, Ht, Z.pow2_bits_true; done).
    rewrite H0, Z.bits_0 in Hb1. done.
  - apply negb_false_iff, Z.eqb_eq. apply Z.bits_inj'. intros k Hk.
    rewrite Z.land_spec, Z.bits_0, Z.pow2_bits_eqb by done.
    destruct (Z.eqb_spec bit k) as [->|_]; [by rewrite Ht|apply andb_false_r].
Qed.

Lemma FormatPermissions_bits (mode : Z) :
  FormatPermissions mode
  = [ if Z.testbit mode 8 then "r"%char else "-"%char;
      if Z.testbit mode 7 then "w"%char else "-"%char;
      if Z.testbit mode 6 then "x"%char else "-"%char;
      if Z.testbit mode 5 then "r"%char else "-"%char;
      if Z.testbit mode 4 then "w"%char else "-"%char;
      if Z.testbit mode 3 then "x"%char else "-"%char;
      if Z.testbit mode 2 then "r"%char else "-"%char;
      if Z.testbit mode 1 then "w"%char else "-"%char;
      if Z.testbit mode 0 then "x"%char else "-"%char ].
Proof.
  unfold FormatPermissions. change (upto 3) with [0; 1; 2].
  cbn [map concat app].
  by rewrite !mode_bit_testbit by lia.
Qed.

Lemma testbit_511 (k : Z) : 0 <= k -> Z.testbit 511 k = (k <? 9).
Proof.
  intros Hk. change 511 with (Z.ones 9).
  destruct (Z.ltb_spec k 9).
  - apply Z.ones_spec_low. lia.
  - apply Z.ones_spec_high. lia.
Qed.

(** [FormatPermissions] shows the nine permission bits and nothing else: two
    modes get the same text exactly when they agree on the bits [0o777]. *)
Theorem FormatPermissions_low_nine_bits (m1 m2 : Z) :
  FormatPermissions m1 = FormatPermissions m2 <-> Z.land m1 511 = Z.land m2 511.
Proof.
  rewrite !FormatPermissions_bits. split.
  - intros Heq. apply Z.bits_inj'. intros k Hk.
    rewrite !Z.land_spec, testbit_511 by done.
    destruct (Z.ltb_spec k 9) as [Hlt|_]; [|by rewrite !andb_false_r].
    rewrite !andb_true_r.
    assert (k = 0 \/ k = 1 \/ k = 2 \/ k = 3 \/ k = 4 \/ k = 5 \/ k = 6
            \/ k = 7 \/ k = 8) as Hcases by lia.
    remember (Z.testbit m1) as t1 eqn:E1. remember (Z.testbit m2) as t2 eqn:E2.
    clear E1 E2.
    injection Heq as H8 H7 H6 H5 H4 H3 H2 H1 H0.
    repeat (destruct Hcases as [->|Hcases]); try subst k;
      match goal with
      | |- t1 ?b = t2 ?b => by destruct (t1 b), (t2 b)
      end.
  - intros Heq.
    assert (forall k, 0 <= k < 9 -> Z.testbit m1 k = Z.testbit m2 k) as Hb.
    { intros k Hk.
      assert (Z.testbit (Z.land m1 511) k = Z.testbit (Z.land m2 511) k) as H
        by by rewrite Heq.
      rewrite !Z.land_spec, testbit_511 in H by lia.
      destruct (Z.ltb_spec k 9); [|lia]. by rewrite !andb_true_r in H. }
    by rewrite !(Hb _) by lia.
Qed.

Lemma unit_loop_spec (fuel : nat) : forall n div exp : Z,
  1 <= n < 1024 ^ Z.of_nat fuel -> 0 < div -> div * n <= max_int64 ->
  exists j,
    0 <= j /\ unit_loop fuel n div exp = Some (div * 1024 ^ j, exp + j) /\
    1024 ^ j <= n < 1024 ^ (j + 1).
Proof.
  induction fuel as [|fuel IH]; intros n div exp Hn Hdiv Hmax.
  - cbn in Hn. lia.
  - cbn [unit_loop]. destruct (Z.leb_spec 1024 n) as [Hbig|Hsmall].
    + rewrite Z.quot_div_nonneg by lia.
      assert (1 <= n / 1024) as Hq1 by (apply Z.div_le_lower_bound; lia).
      assert (1024 * (n / 1024) <= n) as Hq2 by (apply Z.mul_div_le; lia).
      assert (n < 1024 * (n / 1024) + 1024) as Hq3.
      { pose proof (Z.div_mod n 1024 ltac:(lia)).
        pose proof (Z.mod_pos_bound n 1024 ltac:(lia)). lia. }
      unfold mul64. rewrite wrap64_small by (unfold min_int64; nia).
      destruct (IH (n / 1024) (div * 1024) (exp + 1)) as (j & Hj & Hrun & Hlo & Hhi).
      * split; [done|].
        rewrite Nat2Z.inj_succ, Z.pow_succ_r in Hn by lia.
        apply Z.div_lt_upper_bound; lia.
      * lia.
      * nia.
      * exists (j + 1). split; [lia|]. rewrite Hrun.
        rewrite !Z.pow_add_r, !Z.pow_1_r by lia.
        split; [f_equal; f_equal; lia|].
        rewrite Z.pow_add_r, Z.pow_1_r in Hhi by lia. nia.
    + exists 0. split; [done|]. rewrite Z.mul_1_r, Z.add_0_r. split; [done|].
      cbn. lia.
Qed.

(** From 1024 bytes on, [FormatFileSize] never panics: the loop ends with an
    index into ["KMGTPE"] that is in range, and the unit it picks is the
    largest power of 1024 that does not exceed the size. *)
Theorem FormatFileSize_unit (Sprintf_1f : Z -> Z -> gostring) (bytes : Z) :
  1024 <= bytes <= max_int64 ->
  exists exp u,
    0 <= exp <= 5 /\
    nth_error ("KMGTPE" : gostring) (Z.to_nat exp) = Some u /\
    1024 ^ (exp + 1) <= bytes < 1024 ^ (exp + 2) /\
    FormatFileSize Sprintf_1f bytes
    = Some (inr (Sprintf_1f bytes (1024 ^ (exp + 1)) ++ " " ++ [u] ++ "B")).
Proof.
  intros Hb. unfold FormatFileSize.
  destruct (Z.ltb_spec bytes 1024) as [?|_]; [lia|].
  rewrite Z.quot_div_nonneg by lia.
  assert (1 <= bytes / 1024) as Hq1 by (apply Z.div_le_lower_bound; lia).
  assert (1024 * (bytes / 1024) <= bytes) as Hq2 by (apply Z.mul_div_le; lia).
  assert (bytes < 1024 * (bytes / 1024) + 1024) as Hq3.
  { pose proof (Z.div_mod bytes 1024 ltac:(lia)).
    pose proof (Z.mod_pos_bound bytes 1024 ltac:(lia)). lia. }
  destruct (unit_loop_spec 64 (bytes / 1024) 1024 0) as (j & Hj & Hrun & Hlo & Hhi).
  - split; [done|]. unfold max_int64 in Hb.
    apply Z.div_lt_upper_bound; [lia|].
    change (1024 ^ Z.of_nat 64) with (2 ^ 640). 
    assert (2 ^ 63 < 2 ^ 640) by (apply Z.pow_lt_mono_r; lia). lia.
  - lia.
  - lia.
  - rewrite Hrun, Z.add_0_l.
    assert (j <= 5) as Hj5.
    { destruct (Z.le_gt_cases j 5) as [?|Hgt]; [done|].
      assert (1024 ^ 6 <= 1024 ^ j) by (apply Z.pow_le_mono_r; lia).
      unfold max_int64 in Hb. change (1024 ^ 6) with (2 ^ 60) in *.
      change (2 ^ 63) with (8 * 2 ^ 60) in Hb. lia. }
    destruct (Z.ltb_spec j 0) as [?|_]; [lia|].
    assert (exists u, nth_error ("KMGTPE" : gostring) (Z.to_nat j) = Some u)
      as [u Hu].
    { assert (j = 0 \/ j = 1 \/ j = 2 \/ j = 3 \/ j = 4 \/ j = 5) as Hc by lia.
      repeat (destruct Hc as [->|Hc]); try subst j; by eexists. }
    exists j, u. rewrite Hu.
    replace (1024 * 1024 ^ j) with (1024 ^ (j + 1))
      by (rewrite Z.pow_add_r, Z.pow_1_r by lia; lia).
    split; [lia|]. split; [done|]. split; [|done].
    rewrite Z.pow_add_r, Z.pow_1_r in Hhi by lia.
    rewrite (Z.pow_add_r 1024 j 2), (Z.pow_add_r 1024 j 1) by lia.
    change (1024 ^ 1) with 1024. change (1024 ^ 2) with (1024 * 1024). nia.
Qed.

Lemma FormatFileSize_unit_witness :
  exists exp u,
    0 <= exp <= 5 /\
    nth_error ("KMGTPE" : gostring) (Z.to_nat exp) = Some u /\
    1024 ^ (exp + 1) <= 5368709120 < 1024 ^ (exp + 2) /\
    FormatFileSize truncated_1f 5368709120
    = Some (inr (truncated_1f 5368709120 (1024 ^ (exp + 1)) ++ " " ++ [u] ++ "B")).
Proof.
  apply (FormatFileSize_unit truncated_1f 5368709120).
  unfold max_int64. lia.
Defined.

(** ** The boundary of a multipart upload *)

Lemma HasPrefix_app (pre r : gostring) : HasPrefix (pre ++ r) pre = true.
Proof. apply bool_decide_eq_true_2. by exists r. Qed.

Lemma HasPrefix_true (s pre : gostring) :
  HasPrefix s pre = true -> s = pre ++ drop (length pre) s.
Proof.
  intros H. apply bool_decide_eq_true_1 in H as [r ->].
  by rewrite drop_app_length.
Qed.

Lemma parseBoundary_parts_panics (parts : list gostring) (f : fault) :
  parseBoundary_parts parts = inl f <->
  exists before part after,
    parts = before ++ part :: after /\
    Forall (fun p => HasPrefix (TrimSpace p) "boundary=" = false) before /\
    ((TrimSpace part = "boundary=" /\ f = IndexOutOfRange) \/
     (TrimSpace part = "boundary=" ++ [quote] /\ f = SliceBoundsOutOfRange)).
Proof.
  induction parts as [|p parts IH].
  - split; [done|]. intros (before & part & after & Heq & _).
    by destruct before.
  - cbn [parseBoundary_parts]. cbv zeta.
    destruct (HasPrefix (TrimSpace p) "boundary=") eqn:Hp.
    + pose proof (HasPrefix_true _ _ Hp) as Hs.
      unfold TrimPrefix. rewrite Hp.
      set (boundary := drop _ _) in *.
      assert (forall part before after,
                p :: parts = before ++ part :: after ->
                Forall (fun q => HasPrefix (TrimSpace q) "boundary=" = false) before ->
                part = p) as Hfirst.
      { intros part [|q before] after Heq Hall; [by injection Heq|].
        injection Heq as <- _. apply Forall_cons in Hall as [Hq _]. congruence. }
      destruct boundary as [|b0 rest] eqn:Hb.
      * cbn. split.
        -- intros [= <-]. exists [], p, parts. split; [done|]. split; [done|].
           left. split; [|done]. by rewrite Hs, app_nil_r.
        -- intros (before & part & after & Heq & Hall & Hcase).
           rewrite (Hfirst _ _ _ Heq Hall) in Hcase. rewrite app_nil_r in Hs.
           destruct Hcase as [[_ ->]|[Hq _]]; [done|].
           rewrite Hq in Hs. done.
      * destruct (last (b0 :: rest)) as [final|] eqn:Hl;
          [|by apply last_None in Hl].
        destruct (Ascii.eqb b0 quote && Ascii.eqb final quote) eqn:Hq.
        -- apply andb_true_iff in Hq as [H0 H1].
           apply Ascii.eqb_eq in H0, H1. subst b0 final.
           destruct rest as [|b1 rest].
           ++ cbn. split.
              ** intros [= <-]. exists [], p, parts. split; [done|].
                 split; [done|]. by right.
              ** intros (before & part & after & Heq & Hall & Hcase).
                 rewrite (Hfirst _ _ _ Heq Hall) in Hcase.
                 destruct Hcase as [[Hq _]|[_ ->]]; [|done].
                 rewrite Hq in Hs. by apply (f_equal (drop 9)) in Hs.
           ++ cbn [length Nat.sub Nat.leb]. split; [done|].
              intros (before & part & after & Heq & Hall & Hcase).
              rewrite (Hfirst _ _ _ Heq Hall) in Hcase.
              destruct Hcase as [[Hq _]|[Hq _]]; rewrite Hq in Hs.
              ** by apply (f_equal (drop 9)) in Hs.
              ** by apply (f_equal (drop 9)) in Hs.
        -- split; [done|].
           intros (before & part & after & Heq & Hall & Hcase).
           rewrite (Hfirst _ _ _ Heq Hall) in Hcase.
           destruct Hcase as [[Hc _]|[Hc _]]; rewrite Hc in Hs.
           ++ by apply (f_equal (drop 9)) in Hs.
           ++ apply (f_equal (drop 9)) in Hs. cbn in Hs. injection Hs as <- <-.
              cbn in Hl. injection Hl as <-. done.
    + rewrite IH. split.
      * intros (before & part & after & -> & Hall & Hcase).
        exists (p :: before), part, after. split; [done|]. split; [|done].
        by apply Forall_cons.
      * intros (before & part & after & Heq & Hall & Hcase).
        destruct before as [|q before].
        -- injection Heq as <- _.
           destruct Hcase as [[Hc _]|[Hc _]]; rewrite Hc in Hp; done.
        -- injection Heq as <- ->. apply Forall_cons in Hall as [_ Hall].
           by exists before, part, after.
Qed.

(** [parseBoundary] panics exactly when the first part of the header that
    begins with [boundary=] holds nothing else (index out of range) or only
    a double quote (slice bounds out of range). *)
Theorem parseBoundary_panics (contentType : gostring) (f : fault) :
  parseBoundary contentType = inl f <->
  exists before part after,
    Split contentType ";" = before ++ part :: after /\
    Forall (fun p => HasPrefix (TrimSpace p) "boundary=" = false) before /\
    ((TrimSpace part = "boundary=" /\ f = IndexOutOfRange) \/
     (TrimSpace part = "boundary=" ++ [quote] /\ f = SliceBoundsOutOfRange)).
Proof. apply parseBoundary_parts_panics. Qed.

Lemma Split_nosep (s : gostring) (c : ascii) : c ∉ s -> Split s c = [s].
Proof.
  induction s as [|b s IH]; intros Hc; [done|].
  apply not_elem_of_cons in Hc as [Hb Hs]. cbn [Split].
  destruct (Ascii.eqb_spec b c) as [->|_]; [done|]. by rewrite IH.
Qed.

Lemma Split_app_sep (a r : gostring) (c : ascii) :
  c ∉ a -> Split (a ++ c :: r) c = a :: Split r c.
Proof.
  induction a as [|b a IH]; intros Hc; cbn [app Split].
  - by rewrite Ascii.eqb_refl.
  - apply not_elem_of_cons in Hc as [Hb Ha].
    destruct (Ascii.eqb_spec b c) as [->|_]; [done|]. by rewrite IH.
Qed.

Lemma filter_none {A} (P : A -> Prop) `{!forall x, Decision (P x)} (l : list A) :
  Forall (fun x => ~ P x) l -> filter P l = [].
Proof.
  induction 1 as [|x l Hx Hl IH]; [done|]. by rewrite filter_cons_False.
Qed.

Lemma HasPrefix_cons_inv (x y : ascii) (r sp : gostring) :
  HasPrefix (x :: r) (y :: sp) = true -> y = x.
Proof.
  intros H. apply bool_decide_eq_true_1 in H. by apply prefix_cons_inv_1 in H.
Qed.

Lemma HasSuffix_snoc_inv (x y : ascii) (r sp : gostring) :
  HasSuffix (r ++ [x]) (sp ++ [y]) = true -> y = x.
Proof.
  intros H. apply bool_decide_eq_true_1 in H. by apply suffix_snoc_inv_1 in H.
Qed.

Lemma space_first_bytes :
  Forall (fun sp => exists y r, sp = y :: r /\ graphic y = false) space_encodings.
Proof.
  unfold space_encodings.
  repeat (apply Forall_cons; split; [by eexists _, _|]). apply Forall_nil_2.
Qed.

Lemma space_last_bytes :
  Forall (fun sp => exists r z, sp = r ++ [z] /\ graphic z = false) space_encodings.
Proof.
  unfold space_encodings.
  repeat (apply Forall_cons; split;
          [first [by eexists [], _ | by eexists [_], _ | by eexists [_; _], _]|]).
  apply Forall_nil_2.
Qed.

Lemma strip_space_left_graphic (x : ascii) (r : gostring) :
  graphic x = true -> strip_space_left (x :: r) = None.
Proof.
  intros Hx. unfold strip_space_left. rewrite filter_none; [done|].
  eapply Forall_impl; [apply space_first_bytes|].
  intros sp (y & t & -> & Hy) H. apply HasPrefix_cons_inv in H. congruence.
Qed.

Lemma strip_space_right_graphic (s : gostring) (y : ascii) :
  last s = Some y -> graphic y = true -> strip_space_right s = None.
Proof.
  intros Hl Hy. apply last_Some in Hl as [s' ->].
  unfold strip_space_right. rewrite filter_none; [done|].
  eapply Forall_impl; [apply space_last_bytes|].
  intros sp (t & z & -> & Hz) H. apply HasSuffix_snoc_inv in H. congruence.
Qed.

(** [TrimSpace] leaves a text alone that begins and ends with a printable
    byte other than a blank. *)
Lemma TrimSpace_graphic (x y : ascii) (r : gostring) :
  graphic x = true -> last (x :: r) = Some y -> graphic y = true ->
  TrimSpace (x :: r) = x :: r.
Proof.
  intros Hx Hl Hy. unfold TrimSpace. cbn [length trim_left].
  rewrite strip_space_left_graphic by done. cbn [length trim_right].
  by rewrite (strip_space_right_graphic _ y).
Qed.

Lemma TrimSpace_blank_graphic (x y : ascii) (r : gostring) :
  graphic x = true -> last (x :: r) = Some y -> graphic y = true ->
  TrimSpace (" "%char :: x :: r) = x :: r.
Proof.
  intros Hx Hl Hy. unfold TrimSpace. cbn [length trim_left].
  assert (strip_space_left (" "%char :: x :: r) = Some (x :: r)) as ->.
  { unfold strip_space_left, space_encodings.
    do 5 (rewrite filter_cons_False
            by (intros H; apply HasPrefix_cons_inv in H; discriminate)).
    rewrite filter_cons_True; [done|].
    apply bool_decide_eq_true_2. by exists (x :: r). }
  destruct (length r); cbn [trim_left]; rewrite ?strip_space_left_graphic by done;
    cbn [length trim_right]; by rewrite (strip_space_right_graphic _ y).
Qed.

(** What [parseBoundary] returns for the usual headers: a boundary written
    after [; boundary=] comes back as it is, and one written between double
    quotes comes back without them. *)
Theorem parseBoundary_reads_boundary (mediaType b : gostring) (x y : ascii) :
  ";"%char ∉ mediaType -> ";"%char ∉ b ->
  HasPrefix (TrimSpace mediaType) "boundary=" = false ->
  (head b = Some x -> last b = Some y -> graphic y = true ->
   ~ (x = quote /\ y = quote) ->
   parseBoundary (mediaType ++ "; boundary=" ++ b) = inr (Some b)) /\
  parseBoundary (mediaType ++ "; boundary=" ++ quote :: b ++ [quote])
  = inr (Some b).
Proof.
  intros Hm Hb Hmt. split.
  - intros Hx Hy Hg Hq. apply head_Some in Hx as [b' ->].
    unfold parseBoundary.
    change (mediaType ++ "; boundary=" ++ x :: b')
      with (mediaType ++ ";"%char :: " boundary=" ++ x :: b').
    rewrite Split_app_sep by done. rewrite Split_nosep.
    2:{ intros Hin. apply elem_of_app in Hin as [Hin|Hin]; [|done].
        vm_compute in Hin. repeat (apply elem_of_cons in Hin as [?|Hin]; [done|]).
        by apply elem_of_nil in Hin. }
    cbn [parseBoundary_parts]. cbv zeta. rewrite Hmt.
    change (" boundary=" ++ x :: b')
      with (" "%char :: "b"%char :: "oundary=" ++ x :: b').
    rewrite (TrimSpace_blank_graphic _ y); [|done| |done].
    2:{ change ("b"%char :: "oundary=" ++ x :: b')
          with (("boundary=" : gostring) ++ x :: b').
        by rewrite last_app, Hy. }
    change ("b"%char :: "oundary=" ++ x :: b')
      with (("boundary=" : gostring) ++ x :: b').
    rewrite HasPrefix_app. unfold TrimPrefix. rewrite HasPrefix_app.
    rewrite drop_app_length. rewrite Hy.
    destruct (Ascii.eqb x quote && Ascii.eqb y quote) eqn:Hxy; [|done].
    apply andb_true_iff in Hxy as [H1 H2]. apply Ascii.eqb_eq in H1, H2.
    by destruct Hq.
  - unfold parseBoundary.
    change (mediaType ++ "; boundary=" ++ quote :: b ++ [quote])
      with (mediaType ++ ";"%char :: " boundary=" ++ quote :: b ++ [quote]).
    rewrite Split_app_sep by done. rewrite Split_nosep.
    2:{ intros Hin. apply elem_of_app in Hin as [Hin|Hin].
        - vm_compute in Hin.
          repeat (apply elem_of_cons in Hin as [?|Hin]; [done|]).
          by apply elem_of_nil in Hin.
        - apply elem_of_cons in Hin as [?|Hin]; [done|].
          apply elem_of_app in Hin as [?|Hin]; [done|].
          by apply list_elem_of_singleton in Hin. }
    cbn [parseBoundary_parts]. cbv zeta. rewrite Hmt.
    change (" boundary=" ++ quote :: b ++ [quote])
      with (" "%char :: "b"%char :: "oundary=" ++ quote :: b ++ [quote]).
    rewrite (TrimSpace_blank_graphic _ quote); [|done| |done].
    2:{ change ("b"%char :: "oundary=" ++ quote :: b ++ [quote])
          with (("boundary=" ++ quote :: b) ++ [quote]).
        apply last_snoc. }
    change ("b"%char :: "oundary=" ++ quote :: b ++ [quote])
      with (("boundary=" : gostring) ++ quote :: b ++ [quote]).
    rewrite HasPrefix_app. unfold TrimPrefix. rewrite HasPrefix_app.
    rewrite drop_app_length.
    change (quote :: b ++ [quote]) with ((quote :: b) ++ [quote]).
    rewrite last_snoc. cbn [app]. rewrite Ascii.eqb_refl. cbn [andb].
    cbn [length drop]. rewrite length_app. cbn [length].
    replace (S (length b + 1) - 1)%nat with (S (length b)) by lia.
    cbn [Nat.leb Nat.sub]. rewrite Nat.sub_0_r.
    by rewrite drop_0, take_app_length.
Qed.

Lemma parseBoundary_reads_boundary_witness :
  parseBoundary "multipart/form-data; boundary=XyZ123"
  = inr (Some ("XyZ123" : gostring)) /\
  parseBoundary ("multipart/form-data; boundary=" ++ quote :: "XyZ123" ++ [quote])
  = inr (Some ("XyZ123" : gostring)).
Proof.
  destruct (parseBoundary_reads_boundary "multipart/form-data" "XyZ123"
              "X"%char "3"%char) as [H1 H2].
  - apply (bool_decide_unpack _). vm_compute. exact I.
  - apply (bool_decide_unpack _). vm_compute. exact I.
  - vm_compute. reflexivity.
  - split; [|exact H2]. apply H1; [reflexivity..|].
    intros [Hx _]. discriminate Hx.
Defined.

(** ** Raw shell commands *)

Section RawCommandFacts.

Variable unicode_ToLower : gostring -> gostring.
Variable world : Type.
Variable bash : world -> gostring -> world * (gostring * gostring * run_end).

Lemma check_patterns_None (lowerCmd : gostring) (patterns : list gostring) :
  check_patterns unicode_ToLower lowerCmd patterns = None <->
  forall pattern, pattern ∈ patterns ->
    Contains lowerCmd (ToLower unicode_ToLower pattern) = false.
Proof.
  induction patterns as [|p ps IH]; cbn [check_patterns].
  - split; [|done]. intros _ q Hq. by apply elem_of_nil in Hq.
  - destruct (Contains lowerCmd (ToLower unicode_ToLower p)) eqn:Hp.
    + split; [done|]. intros H. rewrite H in Hp by by left. done.
    + rewrite IH. split.
      * intros H q Hq. apply elem_of_cons in Hq as [->|Hq]; [done|by apply H].
      * intros H q Hq. apply H. by right.
Qed.

Lemma check_parts_None (base : gostring) (parts : list gostring) :
  check_parts base parts = None <->
  forall part, part ∈ parts ->
    HasPrefix part "/" = true -> HasPrefix part base = true.
Proof.
  induction parts as [|p ps IH]; cbn [check_parts].
  - split; [|done]. intros _ q Hq. by apply elem_of_nil in Hq.
  - destruct (HasPrefix p "/") eqn:H1, (HasPrefix p base) eqn:H2; cbn [andb negb].
    2:{ split; [done|]. intros H. rewrite H in H2 by (done || by left). done. }
    all: rewrite IH; split;
      [intros H q Hq; apply elem_of_cons in Hq as [->|Hq];
         [congruence|by apply H]
      |intros H q Hq; apply H; by right].
Qed.

Lemma check_ops_None (base command : gostring) (ops : list gostring) :
  check_ops base command ops = None <->
  ((exists op, op ∈ ops /\ Contains command op = true) ->
   check_parts base (Fields command) = None).
Proof.
  induction ops as [|op ops IH]; cbn [check_ops].
  - split; [|done]. intros _ (op & Hop & _). by apply elem_of_nil in Hop.
  - destruct (Contains command op) eqn:Hc.
    + destruct (check_parts base (Fields command)) as [e|] eqn:Hp.
      * split; [done|]. intros H. apply H. exists op. split; [by left|done].
      * rewrite IH. split; [done|]. intros _ _. done.
    + rewrite IH. split.
      * intros H (op' & Hin & Hc'). apply elem_of_cons in Hin as [->|Hin];
          [congruence|]. apply H. by exists op'.
      * intros H (op' & Hin & Hc'). apply H. exists op'. split; [by right|done].
Qed.

(** What [validateCommand] lets through: a command whose lower-case form
    holds none of the dangerous patterns and, when a base path is set,
    that does not hold [../] and, if it holds one of the file operations,
    has no field that begins with [/] without beginning with the base
    path. *)
Theorem validateCommand_accepts (s : service) (command : gostring) :
  validateCommand unicode_ToLower s command = None <->
  (forall pattern, pattern ∈ dangerousPatterns ->
     Contains (ToLower unicode_ToLower command)
       (ToLower unicode_ToLower pattern) = false) /\
  (basePath s <> [] ->
   Contains command "../" = false /\
   ((exists op, op ∈ fileOps /\ Contains command op = true) ->
    forall part, part ∈ Fields command ->
      HasPrefix part "/" = true -> HasPrefix part (basePath s) = true)).
Proof.
  unfold validateCommand.
  destruct (check_patterns _ _ _) as [e|] eqn:Hpat.
  - split; [done|]. intros [H _].
    apply (proj2 (check_patterns_None _ _)) in H. congruence.
  - pose proof (proj1 (check_patterns_None _ _) Hpat) as Hpat'.
    destruct (decide (basePath s <> [])) as [Hb|Hb].
    + destruct (Contains command "../") eqn:Hdd.
      * split; [done|]. intros [_ H]. by destruct (H Hb).
      * rewrite check_ops_None, check_parts_None. split.
        -- intros H. split; [done|]. intros _. split; [done|]. exact H.
        -- intros [_ H]. by destruct (H Hb).
    + split; [|done]. intros _. split; [done|]. intros H. done.
Qed.

Lemma executeCommand_Command (s : service) (w : world) (command : gostring) :
  Command (executeCommand unicode_ToLower world bash s w command).2 = command.
Proof.
  unfold executeCommand. destruct (validateCommand _ _ _); [done|].
  destruct (bash w _) as [w' [[out err] [|code|]]]; done.
Qed.

(** [ExecuteCommands] answers every command, in order, and runs exactly the
    commands that [validateCommand] lets through: the machine ends in the
    state these commands, one after the other, leave it in, and a command
    that is turned down is answered with the exit code 1, no output and the
    text of the error. *)
Theorem ExecuteCommands_runs_accepted (s : service) (commands : list gostring)
    (w : world) :
  let run := ExecuteCommands unicode_ToLower world bash s w commands in
  map Command run.2 = commands /\
  run.1 = fold_left (fun w c => (bash w (shellCmd s c)).1)
            (filter (fun c => validateCommand unicode_ToLower s c = None) commands)
            w /\
  (forall r e, r ∈ run.2 ->
     validateCommand unicode_ToLower s (Command r) = Some e ->
     Output r = [] /\ Error_ r = command_error_text e /\ ExitCode r = 1).
Proof.
  revert w. induction commands as [|c cs IH]; intros w; cbn zeta.
  - cbn. split; [done|]. split; [done|]. intros r e Hr. by apply elem_of_nil in Hr.
  - cbn [ExecuteCommands].
    pose proof (executeCommand_Command s w c) as Hcmd.
    destruct (executeCommand unicode_ToLower world bash s w c) as [w1 r1] eqn:Hex.
    specialize (IH w1). cbn zeta in IH.
    destruct (ExecuteCommands unicode_ToLower world bash s w1 cs) as [w2 rs].
    destruct IH as (IH1 & IH2 & IH3). cbn [fst snd map] in *.
    split; [by rewrite Hcmd, IH1|].
    unfold executeCommand in Hex.
    destruct (validateCommand unicode_ToLower s c) as [e|] eqn:Hv.
    + injection Hex as <- <-. rewrite filter_cons_False by congruence.
      split; [done|]. intros r e' Hr Hre.
      apply elem_of_cons in Hr as [->|Hr]; [|by eapply IH3].
      cbn in *. by simplify_eq.
    + rewrite filter_cons_True by done. cbn [fold_left].
      destruct (bash w (shellCmd s c)) as [w' [[out err] en]].
      injection Hex as <- <-. split; [done|]. intros r e' Hr Hre.
      apply elem_of_cons in Hr as [->|Hr]; [|by eapply IH3].
      destruct en; cbn in Hre; congruence.
Qed.

End RawCommandFacts.

(** ** Copying a file *)

Lemma CopyFile_between (f : gmap gostring node) (src dst : gostring)
    (data : list byte) (preserveMetadata : bool) :
  src <> dst ->
  os.ReadFile f src = Ok data ->
  os.Stat f (Dir dst) = Ok NDir ->
  os.Stat f dst <> Ok NDir ->
  CopyFile f src dst preserveMetadata = (<[dst := NFile data]> f, None).
Proof.
  intros Hne Hsrc Hdir Hdst. unfold CopyFile.
  assert (exists n, os.Stat f src = Ok n) as [n ->].
  { unfold os.ReadFile in Hsrc. destruct (os.Stat f src) as [n|e]; [by eexists|done]. }
  unfold os.MkdirAll. rewrite Hdir. unfold os.Create, os.write_file. rewrite Hdir.
  assert (os.Stat (<[dst := NFile []]> f) src = os.Stat f src) as Hsame
    by by apply Stat_insert_ne.
  destruct (os.Stat f dst) as [[old|]|e] eqn:Hst; [|done|];
    unfold os.ReadFile in *; rewrite Hsame;
    destruct (os.Stat f src) as [[d|]|e']; simplify_eq;
    unfold os.Write; rewrite lookup_insert_eq, insert_insert_eq; done.
Qed.

(** [CopyFile] puts the bytes of the source into the destination, replacing
    what was there, and changes nothing else. *)
Theorem CopyFile_copies (f : gmap gostring node) (src dst : gostring)
    (data : list byte) (preserveMetadata : bool) :
  src <> dst ->
  os.ReadFile f src = Ok data ->
  os.Stat f (Dir dst) = Ok NDir ->
  os.Stat f dst <> Ok NDir ->
  CopyFile f src dst preserveMetadata = (<[dst := NFile data]> f, None).
Proof. by apply CopyFile_between. Qed.

Lemma CopyFile_copies_witness :
  CopyFile sample_docs_fs "/home/alice/a.txt" "/home/alice/b.txt" true
  = (<[("/home/alice/b.txt" : gostring) := NFile [x68; x69]]> sample_docs_fs, None).
Proof.
  apply (CopyFile_copies sample_docs_fs "/home/alice/a.txt" "/home/alice/b.txt").
  - discriminate.
  - vm_compute. reflexivity.
  - vm_compute. reflexivity.
  - vm_compute. discriminate.
Defined.

Lemma CopyFile_same_path (f : gmap gostring node) (path : gostring)
    (data : list byte) (preserveMetadata : bool) :
  os.ReadFile f path = Ok data ->
  os.Stat f (Dir path) = Ok NDir ->
  CopyFile f path path preserveMetadata = (<[path := NFile []]> f, None).
Proof.
  intros Hsrc Hdir. unfold CopyFile, os.ReadFile in *.
  destruct (os.Stat f path) as [[d|]|e] eqn:Hst; [|done..]. simplify_eq.
  unfold os.MkdirAll. rewrite Hdir. unfold os.Create, os.write_file.
  rewrite Hst, Hdir.
  assert (path <> [sep]) as Hroot
    by (intros ->; unfold os.Stat in Hst; by destruct (decide _)).
  unfold os.Stat at 1. destruct (decide (path = [sep])); [done|].
  rewrite lookup_insert_eq. unfold os.Write.
  by rewrite lookup_insert_eq, insert_insert_eq.
Qed.

(** Copying a file onto itself empties it: the destination is created, and
    so cut to length zero, before the source is read; the call reports
    success. *)
Theorem CopyFile_onto_itself (f : gmap gostring node) (path : gostring)
    (data : list byte) (preserveMetadata : bool) :
  os.ReadFile f path = Ok data ->
  os.Stat f (Dir path) = Ok NDir ->
  CopyFile f path path preserveMetadata = (<[path := NFile []]> f, None).
Proof. by apply CopyFile_same_path. Qed.

Lemma CopyFile_onto_itself_witness :
  CopyFile sample_docs_fs "/home/alice/a.txt" "/home/alice/a.txt" true
  = (<[("/home/alice/a.txt" : gostring) := NFile []]> sample_docs_fs, None).
Proof.
  apply (CopyFile_onto_itself sample_docs_fs "/home/alice/a.txt" [x68; x69]).
  - vm_compute. reflexivity.
  - vm_compute. reflexivity.
Defined.

(** ** The file manager *)

Lemma PathExists_false (f : gmap gostring node) (p : gostring) :
  PathExists f p = false <-> p <> [sep] /\ f !! p = None.
Proof.
  unfold PathExists, os.Stat. destruct (decide (p = [sep])) as [->|Hne].
  - split; [done|]. by intros [? _].
  - destruct (f !! p); split; try done. by intros [_ ?].
Qed.

Lemma GetInfo_file (h : host) (s : service) (f : gmap gostring node)
    (relativePath fullPath : gostring) (data : list byte) :
  ValidatePath (Getwd h) (basePath s) relativePath = Ok fullPath ->
  os.Stat f fullPath = Ok (NFile data) ->
  exists info,
    GetInfo h s f relativePath = FmOk info /\
    FileInfo.Size info = Z.of_nat (length data) /\
    FileInfo.IsDir info = false /\
    FileInfo.Name info = Base fullPath.
Proof.
  intros Hv Hst. unfold GetInfo, getInfoLocal. rewrite Hv, Hst. by eexists.
Qed.

Lemma GetContent_file (h : host) (s : service) (f : gmap gostring node)
    (relativePath fullPath : gostring) (data : list byte) (info : FileInfo.t) :
  ValidatePath (Getwd h) (basePath s) relativePath = Ok fullPath ->
  os.Stat f fullPath = Ok (NFile data) ->
  GetInfo h s f relativePath = FmOk info ->
  GetContent h s f relativePath = FmOk (data, info).
Proof.
  intros Hv Hst Hinfo. unfold GetContent. rewrite Hv, Hinfo.
  unfold GetInfo, getInfoLocal in Hinfo. rewrite Hv, Hst in Hinfo.
  injection Hinfo as <-. cbn [FileInfo.IsDir]. unfold os.ReadFile. by rewrite Hst.
Qed.

Lemma Stat_insert_file (f : gmap gostring node) (p : gostring) (data : list byte) :
  p <> [sep] -> os.Stat (<[p := NFile data]> f) p = Ok (NFile data).
Proof.
  intros Hne. unfold os.Stat. destruct (decide (p = [sep])); [done|].
  by rewrite lookup_insert_eq.
Qed.

(** [CreateFile] never replaces what exists; where the path is free and
    its parent directory exists, the file is created with the content,
    which [GetContent] then returns. *)
Theorem CreateFile_creates_or_refuses (h : host) (s : service)
    (f : gmap gostring node) (relativePath fullPath : gostring)
    (content : list byte) :
  ValidatePath (Getwd h) (basePath s) relativePath = Ok fullPath ->
  (PathExists f fullPath = true ->
   CreateFile h s f relativePath content = (f, FmErr ErrAlreadyExists)) /\
  (PathExists f fullPath = false -> os.Stat f (Dir fullPath) = Ok NDir ->
   exists info,
     CreateFile h s f relativePath content
     = (<[fullPath := NFile content]> f, FmOk info) /\
     FileInfo.Size info = Z.of_nat (length content) /\
     FileInfo.IsDir info = false /\
     GetContent h s (<[fullPath := NFile content]> f) relativePath
     = FmOk (content, info)).
Proof.
  intros Hv. unfold CreateFile, createFileLocal. rewrite Hv. split.
  - by intros ->.
  - intros Hnew Hdir. rewrite Hnew.
    apply PathExists_false in Hnew as [Hroot Hnone].
    unfold os.MkdirAll. rewrite Hdir. unfold os.WriteFile, os.write_file.
    rewrite Hdir. unfold os.Stat at 1.
    destruct (decide (fullPath = [sep])); [done|]. rewrite Hnone.
    destruct (GetInfo_file h s (<[fullPath := NFile content]> f) relativePath
                fullPath content Hv (Stat_insert_file _ _ _ Hroot))
      as (info & Hinfo & Hsize & Hisdir & _).
    exists info. rewrite Hinfo. split; [done|]. split; [done|]. split; [done|].
    by apply (GetContent_file h s _ relativePath fullPath);
      [|apply Stat_insert_file|].
Qed.

(** [UpdateFile] only rewrites a file that is there: a missing path and a
    directory are turned down and nothing changes; the content of a file
    is replaced, and [GetContent] then returns the new content. *)
Theorem UpdateFile_replaces_content (h : host) (s : service)
    (f : gmap gostring node) (relativePath fullPath : gostring)
    (old content : list byte) :
  ValidatePath (Getwd h) (basePath s) relativePath = Ok fullPath ->
  (PathExists f fullPath = false ->
   UpdateFile h s f relativePath content = (f, FmErr (Sys ErrNotFound))) /\
  (os.Stat f fullPath = Ok NDir ->
   UpdateFile h s f relativePath content = (f, FmErr ErrNotAFile)) /\
  (os.Stat f fullPath = Ok (NFile old) ->
   os.Stat f (Dir fullPath) = Ok NDir ->
   exists info,
     UpdateFile h s f relativePath content
     = (<[fullPath := NFile content]> f, FmOk info) /\
     FileInfo.Size info = Z.of_nat (length content) /\
     GetContent h s (<[fullPath := NFile content]> f) relativePath
     = FmOk (content, info)).
Proof.
  intros Hv. unfold UpdateFile, updateFileLocal. rewrite Hv.
  split; [by intros ->|]. split.
  - intros Hst. unfold PathExists, IsDir. by rewrite Hst.
  - intros Hst Hdir. unfold PathExists, IsDir. rewrite Hst. cbn [is_ok negb].
    unfold os.WriteFile, os.write_file. rewrite Hst, Hdir.
    assert (fullPath <> [sep]) as Hroot
      by (intros ->; unfold os.Stat in Hst; by destruct (decide _)).
    destruct (GetInfo_file h s (<[fullPath := NFile content]> f) relativePath
                fullPath content Hv (Stat_insert_file _ _ _ Hroot))
      as (info & Hinfo & Hsize & Hisdir & _).
    exists info. rewrite Hinfo. split; [done|]. split; [done|].
    by apply (GetContent_file h s _ relativePath fullPath);
      [|apply Stat_insert_file|].
Qed.

Lemma CreateFile_creates_or_refuses_witness :
  CreateFile sample_host sample_service sample_docs_fs "a.txt" [x21]
  = (sample_docs_fs, FmErr ErrAlreadyExists) /\
  exists info,
    CreateFile sample_host sample_service sample_docs_fs "notes/../c.txt" [x21]
    = (<[("/home/alice/c.txt" : gostring) := NFile [x21]]> sample_docs_fs,
       FmOk info) /\
    FileInfo.Size info = 1 /\
    FileInfo.IsDir info = false /\
    GetContent sample_host sample_service
      (<[("/home/alice/c.txt" : gostring) := NFile [x21]]> sample_docs_fs)
      "notes/../c.txt"
    = FmOk ([x21], info).
Proof.
  split.
  - apply (CreateFile_creates_or_refuses sample_host sample_service
             sample_docs_fs "a.txt" "/home/alice/a.txt" [x21]);
      vm_compute; reflexivity.
  - apply (CreateFile_creates_or_refuses sample_host sample_service
             sample_docs_fs "notes/../c.txt" "/home/alice/c.txt" [x21]);
      vm_compute; reflexivity.
Defined.

Lemma UpdateFile_replaces_content_witness :
  UpdateFile sample_host sample_service sample_docs_fs "c.txt" [x21]
  = (sample_docs_fs, FmErr (Sys ErrNotFound)) /\
  UpdateFile sample_host sample_service sample_docs_fs "" [x21]
  = (sample_docs_fs, FmErr ErrNotAFile) /\
  exists info,
    UpdateFile sample_host sample_service sample_docs_fs "a.txt" [x21]
    = (<[("/home/alice/a.txt" : gostring) := NFile [x21]]> sample_docs_fs,
       FmOk info) /\
    FileInfo.Size info = 1 /\
    GetContent sample_host sample_service
      (<[("/home/alice/a.txt" : gostring) := NFile [x21]]> sample_docs_fs) "a.txt"
    = FmOk ([x21], info).
Proof.
  split; [|split].
  - apply (UpdateFile_replaces_content sample_host sample_service
             sample_docs_fs "c.txt" "/home/alice/c.txt" [] [x21]);
      vm_compute; reflexivity.
  - apply (UpdateFile_replaces_content sample_host sample_service
             sample_docs_fs "" "/home/alice" [] [x21]);
      vm_compute; reflexivity.
  - apply (UpdateFile_replaces_content sample_host sample_service
             sample_docs_fs "a.txt" "/home/alice/a.txt" [x68; x69] [x21]);
      vm_compute; reflexivity.
Defined.

Lemma insert_entry_length (e : gostring * node) (l : list (gostring * node)) :
  length (insert_entry e l) = S (length l).
Proof.
  induction l as [|e' l IH]; cbn [insert_entry length]; [done|].
  destruct (name_le _ _); cbn [length]; by rewrite ?IH.
Qed.

Lemma sort_entries_length (l : list (gostring * node)) :
  length (sort_entries l) = length l.
Proof.
  induction l as [|e l IH]; [done|]. cbn [sort_entries foldr length].
  rewrite insert_entry_length. by rewrite <- IH.
Qed.

Lemma dir_entries_nil (f : gmap gostring node) (name : gostring) :
  dir_entries f name = [] <->
  forall child, Dir child = name -> child <> name -> f !! child = None.
Proof.
  unfold dir_entries. rewrite map_to_list_empty_iff, map_empty.
  split.
  - intros H child Hd Hne. destruct (f !! child) as [n|] eqn:Hl; [|done].
    specialize (H child). apply map_lookup_filter_None in H as [H|H];
      [congruence|]. by destruct (H n Hl).
  - intros H child. apply map_lookup_filter_None.
    destruct (f !! child) as [n|] eqn:Hl; [|by left]. right.
    intros n' _ [Hd Hne]. cbn in *. rewrite (H child Hd Hne) in Hl. done.
Qed.

(** [Delete] on a folder: with [recursive] the folder and all that is below
    it disappear and nothing else changes; without it a folder that has an
    entry is left alone with the error [ErrFolderNotEmpty], and an empty
    folder is removed. *)
Theorem Delete_folder (h : host) (s : service) (f : gmap gostring node)
    (relativePath fullPath : gostring) :
  ValidatePath (Getwd h) (basePath s) relativePath = Ok fullPath ->
  os.Stat f fullPath = Ok NDir -> fullPath <> [sep] ->
  (exists f',
     Delete h s f relativePath true = (f', None) /\
     (forall p, p = fullPath \/ HasPrefix p (fullPath ++ [sep]) = true ->
        f' !! p = None) /\
     (forall p, p <> fullPath -> HasPrefix p (fullPath ++ [sep]) = false ->
        f' !! p = f !! p)) /\
  (forall child n,
     f !! child = Some n -> Dir child = fullPath -> child <> fullPath ->
     Delete h s f relativePath false = (f, Some ErrFolderNotEmpty)) /\
  ((forall child, Dir child = fullPath -> child <> fullPath -> f !! child = None) ->
   Delete h s f relativePath false = (delete fullPath f, None)).
Proof.
  intros Hv Hst Hroot. unfold Delete, deleteLocal. rewrite Hv.
  unfold PathExists, IsDir. rewrite Hst. cbn [is_ok negb].
  split; [|split].
  - eexists. split; [reflexivity|]. split.
    + intros p Hp. by apply RemoveAll_lookup_removed.
    + intros p Hp1 Hp2. by apply RemoveAll_lookup_kept.
  - intros child n Hl Hd Hne. unfold os_ReadDir. rewrite Hst.
    rewrite sort_entries_length.
    destruct (dir_entries f fullPath) as [|e es] eqn:He; [|done].
    pose proof (proj1 (dir_entries_nil _ _) He child Hd Hne) as Hc.
    rewrite Hc in Hl. done.
  - intros Hempty. apply (proj2 (dir_entries_nil _ _)) in Hempty.
    unfold os_ReadDir. rewrite Hst, Hempty. cbn [length Nat.ltb Nat.leb].
    unfold os_Remove. destruct (decide (fullPath = [sep])); [done|].
    unfold os.Stat in Hst. destruct (decide (fullPath = [sep])); [done|].
    destruct (f !! fullPath) as [[?|]|]; [done| |done].
    by rewrite Hempty.
Qed.

Lemma Delete_folder_witness :
  (exists f',
     Delete sample_host sample_service sample_docs_fs "" true = (f', None) /\
     (forall p : gostring,
        p = "/home/alice" \/ HasPrefix p ("/home/alice" ++ [sep]) = true ->
        f' !! p = None) /\
     (forall p : gostring,
        p <> "/home/alice" -> HasPrefix p ("/home/alice" ++ [sep]) = false ->
        f' !! p = sample_docs_fs !! p)) /\
  Delete sample_host sample_service sample_docs_fs "" false
  = (sample_docs_fs, Some ErrFolderNotEmpty) /\
  Delete sample_host sample_service (fs empty_home) "" false
  = (delete ("/home/alice" : gostring) (fs empty_home), None).
Proof.
  split; [|split].
  - apply (Delete_folder sample_host sample_service sample_docs_fs ""
             "/home/alice"); [vm_compute; reflexivity..|discriminate].
  - apply (proj1 (proj2 (Delete_folder sample_host sample_service sample_docs_fs
                           "" "/home/alice" ltac:(vm_compute; reflexivity)
                           ltac:(vm_compute; reflexivity) ltac:(discriminate)))
             "/home/alice/a.txt" (NFile [x68; x69]));
      [vm_compute; reflexivity..|discriminate].
  - apply (Delete_folder sample_host sample_service (fs empty_home) ""
             "/home/alice"); [vm_compute; reflexivity..|discriminate|].
    apply dir_entries_nil. vm_compute. reflexivity.
Defined.

Lemma move_tree_file (f : gmap gostring node) (oldpath newpath : gostring)
    (n : node) :
  f !! oldpath = Some n -> nothing_below f oldpath ->
  move_tree f oldpath newpath = <[newpath := n]> (delete oldpath f).
Proof.
  intros Hold Hbelow. unfold move_tree.
  set (moved := fun kv : gostring * node =>
                  kv.1 = oldpath \/ HasPrefix kv.1 (oldpath ++ [sep]) = true).
  assert (filter moved f = {[oldpath := n]}) as ->.
  { apply map_eq. intros k. destruct (decide (k = oldpath)) as [->|Hne].
    - rewrite lookup_singleton_eq. apply map_lookup_filter_Some.
      split; [done|]. by left.
    - rewrite lookup_singleton_ne by done. apply map_lookup_filter_None.
      destruct (f !! k) as [m|] eqn:Hk; [|by left]. right.
      intros m' _ [?|Hp]; [done|]. cbn in Hp.
      apply (map_Forall_lookup_1 _ _ _ _ Hbelow) in Hk. cbn in Hk. congruence. }
  assert (filter (fun kv : gostring * node =>
                    ~ (kv.1 = oldpath \/ HasPrefix kv.1 (oldpath ++ [sep]) = true)) f
          = delete oldpath f) as ->.
  { apply map_eq. intros k. destruct (decide (k = oldpath)) as [->|Hne].
    - rewrite lookup_delete_eq. apply map_lookup_filter_None. right.
      intros m _ Hn. apply Hn. by left.
    - rewrite lookup_delete_ne by done.
      destruct (f !! k) as [m|] eqn:Hk.
      + apply map_lookup_filter_Some. split; [done|].
        intros [?|Hp]; [done|]. cbn in Hp.
        apply (map_Forall_lookup_1 _ _ _ _ Hbelow) in Hk. cbn in Hk. congruence.
      + apply map_lookup_filter_None. by left. }
  rewrite map_to_list_singleton. cbn [map list_to_map fst snd].
  rewrite drop_all, app_nil_r.
  change (list_to_map [(newpath, n)]) with (<[newpath := n]> (∅ : gmap gostring node)).
  by rewrite insert_empty, <- insert_union_singleton_l.
Qed.

(** [Rename] joins the new name to the directory of the file without
    validating it: the file goes to that path wherever it lies.  The
    answer is the information about the relative form of the new path, and
    about the empty relative path, the base directory, when the new path
    has no such form because it lies outside the base path. *)
Theorem Rename_new_name_unchecked (h : host) (s : service)
    (f : gmap gostring node) (relativePath fullPath newName : gostring)
    (data : list byte) :
  let newPath := Join [Dir fullPath; newName] in
  let f' := <[newPath := NFile data]> (delete fullPath f) in
  ValidatePath (Getwd h) (basePath s) relativePath = Ok fullPath ->
  f !! fullPath = Some (NFile data) -> fullPath <> [sep] ->
  nothing_below f fullPath ->
  PathExists f newPath = false ->
  os.Stat f (Dir newPath) = Ok NDir ->
  (forall rel, GetRelativePath (Getwd h) (basePath s) newPath = Ok rel ->
     Rename h s f relativePath newName = (f', GetInfo h s f' rel)) /\
  (forall e, GetRelativePath (Getwd h) (basePath s) newPath = Err e ->
     Rename h s f relativePath newName = (f', GetInfo h s f' [])).
Proof.
  intros newPath f' Hv Hold Hroot Hbelow Hnew Hdir.
  assert (Rename h s f relativePath newName
          = (f', GetInfo h s f'
                   match GetRelativePath (Getwd h) (basePath s) newPath with
                   | Ok rel => rel
                   | Err _ => []
                   end)) as Hrun.
  { unfold Rename. rewrite Hv. fold newPath.
    assert (PathExists f fullPath = true) as ->.
    { unfold PathExists, os.Stat. destruct (decide _); [done|]. by rewrite Hold. }
    cbn [negb]. rewrite Hnew.
    apply PathExists_false in Hnew as [Hnroot Hnone].
    unfold os_Rename.
    destruct (decide (fullPath = [sep] \/ newPath = [sep])) as [[?|?]|_]; [done..|].
    rewrite Hold. destruct (decide (fullPath = newPath)) as [Heq|_];
      [by rewrite Heq, Hnone in Hold|].
    rewrite Hdir, Hnone. by rewrite (move_tree_file _ _ _ _ Hold Hbelow). }
  split.
  - intros rel Hrel. by rewrite Hrun, Hrel.
  - intros e He. by rewrite Hrun, He.
Qed.

Lemma Rename_new_name_unchecked_witness :
  Rename sample_host sample_service sample_docs_tmp_fs "a.txt" "c.txt"
  = (<[("/home/alice/c.txt" : gostring) := NFile [x68; x69]]>
       (delete ("/home/alice/a.txt" : gostring) sample_docs_tmp_fs),
     GetInfo sample_host sample_service
       (<[("/home/alice/c.txt" : gostring) := NFile [x68; x69]]>
          (delete ("/home/alice/a.txt" : gostring) sample_docs_tmp_fs))
       "c.txt") /\
  Rename sample_host sample_service sample_docs_tmp_fs "a.txt" "../../tmp/x"
  = (<[("/tmp/x" : gostring) := NFile [x68; x69]]>
       (delete ("/home/alice/a.txt" : gostring) sample_docs_tmp_fs),
     GetInfo sample_host sample_service
       (<[("/tmp/x" : gostring) := NFile [x68; x69]]>
          (delete ("/home/alice/a.txt" : gostring) sample_docs_tmp_fs))
       []).
Proof.
  split.
  - apply (Rename_new_name_unchecked sample_host sample_service
             sample_docs_tmp_fs "a.txt" "/home/alice/a.txt" "c.txt" [x68; x69]).
    + vm_compute. reflexivity.
    + vm_compute. reflexivity.
    + discriminate.
    + apply (bool_decide_unpack _). vm_compute. exact I.
    + vm_compute. reflexivity.
    + vm_compute. reflexivity.
    + vm_compute. reflexivity.
  - apply (proj2 (Rename_new_name_unchecked sample_host sample_service
             sample_docs_tmp_fs "a.txt" "/home/alice/a.txt" "../../tmp/x"
             [x68; x69]
             ltac:(vm_compute; reflexivity) ltac:(vm_compute; reflexivity)
             ltac:(discriminate)
             ltac:(apply (bool_decide_unpack _); vm_compute; exact I)
             ltac:(vm_compute; reflexivity) ltac:(vm_compute; reflexivity))
             ErrOutsideBasePath).
    vm_compute. reflexivity.
Defined.

(** The answer of the second renaming above: the call succeeds, and
    describes the base directory. *)
Example Rename_outside_answers_base :
  (Rename sample_host sample_service sample_docs_tmp_fs "a.txt" "../../tmp/x").2
  = FmOk (FileInfo.mk "alice" "." 0 true []).
Proof. vm_compute. reflexivity. Qed.

(** [CreateFolder] turns down a path that exists; where the path is free,
    the folder and the missing folders above it are created and nothing
    that existed changes. *)
Theorem CreateFolder_creates_or_refuses (h : host) (s : service)
    (f f1 : gmap gostring node) (relativePath fullPath : gostring) :
  ValidatePath (Getwd h) (basePath s) relativePath = Ok fullPath ->
  fullPath <> [] ->
  (PathExists f fullPath = true ->
   CreateFolder h s f relativePath = (f, FmErr ErrAlreadyExists)) /\
  (PathExists f fullPath = false -> os.MkdirAll f fullPath = Ok f1 ->
   exists info,
     CreateFolder h s f relativePath = (f1, FmOk info) /\
     FileInfo.IsDir info = true /\
     os.Stat f1 fullPath = Ok NDir /\
     forall q, f1 !! q = f !! q \/ (f !! q = None /\ f1 !! q = Some NDir)).
Proof.
  intros Hv Hne. unfold CreateFolder. rewrite Hv. split; [by intros ->|].
  intros Hnew Hmk. rewrite Hnew, Hmk.
  pose proof (MkdirAll_post _ _ _ Hne Hmk) as Hst.
  unfold GetInfo, getInfoLocal. rewrite Hv, Hst.
  eexists. split; [reflexivity|]. split; [done|]. split; [done|].
  by apply MkdirAll_frame with fullPath.
Qed.

Lemma CreateFolder_creates_or_refuses_witness :
  CreateFolder sample_host sample_service sample_docs_fs ""
  = (sample_docs_fs, FmErr ErrAlreadyExists) /\
  exists info,
    CreateFolder sample_host sample_service sample_docs_fs "x/y"
    = (<[("/home/alice/x/y" : gostring) := NDir]>
         (<[("/home/alice/x" : gostring) := NDir]> sample_docs_fs), FmOk info) /\
    FileInfo.IsDir info = true /\
    os.Stat (<[("/home/alice/x/y" : gostring) := NDir]>
               (<[("/home/alice/x" : gostring) := NDir]> sample_docs_fs))
      "/home/alice/x/y" = Ok NDir /\
    forall q : gostring,
      <[("/home/alice/x/y" : gostring) := NDir]>
        (<[("/home/alice/x" : gostring) := NDir]> sample_docs_fs) !! q
      = sample_docs_fs !! q \/
      (sample_docs_fs !! q = None /\
       <[("/home/alice/x/y" : gostring) := NDir]>
         (<[("/home/alice/x" : gostring) := NDir]> sample_docs_fs) !! q
       = Some NDir).
Proof.
  split.
  - apply (CreateFolder_creates_or_refuses sample_host sample_service
             sample_docs_fs sample_docs_fs "" "/home/alice");
      [vm_compute; reflexivity|discriminate|vm_compute; reflexivity].
  - apply (CreateFolder_creates_or_refuses sample_host sample_service
             sample_docs_fs _ "x/y" "/home/alice/x/y");
      [vm_compute; reflexivity|discriminate|vm_compute; reflexivity|].
    run_MkdirAll.
Defined.

(** ** What an upload leaves in the progress store *)

Lemma Update_keeps_total (ps ps' : gmap gostring Progress) (id : gostring)
    (v total : Z) :
  ProgressStore.Update ps id v = inr ps' ->
  (exists p, ps !! id = Some p /\ TotalBytes p = total) ->
  exists p, ps' !! id = Some p /\ TotalBytes p = total.
Proof.
  intros Hup (p & Hp & Ht). unfold ProgressStore.Update in Hup. rewrite Hp in Hup.
  cbn [TotalBytes set_UploadedBytes] in Hup.
  destruct (0 <? TotalBytes p).
  - destruct (quot64 _ _) as [e|q]; [done|]. injection Hup as <-.
    eexists. by rewrite lookup_insert_eq.
  - injection Hup as <-. eexists. by rewrite lookup_insert_eq.
Qed.

Lemma report_upload_keeps_total (ps : gmap gostring Progress) (id : gostring)
    (written total size : Z) :
  (exists p, ps !! id = Some p /\ TotalBytes p = size) ->
  exists p, report_upload id written total ps !! id = Some p /\ TotalBytes p = size.
Proof.
  intros Hp. unfold report_upload.
  destruct (ProgressStore.Update ps id written) as [pn|ps1] eqn:Hup; [done|].
  by eapply Update_keeps_total.
Qed.

Lemma upload_copy_keeps_total (bufs : list (list byte)) :
  forall (f f' : gmap gostring node) (pw pw' : ProgressWriter.t)
         (ps ps' : gmap gostring Progress) (id path : gostring) (size : Z),
    upload_copy f pw ps id path bufs = (f', pw', ps') ->
    (exists p, ps !! id = Some p /\ TotalBytes p = size) ->
    exists p, ps' !! id = Some p /\ TotalBytes p = size.
Proof.
  induction bufs as [|buf rest IH]; intros f f' pw pw' ps ps' id path size Hrun Hp;
    cbn [upload_copy] in Hrun.
  - by simplify_eq.
  - destruct (ProgressWriter.Write _ pw _ ps) as [pw1 ps1] eqn:Hw.
    eapply IH; [exact Hrun|].
    unfold ProgressWriter.Write in Hw.
    destruct (0 <? _); simplify_eq; [|done].
    by apply report_upload_keeps_total.
Qed.

(** The progress record a single upload leaves behind: after a successful
    call it is complete, at 100 percent, with the declared size as the
    number of uploaded bytes; after a call that failed once the record was
    registered it is marked failed and carries the text of the error; a
    call that fails earlier returns no identifier and leaves the progress
    store as it was. *)
Theorem Upload_progress_outcome (h : host) (s : service) (st : state)
    (uploadID filename destination : gostring)
    (reader : list byte * option error) (size : Z) :
  match Upload h s st uploadID filename destination reader size with
  | (st', uid, None) =>
      uid = uploadID /\
      exists p, progressStore st' !! uploadID = Some p /\
        Status p = StatusCompleted /\ Percent p = 100 /\
        UploadedBytes p = size /\ TotalBytes p = size
  | (st', uid, Some e) =>
      (uid = [] /\ progressStore st' = progressStore st) \/
      (uid = uploadID /\
       exists p, progressStore st' !! uploadID = Some p /\
         Status p = StatusFailed /\ Error p = error_text e)
  end.
Proof.
  unfold Upload.
  destruct (ValidatePath _ _ _) as [destPath|e]; [|by left].
  destruct (os.MkdirAll _ _) as [fs1|e]; [|by left].
  destruct (if PathExists fs1 _ then _ else _) as [fullPath|]; [|by left].
  cbn [set_fs set_progressStore progressStore fs chunkStore].
  set (ps0 := ProgressStore.Set_ _ _ _).
  assert (exists p, ps0 !! uploadID = Some p /\ TotalBytes p = size) as Hp0
    by (eexists; unfold ps0, ProgressStore.Set_; by rewrite lookup_insert_eq).
  assert (forall (st1 : state) e,
            (exists p, progressStore st1 !! uploadID = Some p) ->
            exists p, progressStore (fail st1 uploadID e).1 !! uploadID = Some p /\
              Status p = StatusFailed /\ Error p = error_text e) as Hfail.
  { intros st1 e [p Hp]. unfold fail, updateProgressError, ProgressStore.Get.
    rewrite Hp. cbn. unfold ProgressStore.Set_. rewrite lookup_insert_eq.
    by eexists. }
  destruct (os.Create fs1 fullPath) as [fs2|e].
  - destruct (upload_copy fs2 _ ps0 uploadID fullPath _)
      as [[fs3 pw] ps] eqn:Hcopy.
    destruct (upload_copy_keeps_total _ _ _ _ _ _ _ _ _ size Hcopy Hp0)
      as (p & Hp & Htot).
    destruct reader.2 as [e|].
    + right. split; [done|]. apply Hfail. by exists p.
    + split; [done|]. cbn. unfold updateProgressCompleted, ProgressStore.Get.
      rewrite Hp. unfold ProgressStore.Set_. rewrite lookup_insert_eq.
      eexists. split; [done|]. by cbn.
  - right. split; [done|]. apply Hfail. destruct Hp0 as (p & Hp & _). by exists p.
Qed.

Lemma fail_outcome (st : state) (id : gostring) (e : error) :
  is_Some (progressStore st !! id) ->
  exists p, progressStore (fail st id e).1 !! id = Some p /\
    Status p = StatusFailed /\ Error p = error_text e.
Proof.
  intros [p Hp]. unfold fail, updateProgressError, ProgressStore.Get.
  rewrite Hp. cbn. unfold ProgressStore.Set_. rewrite lookup_insert_eq.
  by eexists.
Qed.

Lemma completed_outcome (ps : gmap gostring Progress) (id : gostring) :
  is_Some (ps !! id) ->
  exists p, updateProgressCompleted ps id !! id = Some p /\
    Status p = StatusCompleted /\ Percent p = 100 /\
    UploadedBytes p = TotalBytes p.
Proof.
  intros [p Hp]. unfold updateProgressCompleted, ProgressStore.Get.
  rewrite Hp. unfold ProgressStore.Set_. rewrite lookup_insert_eq.
  by eexists.
Qed.

(** The answer of an extraction and the progress record it leaves behind.
    A successful call answers the identifier, a colon and what
    [GetRelativePath] gives for the validated destination against the base
    path (nothing after the colon where [GetRelativePath] fails), and the
    record is complete and at 100 percent; after a call that failed once the
    record was registered the answer is the identifier and the record is
    marked failed, with the text of the error; a call that fails earlier
    returns no identifier and changes nothing. *)
Theorem Extract_progress_outcome (h : host) (s : service) (st : state)
    (extractID source destination : gostring) :
  match Extract h s st extractID source destination with
  | (st', answer, None) =>
      (exists destPath,
         ValidatePath (Getwd h) (basePath s) destination = Ok destPath /\
         answer = extractID ++ ":" ++
                  match GetRelativePath (Getwd h) (basePath s) destPath with
                  | Ok rel => rel
                  | Err _ => []
                  end) /\
      exists p, progressStore st' !! extractID = Some p /\
        Status p = StatusCompleted /\ Percent p = 100 /\
        UploadedBytes p = TotalBytes p
  | (st', answer, Some e) =>
      (answer = [] /\ st' = st) \/
      (answer = extractID /\
       exists p, progressStore st' !! extractID = Some p /\
         Status p = StatusFailed /\ Error p = error_text e)
  end.
Proof.
  unfold Extract.
  destruct (ValidatePath _ _ source) as [sourcePath|e]; [|by left].
  destruct (negb _); [by left|].
  destruct (ValidatePath _ _ destination) as [destPath|e] eqn:Hdest; [|by left].
  destruct (match os.ReadFile _ _ with Ok _ => _ | Err _ => _ end) as [files|e];
    [|by left].
  cbn [set_fs set_progressStore progressStore fs chunkStore].
  set (ps0 := ProgressStore.Set_ _ _ _).
  assert (is_Some (ps0 !! extractID)) as Hp0
    by (unfold ps0, ProgressStore.Set_; by rewrite lookup_insert_eq).
  destruct (os.MkdirAll (fs st) destPath) as [fs1|e].
  - match goal with
    | |- context [extract_entries h s ?st1 files destPath 0 ?total extractID] =>
        pose proof (extract_entries_keeps h s files destPath total extractID st1 0
                      Hp0) as Hkeep;
        destruct (extract_entries h s st1 files destPath 0 total extractID)
          as [[st2 eb] [e|]]
    end; cbn [fst] in Hkeep.
    + right. split; [done|]. by apply fail_outcome.
    + split; [by exists destPath|]. by apply completed_outcome.
  - right. split; [done|]. by apply fail_outcome.
Qed.

(** The same for a compression, whose answer names the archive that was
    written: the validated output path or, where that existed, the name
    [GenerateUniqueName] gave, relative to the base path as [GetRelativePath]
    has it.  A call that fails before the record is registered may have
    created the directory of the output. *)
Theorem Compress_progress_outcome (h : host) (s : service) (st : state)
    (compressID : gostring) (paths : list gostring) (output : gostring)
    (compressionLevel : Z) :
  match Compress h s st compressID paths output compressionLevel with
  | (st', answer, None) =>
      (exists outputPath fs1 target,
         ValidatePath (Getwd h) (basePath s) output = Ok outputPath /\
         os.MkdirAll (fs st) (filepath.Dir outputPath) = Ok fs1 /\
         (if PathExists fs1 outputPath
          then GenerateUniqueName fs1 outputPath else Some outputPath)
         = Some target /\
         answer = compressID ++ ":" ++
                  match GetRelativePath (Getwd h) (basePath s) target with
                  | Ok rel => rel
                  | Err _ => []
                  end) /\
      exists p, progressStore st' !! compressID = Some p /\
        Status p = StatusCompleted /\ Percent p = 100 /\
        UploadedBytes p = TotalBytes p
  | (st', answer, Some e) =>
      (answer = [] /\ progressStore st' = progressStore st) \/
      (answer = compressID /\
       exists p, progressStore st' !! compressID = Some p /\
         Status p = StatusFailed /\ Error p = error_text e)
  end.
Proof.
  unfold Compress.
  destruct (ValidatePath _ _ output) as [outputPath|e] eqn:Hout; [|by left].
  destruct (os.MkdirAll _ _) as [fs1|e] eqn:Hmk; [|by left].
  destruct (if PathExists fs1 _ then _ else _) as [outputPath'|] eqn:Htarget;
    [|by left].
  destruct (valid_inputs h s fs1 paths [] 0) as [validPaths totalSize].
  destruct (decide (length validPaths = 0%nat)); [by left|].
  cbn [set_fs set_progressStore progressStore fs chunkStore].
  set (ps0 := ProgressStore.Set_ _ _ _).
  assert (is_Some (ps0 !! compressID)) as Hp0
    by (unfold ps0, ProgressStore.Set_; by rewrite lookup_insert_eq).
  destruct (os.Create fs1 outputPath') as [fs2|e].
  - pose proof (add_inputs_keeps h fs2 totalSize compressID validPaths
                  (mkArchive [] 0 ps0) Hp0) as Hkeep.
    destruct (add_inputs h fs2 (mkArchive [] 0 ps0) validPaths totalSize compressID)
      as [a [e|]]; cbn [fst] in Hkeep.
    + right. split; [done|]. by apply fail_outcome.
    + split; [by exists outputPath, fs1, outputPath'|]. by apply completed_outcome.
  - right. split; [done|]. by apply fail_outcome.
Qed.

(** ** Copying and moving through the service *)

Lemma MkdirAll_exists (f : gmap gostring node) (p : gostring) :
  os.Stat f p = Ok NDir -> os.MkdirAll f p = Ok f.
Proof. intros H. unfold os.MkdirAll. by rewrite H. Qed.

Lemma ReadFile_Stat (f : gmap gostring node) (p : gostring) (data : list byte) :
  os.ReadFile f p = Ok data <-> os.Stat f p = Ok (NFile data).
Proof.
  unfold os.ReadFile. destruct (os.Stat f p) as [[d|]|e]; split; congruence.
Qed.

(** [Copy] of one file to a destination other than the file itself: the
    copy is written to [filepath.Join(destPath, name)] or, when that exists
    and [overwrite] is off, to the first free numbered name; it holds the
    bytes of the source and nothing else changes. *)
Theorem Copy_file (h : host) (s : service) (f : gmap gostring node)
    (src destination srcPath destPath target : gostring) (data : list byte)
    (overwrite : bool) :
  ValidatePath (Getwd h) (basePath s) destination = Ok destPath ->
  ValidatePath (Getwd h) (basePath s) src = Ok srcPath ->
  os.Stat f destPath = Ok NDir ->
  os.ReadFile f srcPath = Ok data ->
  destination_item f destPath srcPath overwrite = Some target ->
  target <> srcPath ->
  os.Stat f target <> Ok NDir ->
  os.Stat f (Dir target) = Ok NDir ->
  exists infos,
    Copy h s f [src] destination overwrite
    = (<[target := NFile data]> f, FmOk infos).
Proof.
  intros Hd Hs Hdest Hsrc Hitem Hne Htarget Hparent.
  unfold Copy. rewrite Hd, (MkdirAll_exists _ _ Hdest).
  cbn [copy_sources]. rewrite Hs.
  rewrite (proj1 (ReadFile_Stat _ _ _) Hsrc), Hitem.
  rewrite (CopyFile_between f srcPath target data true) by done.
  by eexists.
Qed.

(** [Copy] of a file into the directory it is in, with [overwrite] on:
    the file is copied onto itself, which empties it, and the call reports
    success. *)
Theorem Copy_file_onto_itself (h : host) (s : service) (f : gmap gostring node)
    (src destination srcPath destPath : gostring) (data : list byte) :
  ValidatePath (Getwd h) (basePath s) destination = Ok destPath ->
  ValidatePath (Getwd h) (basePath s) src = Ok srcPath ->
  os.Stat f destPath = Ok NDir ->
  os.ReadFile f srcPath = Ok data ->
  Join [destPath; Base srcPath] = srcPath ->
  os.Stat f (Dir srcPath) = Ok NDir ->
  exists infos,
    Copy h s f [src] destination true = (<[srcPath := NFile []]> f, FmOk infos).
Proof.
  intros Hd Hs Hdest Hsrc Hjoin Hparent.
  unfold Copy. rewrite Hd, (MkdirAll_exists _ _ Hdest).
  cbn [copy_sources]. rewrite Hs.
  rewrite (proj1 (ReadFile_Stat _ _ _) Hsrc).
  unfold destination_item. rewrite Hjoin, andb_false_r.
  rewrite (CopyFile_same_path f srcPath data true) by done.
  by eexists.
Qed.

(** [Move] of one file: the file leaves its path and arrives, with its
    bytes, at [filepath.Join(destPath, name)] or, when that exists and
    [overwrite] is off, at the first free numbered name; a file that is in
    the way at the destination is replaced. *)
Theorem Move_file (h : host) (s : service) (f : gmap gostring node)
    (src destination srcPath destPath target : gostring) (data : list byte)
    (overwrite : bool) :
  ValidatePath (Getwd h) (basePath s) destination = Ok destPath ->
  ValidatePath (Getwd h) (basePath s) src = Ok srcPath ->
  os.Stat f destPath = Ok NDir ->
  f !! srcPath = Some (NFile data) -> srcPath <> [sep] ->
  nothing_below f srcPath ->
  destination_item f destPath srcPath overwrite = Some target ->
  target <> srcPath -> target <> [sep] ->
  f !! target <> Some NDir ->
  os.Stat f (Dir target) = Ok NDir ->
  exists infos,
    Move h s f [src] destination overwrite
    = (<[target := NFile data]> (delete srcPath f), FmOk infos).
Proof.
  intros Hd Hs Hdest Hsrc Hroot Hbelow Hitem Hne Htroot Htarget Hparent.
  unfold Move. rewrite Hd, (MkdirAll_exists _ _ Hdest).
  cbn [move_sources]. rewrite Hs.
  assert (os.Stat f srcPath = Ok (NFile data)) as ->.
  { unfold os.Stat. destruct (decide _); [done|]. by rewrite Hsrc. }
  rewrite Hitem. unfold os_Rename.
  destruct (decide (srcPath = [sep] \/ target = [sep])) as [[?|?]|_]; [done..|].
  rewrite Hsrc. destruct (decide (srcPath = target)) as [?|_]; [done|].
  rewrite Hparent, (move_tree_file _ _ _ _ Hsrc Hbelow).
  destruct (f !! target) as [[old|]|]; [|done|]; by eexists.
Qed.

Lemma Copy_file_witness :
  exists infos,
    Copy sample_host sample_service sample_docs_fs ["a.txt" : gostring] "" false
    = (<[("/home/alice/a_1.txt" : gostring) := NFile [x68; x69]]> sample_docs_fs,
       FmOk infos).
Proof.
  apply (Copy_file sample_host sample_service sample_docs_fs "a.txt" ""
           "/home/alice/a.txt" "/home/alice" "/home/alice/a_1.txt" [x68; x69] false).
  - vm_compute. reflexivity.
  - vm_compute. reflexivity.
  - vm_compute. reflexivity.
  - vm_compute. reflexivity.
  - vm_compute. reflexivity.
  - discriminate.
  - vm_compute. discriminate.
  - vm_compute. reflexivity.
Defined.

Lemma Copy_file_onto_itself_witness :
  exists infos,
    Copy sample_host sample_service sample_docs_fs ["a.txt" : gostring] "" true
    = (<[("/home/alice/a.txt" : gostring) := NFile []]> sample_docs_fs,
       FmOk infos).
Proof.
  apply (Copy_file_onto_itself sample_host sample_service sample_docs_fs "a.txt" ""
           "/home/alice/a.txt" "/home/alice" [x68; x69]);
    vm_compute; reflexivity.
Defined.

Lemma Move_file_witness :
  exists infos,
    Move sample_host sample_service sample_docs_fs ["a.txt" : gostring] "" false
    = (<[("/home/alice/a_1.txt" : gostring) := NFile [x68; x69]]>
         (delete ("/home/alice/a.txt" : gostring) sample_docs_fs),
       FmOk infos).
Proof.
  apply (Move_file sample_host sample_service sample_docs_fs "a.txt" ""
           "/home/alice/a.txt" "/home/alice" "/home/alice/a_1.txt" [x68; x69] false).
  - vm_compute. reflexivity.
  - vm_compute. reflexivity.
  - vm_compute. reflexivity.
  - vm_compute. reflexivity.
  - discriminate.
  - apply (bool_decide_unpack _). vm_compute. exact I.
  - vm_compute. reflexivity.
  - discriminate.
  - discriminate.
  - vm_compute. discriminate.
  - vm_compute. reflexivity.
Defined.

(** ** From the initialisation to the final file *)

Lemma Join_scratch (bs : list gostring) (a b : gostring) :
  Forall plain bs -> plain a -> plain b ->
  Join [sep :: join bs; a; b] = sep :: join (bs ++ [a; b]).
Proof.
  intros Hbs Ha Hb.
  change (Join [sep :: join bs; a; b]) with (Join [sep :: join bs; a ++ sep :: b]).
  rewrite Join_base by done.
  rewrite split_app_sep.
  rewrite (split_nosep a) by by destruct Ha as (_ & _ & _ & ?).
  rewrite (split_nosep b) by by destruct Hb as (_ & _ & _ & ?).
  cbn [app]. rewrite !clean_loop_plain_cons by done. cbn [clean_loop rev].
  by rewrite rev_involutive, <- app_assoc.
Qed.

(** A chunked upload from its initialisation on: when the identifier is
    new, so that the scratch directory made for it is empty, and the final
    path is free with its directory in place, then submitting every chunk
    once, in any order, leaves the final file with the chunks in index
    order, and neither the session nor its scratch directory. *)
Theorem chunked_upload_from_init (h : host) (s : service) (st : state)
    (uploadID filename destination destPath : gostring)
    (totalSize chunkSize : Z) (bs : list gostring) (fs1 : gmap gostring node)
    (d : Z -> list byte) (order : list Z) :
  let tempDir := Join [os_TempDir h; "filemanager-chunks" : gostring; uploadID] in
  let final := Join [destPath; filename] in
  let n := (totalSize + chunkSize - 1) / chunkSize in
  0 <= totalSize -> 0 < chunkSize -> totalSize + chunkSize <= max_int64 ->
  ValidatePath (Getwd h) (basePath s) destination = Ok destPath ->
  os_TempDir h = sep :: join bs -> Forall plain bs -> plain uploadID ->
  os.MkdirAll (fs st) tempDir = Ok fs1 ->
  nothing_below fs1 tempDir ->
  PathExists fs1 final = false ->
  os.Stat fs1 (Dir final) = Ok NDir ->
  HasPrefix final (tempDir ++ [sep]) = false ->
  0 < n <= first_surrogate_index ->
  order ≡ₚ upto n ->
  exists st1 c st2,
    InitChunkedUpload h s st uploadID filename destination totalSize chunkSize
    = (st1, Ok c) /\
    UploadChunks h s st1 uploadID (map (fun i => (i, d i)) order) = (st2, None) /\
    os.ReadFile (fs st2) final = Ok (concat (map d (upto n))) /\
    chunkStore st2 !! uploadID = None /\
    PathExists (fs st2) tempDir = false.
Proof.
  intros tempDir final n Htot Hchunk Hmax Hv Htmp Hbs Hid Hmk Hbelow Hnew Hdir
    Hout Hn Hperm.
  assert (plain ("filemanager-chunks" : gostring)) as Hfc
    by (apply plainb_plain; reflexivity).
  assert (tempDir = sep :: join (bs ++ ["filemanager-chunks" : gostring; uploadID]))
    as Hshape by (unfold tempDir; rewrite Htmp; by apply Join_scratch).
  assert (scratch_dir tempDir) as Hscratch.
  { exists (bs ++ ["filemanager-chunks" : gostring; uploadID]).
    split; [done|]. split; [|by destruct bs].
    apply Forall_app. split; [done|].
    apply Forall_cons. split; [done|]. apply Forall_cons. split; [done|].
    apply Forall_nil_2. }
  assert (InitChunkedUpload h s st uploadID filename destination totalSize chunkSize
          = (mkState fs1
               (ProgressStore.Set_ (progressStore st) uploadID
                  (mkProgress uploadID filename 0 0 totalSize StatusPending []))
               (<[uploadID := ChunkUpload.mk uploadID filename destPath totalSize
                                chunkSize n ∅ tempDir]> (chunkStore st)),
             Ok (ChunkUpload.mk uploadID filename destPath totalSize chunkSize n ∅
                   tempDir))) as Hinit.
  { unfold InitChunkedUpload. rewrite Hv. unfold quot64, sub64, add64.
    destruct (chunkSize =? 0) eqn:H0; [apply Z.eqb_eq in H0; lia|].
    rewrite (wrap64_small (totalSize + chunkSize)) by (unfold min_int64; lia).
    rewrite (wrap64_small (totalSize + chunkSize - 1)) by (unfold min_int64; lia).
    rewrite Z.quot_div_nonneg by lia. fold n.
    rewrite wrap64_small
      by (unfold min_int64, first_surrogate_index in *; unfold max_int64; lia).
    fold tempDir. by rewrite Hmk. }
  set (c := ChunkUpload.mk uploadID filename destPath totalSize chunkSize n ∅ tempDir)
    in *.
  set (st1 := mkState fs1 _ _) in *.
  destruct (chunked_upload_reassembly h s st1 uploadID c d order)
    as (st2 & Hrun & Hread & Hgone & Hdirgone & _).
  - cbn. by rewrite lookup_insert_eq.
  - done.
  - done.
  - done.
  - change (os.Stat fs1 tempDir = Ok NDir).
    apply MkdirAll_post with (fs st); [|done]. by rewrite Hshape.
  - done.
  - done.
  - done.
  - done.
  - done.
  - by exists st1, c, st2.
Qed.

Lemma chunked_upload_from_init_witness :
  exists st1 c st2,
    InitChunkedUpload sample_host sample_service empty_home "u1" "a.bin" "" 3 1
    = (st1, Ok c) /\
    UploadChunks sample_host sample_service st1 "u1"
      (map (fun i => (i, [byte_of_Z i])) [2; 0; 1]) = (st2, None) /\
    os.ReadFile (fs st2) "/home/alice/a.bin" = Ok [x00; x01; x02] /\
    chunkStore st2 !! ("u1" : gostring) = None /\
    PathExists (fs st2) "/tmp/filemanager-chunks/u1" = false.
Proof.
  apply (chunked_upload_from_init sample_host sample_service empty_home
           "u1" "a.bin" "" "/home/alice" 3 1 ["tmp" : gostring]
           (<[("/tmp/filemanager-chunks/u1" : gostring) := NDir]>
              (<[("/tmp/filemanager-chunks" : gostring) := NDir]> (fs empty_home)))
           (fun i => [byte_of_Z i]) [2; 0; 1]).
  - lia.
  - lia.
  - unfold max_int64. lia.
  - vm_compute. reflexivity.
  - reflexivity.
  - repeat constructor; apply plainb_plain; reflexivity.
  - apply plainb_plain. reflexivity.
  - change (Join _) with ("/tmp/filemanager-chunks/u1" : gostring). run_MkdirAll.
  - apply (bool_decide_unpack _). vm_compute. exact I.
  - vm_compute. reflexivity.
  - vm_compute. reflexivity.
  - vm_compute. reflexivity.
  - change (0 < 3 <= 55248). lia.
  - apply (Permutation_cons_append [0; 1] 2).
Defined.

(** ** The root of the sandbox *)

Lemma SanitizePath_empty : SanitizePath [] = [dot].
Proof. vm_compute. reflexivity. Qed.

Lemma Clean_climb_out (bs ts : list gostring) :
  Forall plain bs -> Forall plain ts ->
  Clean ((sep :: join bs) ++ sep :: join (replicate (length bs) dotdot ++ ts))
  = sep :: join ts.
Proof.
  intros Hbs Hts. unfold Clean. cbn [app IsAbs].
  change (sep :: join bs ++ sep :: join (replicate (length bs) dotdot ++ ts))
    with ((sep :: join bs) ++ sep :: join (replicate (length bs) dotdot ++ ts)).
  rewrite split_app_sep, clean_loop_app, clean_loop_split_abs, app_nil_r by done.
  destruct (decide (replicate (length bs) dotdot ++ ts = [])) as [He|Hne].
  - apply app_eq_nil in He as [Hr ->].
    destruct bs; [|done]. by cbn.
  - rewrite split_join; [|done|].
    2:{ apply Forall_app. split.
        - apply Forall_replicate, dotdot_nosep.
        - by apply plain_nosep. }
    rewrite clean_loop_app, clean_loop_pop by by apply Forall_rev.
    rewrite drop_ge by by rewrite length_rev.
    rewrite clean_loop_plain by done. cbn [render].
    by rewrite app_nil_r, rev_involutive.
Qed.

(** The middleware takes the user site from the header as it is, and the
    handlers make [BasePath + "/" + userSite] the base path of their
    services: a request that carries the configured key can make any
    directory the root of its sandbox, by naming it after as many [..]
    elements as the configured base path has elements. *)
Theorem user_site_picks_the_root (cfg : Config.t) (get : gostring -> gostring)
    (wd : option gostring) (bs ts : list gostring) :
  Config.BasePath cfg = sep :: join bs -> Forall plain bs ->
  Forall plain ts -> ts <> [] ->
  get "X-API-Key" = Config.APIKey cfg -> Config.APIKey cfg <> [] ->
  get "X-User-Site" = join (replicate (length bs) dotdot ++ ts) ->
  exists user,
    Auth cfg get = Next user /\
    UserContext.BasePath user
    = Config.BasePath cfg ++ "/" ++ get "X-User-Site" /\
    ValidatePath wd (basePath (service_of user)) [] = Ok (sep :: join ts).
Proof.
  intros Hbase Hbs Hts Hne Hkey Hkey' Hsite.
  assert (get "X-User-Site" <> []) as Hsite'.
  { rewrite Hsite. destruct ts as [|t ts]; [done|].
    apply Forall_cons in Hts as [(Ht & _) _].
    destruct bs as [|b bs]; cbn [length replicate app];
      by apply join_cons_nonempty. }
  assert (forall user,
            UserContext.BasePath user
            = Config.BasePath cfg ++ "/" ++ get "X-User-Site" ->
            ValidatePath wd (basePath (service_of user)) [] = Ok (sep :: join ts))
    as Hroot.
  { intros user Hu. unfold ValidatePath. rewrite SanitizePath_empty.
    destruct (decide ([dot] = [] \/ [dot] = [dot])) as [_|Hn];
      [|by destruct Hn; right].
    cbn [service_of basePath]. rewrite Hu, Hbase, Hsite.
    f_equal. by apply Clean_climb_out. }
  unfold Auth. rewrite Hkey.
  destruct (decide (Config.APIKey cfg = [])); [done|].
  destruct (decide (Config.APIKey cfg <> Config.APIKey cfg)); [done|].
  destruct (decide (get "X-User-Site" = [])); [done|].
  destruct (decide (_ /\ _)); eexists; (split; [reflexivity|]);
    (split; [reflexivity|]); by apply Hroot.
Qed.

Lemma user_site_picks_the_root_witness :
  exists user,
    Auth default_config sample_request = Next user /\
    UserContext.BasePath user = ("/home/../etc" : gostring) /\
    ValidatePath None (basePath (service_of user)) [] = Ok ("/etc" : gostring).
Proof.
  apply (user_site_picks_the_root default_config sample_request None
           ["home" : gostring] ["etc" : gostring]).
  - reflexivity.
  - repeat constructor; apply plainb_plain; reflexivity.
  - repeat constructor; apply plainb_plain; reflexivity.
  - discriminate.
  - vm_compute. reflexivity.
  - discriminate.
  - vm_compute. reflexivity.
Defined.

(** ** The progress writer *)

Lemma Writes_report_upload (ns : list Z) :
  forall (ps : gmap gostring Progress) (id : gostring) (p : Progress)
         (pw : ProgressWriter.t),
    ps !! id = Some p ->
    Forall (fun n => 0 < n) ns -> ns <> [] ->
    0 <= ProgressWriter.written pw ->
    (ProgressWriter.written pw + sum_list ns) * 100 <= max_int64 ->
    ProgressWriter.Writes (Some (report_upload id)) pw ns ps
    = (ProgressWriter.mk (ProgressWriter.total pw)
         (ProgressWriter.written pw + sum_list ns),
       <[id := updated p (ProgressWriter.written pw + sum_list ns)]> ps).
Proof.
  induction ns as [|n ns IH]; intros ps id p pw Hp Hpos Hne Hw Hmax; [done|].
  apply Forall_cons in Hpos as [Hn Hpos]. cbn [sum_list fold_right] in *.
  fold (sum_list ns) in *.
  assert (0 <= sum_list ns) as Hsum.
  { clear -Hpos. induction Hpos as [|m ms Hm _ IH]; cbn; [done|].
    fold (sum_list ms). lia. }
  cbn [ProgressWriter.Writes]. unfold ProgressWriter.Write.
  destruct (Z.ltb_spec 0 n) as [_|?]; [|lia].
  unfold add64. rewrite wrap64_small by (unfold min_int64; lia).
  unfold report_upload.
  rewrite (Update_present ps id p) by (done || lia).
  destruct (decide (ns = [])) as [->|Hns].
  - cbn. by rewrite Z.add_0_r.
  - rewrite (IH _ id (updated p (ProgressWriter.written pw + n)));
      cbn [ProgressWriter.written ProgressWriter.total];
      [|by rewrite lookup_insert_eq|done|done|lia|lia].
    rewrite insert_insert_eq, Z.add_assoc. do 2 f_equal.
    apply updated_updated.
Qed.

(** The progress writer reports running totals, which is what
    [ProgressStore.Update] takes: after any sequence of writes that took a
    positive number of bytes each, the writer has counted the sum of these
    numbers and the record of the upload holds that sum as its uploaded
    bytes, with the percentage of it. *)
Theorem ProgressWriter_reports_totals (ps : gmap gostring Progress)
    (id : gostring) (p : Progress) (total : Z) (ns : list Z) :
  ps !! id = Some p ->
  Forall (fun n => 0 < n) ns -> ns <> [] ->
  sum_list ns * 100 <= max_int64 ->
  ProgressWriter.Writes (Some (report_upload id))
    (ProgressWriter.NewProgressWriter total) ns ps
  = (ProgressWriter.mk total (sum_list ns),
     <[id := updated p (sum_list ns)]> ps).
Proof.
  intros Hp Hpos Hne Hmax.
  by rewrite (Writes_report_upload ns ps id p) by (done || cbn; lia).
Qed.

Lemma ProgressWriter_reports_totals_witness :
  ProgressWriter.Writes (Some (report_upload "op"))
    (ProgressWriter.NewProgressWriter 100) [30; 20; 10] sample_store
  = (ProgressWriter.mk 100 (sum_list [30; 20; 10]),
     <[("op" : gostring) := updated sample_progress (sum_list [30; 20; 10])]>
       sample_store).
Proof.
  apply (ProgressWriter_reports_totals sample_store "op" sample_progress 100
           [30; 20; 10]).
  - vm_compute. reflexivity.
  - repeat constructor.
  - discriminate.
  - unfold max_int64. cbn. lia.
Defined.

(** [Delete] on what is not a folder: a missing path is answered with
    [ErrNotFound] and nothing changes; a file is removed, whatever
    [recursive] says, and every other path stays as it was. *)
Theorem Delete_file_or_missing (h : host) (s : service) (f : gmap gostring node)
    (relativePath fullPath : gostring) (data : list byte) (recursive : bool) :
  ValidatePath (Getwd h) (basePath s) relativePath = Ok fullPath ->
  (PathExists f fullPath = false ->
   Delete h s f relativePath recursive = (f, Some (Sys ErrNotFound))) /\
  (os.Stat f fullPath = Ok (NFile data) ->
   Delete h s f relativePath recursive = (delete fullPath f, None)).
Proof.
  intros Hv. unfold Delete, deleteLocal. rewrite Hv. split.
  - by intros ->.
  - intros Hst. unfold PathExists, IsDir. rewrite Hst. cbn [is_ok negb].
    unfold os_Remove. unfold os.Stat in Hst.
    destruct (decide (fullPath = [sep])); [done|].
    by destruct (f !! fullPath) as [[?|]|].
Qed.

Lemma Delete_file_or_missing_witness :
  Delete sample_host sample_service sample_docs_fs "c.txt" true
  = (sample_docs_fs, Some (Sys ErrNotFound)) /\
  Delete sample_host sample_service sample_docs_fs "a.txt" false
  = (delete ("/home/alice/a.txt" : gostring) sample_docs_fs, None).
Proof.
  split.
  - apply (Delete_file_or_missing sample_host sample_service sample_docs_fs
             "c.txt" "/home/alice/c.txt" [] true); vm_compute; reflexivity.
  - apply (Delete_file_or_missing sample_host sample_service sample_docs_fs
             "a.txt" "/home/alice/a.txt" [x68; x69] false); vm_compute; reflexivity.
Defined.
